(** * Font Overlay Comparator: a shallow embedding of
      [src/FontOverlayComparator.tsx] and the properties of its
      measuring, drawing, drop handling and messaging code.

    Modelling conventions
    - a JavaScript string is the list of its UTF-16 code units;
      [for (const ch of s)] and [Array.from(s)] walk it by code point, so a
      surrogate pair is one character;
    - a JavaScript number is an exact rational ([Q]); the values read from
      the range sliders through [parseInt] (font size, letter spacing,
      stroke width) and the clock are integers ([Z]);
    - the browser is a record of oracles ([Platform]): the clock, the random
      generator, the font decoder, the text measurer, the pixel ratio;
    - calls on a 2D context are recorded in a log, in the order the code
      issues them;
    - an event handler runs against the state captured by its closure and
      queues state updates; React applies the queue and renders. *)

From Stdlib Require Import List ZArith NArith QArith Qround Qminmax Bool.
From Stdlib Require Import String Ascii DecimalString DecimalZ Lia Lqa.
Import ListNotations.

Set Implicit Arguments.

(** ** JavaScript strings *)

Module JsString.

Definition code_unit := N.
Definition jsstring := list code_unit.

Definition is_high_surrogate (c : code_unit) : bool :=
  ((55296 <=? c) && (c <=? 56319))%N.
Definition is_low_surrogate (c : code_unit) : bool :=
  ((56320 <=? c) && (c <=? 57343))%N.

(** The string iterator: one element per code point. *)
Fixpoint chars (s : jsstring) : list jsstring :=
  match s with
  | [] => []
  | c :: r =>
      match r with
      | d :: r' =>
          if is_high_surrogate c && is_low_surrogate d
          then [c; d] :: chars r'
          else [c] :: chars r
      | [] => [[c]]
      end
  end.

(** Source literals are written as UTF-8 text and decoded to code units. *)
Fixpoint utf8_points (bs : list N) : list N :=
  (match bs with
   | [] => []
   | b :: r =>
       if b <? 128 then b :: utf8_points r
       else if b <? 224 then
         match r with
         | c1 :: r1 => ((b mod 32) * 64 + c1 mod 64) :: utf8_points r1
         | _ => []
         end
       else if b <? 240 then
         match r with
         | c1 :: c2 :: r2 =>
             ((b mod 16) * 4096 + (c1 mod 64) * 64 + c2 mod 64) :: utf8_points r2
         | _ => []
         end
       else
         match r with
         | c1 :: c2 :: c3 :: r3 =>
             ((b mod 8) * 262144 + (c1 mod 64) * 4096 + (c2 mod 64) * 64 + c3 mod 64)
               :: utf8_points r3
         | _ => []
         end
   end)%N.

Definition utf16_of_point (p : N) : jsstring :=
  (if p <? 65536 then [p]
   else [55296 + (p - 65536) / 1024; 56320 + (p - 65536) mod 1024])%N.

Definition lit (s : string) : jsstring :=
  flat_map utf16_of_point
    (utf8_points (map (fun a => N_of_ascii a) (list_ascii_of_string s))).

(** [String(n)] for an integer. *)
Definition of_Z (n : Z) : jsstring :=
  lit (NilZero.string_of_int (Z.to_int n)).

Definition quote : jsstring := [34%N].

Fixpoint eqb (s t : jsstring) : bool :=
  match s, t with
  | [], [] => true
  | a :: s', b :: t' => N.eqb a b && eqb s' t'
  | _, _ => false
  end.

(** [s.endsWith(suffix)], the meaning of a regular expression [suffix$]. *)
Definition ends_with (s suffix : jsstring) : bool :=
  Nat.leb (List.length suffix) (List.length s)
  && eqb (skipn (List.length s - List.length suffix) s) suffix.

(** The class [\w] of a regular expression without the unicode flag. *)
Definition is_word (c : code_unit) : bool :=
  (((48 <=? c) && (c <=? 57)) || ((65 <=? c) && (c <=? 90))
   || ((97 <=? c) && (c <=? 122)) || (c =? 95))%N.

(** [s.replace(/\W+/g, "_")]: every maximal run of non-word units becomes
    one underscore. [in_run] tells that the run was already replaced. *)
Fixpoint replace_nonword_runs (in_run : bool) (s : jsstring) : jsstring :=
  match s with
  | [] => []
  | c :: r =>
      if is_word c then c :: replace_nonword_runs false r
      else if in_run then replace_nonword_runs true r
      else 95%N :: replace_nonword_runs true r
  end.

End JsString.
Import JsString.

(** ** JavaScript numbers *)

Definition Qlt_bool (a b : Q) : bool := negb (Qle_bool b a).

(** Truncation towards zero. *)
Definition Qtrunc (a : Q) : Z :=
  if Qle_bool 0 a then Qfloor a else Qceiling a.

(** The remainder operator [a % b]: the sign follows the dividend. *)
Definition js_rem (a b : Q) : Q := a - b * inject_Z (Qtrunc (a / b)).

(** [v || d] on numbers: [0] is falsy. *)
Definition num_or (v d : Q) : Q := if Qeq_bool v 0 then d else v.

Definition Math_max (a b : Q) : Q := Qmax a b.
Definition Math_min (a b : Q) : Q := Qmin a b.
Definition Math_ceil (a : Q) : Q := inject_Z (Qceiling a).
Definition Math_floor (a : Q) : Q := inject_Z (Qfloor a).
Definition Math_round (a : Q) : Q := inject_Z (Qfloor (a + (1 # 2))).

(** ** The browser *)

Inductive result (A : Type) : Type :=
| Ok (a : A)
| Throw (err : jsstring).
Arguments Ok {A} a.
Arguments Throw {A} err.

Record File := { file_name : jsstring; file_bytes : list N }.

(** [new FontFace(family, source)]. *)
Record FontFace := { family : jsstring; source : list N }.

(** The 2D contexts the code draws on or measures with. *)
Inductive CtxId :=
| MainCtx              (* the context of [canvasRef.current] *)
| TmpCtx               (* [document.createElement("canvas").getContext("2d")] *)
| CellCtx (i : nat).   (* the context of the i-th grid cell *)

Definition CtxId_eqb (a b : CtxId) : bool :=
  match a, b with
  | MainCtx, MainCtx => true
  | TmpCtx, TmpCtx => true
  | CellCtx i, CellCtx j => Nat.eqb i j
  | _, _ => false
  end.

Record Platform := {
  (** the value of the n-th call of [Date.now()] *)
  now : nat -> Z;
  (** the value of the n-th call of [Math.random()] *)
  random : nat -> Q;
  (** [await file.arrayBuffer()] *)
  arrayBuffer : File -> result (list N);
  (** [await face.load()]: fulfilled with the face itself, or rejected
      with an error text *)
  face_load : FontFace -> result unit;
  (** [ctx.measureText(t).width] under the value of [ctx.font] *)
  text_width : jsstring -> jsstring -> Q;
  (** [window.devicePixelRatio] *)
  devicePixelRatio : Q;
  (** whether [getContext("2d")] returns a context for the canvas *)
  context2d : CtxId -> bool
}.

(** ** Canvas contexts and the log of their calls *)

Inductive Call :=
| SetFont (v : jsstring)
| SetFillStyle (v : jsstring)
| SetStrokeStyle (v : jsstring)
| SetLineWidth (v : Q)
| SetTextBaseline (v : jsstring)
| SetFontKerning (v : jsstring)
| SetTextAlign (v : jsstring)
| SetGlobalCompositeOperation (v : jsstring)
| SetTransform (a b c d e f : Q)
| ClearRect (x y w h : Q)
| FillRect (x y w h : Q)
| FillText (t : jsstring) (x y : Q)
| StrokeText (t : jsstring) (x y : Q)
| MeasureText (t : jsstring)
| BeginPath
| MoveTo (x y : Q)
| LineTo (x y : Q)
| Stroke
| SetCanvasWidth (v : Q)      (* canvas.width = v *)
| SetCanvasHeight (v : Q)     (* canvas.height = v *)
| SetStyleWidth (px : Q)      (* canvas.style.width = `${px}px` *)
| SetStyleHeight (px : Q).    (* canvas.style.height = `${px}px` *)

Definition Log := list (CtxId * Call).

(** The only context property the code reads back (through
    [measureText]) is [font]. *)
Definition Fonts := CtxId -> jsstring.

Definition default_font : jsstring := lit "10px sans-serif".

Definition set_font_of (c : CtxId) (v : jsstring) (fs : Fonts) : Fonts :=
  fun c' => if CtxId_eqb c c' then v else fs c'.

(** ** Effectful code

    A computation reads and writes a store [S] and emits outputs [O] in
    order. Drawing code runs on the fonts of the contexts and emits calls;
    handlers run on the heap and emit state updates. *)

Definition Eff (S O A : Type) : Type := S -> A * S * list O.

Definition ret {S O A} (a : A) : Eff S O A := fun s => (a, s, []).

Definition bind {S O A B} (m : Eff S O A) (k : A -> Eff S O B) : Eff S O B :=
  fun s =>
    let '(a, s1, l1) := m s in
    let '(b, s2, l2) := k a s1 in
    (b, s2, l1 ++ l2).

Declare Scope eff_scope.
Delimit Scope eff_scope with eff.
Notation "x <- m ;; k" := (bind m (fun x => k))
  (at level 61, m at next level, right associativity) : eff_scope.
Notation "m ;; k" := (bind m (fun _ => k))
  (at level 61, right associativity) : eff_scope.
Open Scope eff_scope.

Definition emit {S O} (o : O) : Eff S O unit := fun s => (tt, s, [o]).

Definition when {S O} (b : bool) (m : Eff S O unit) : Eff S O unit :=
  if b then m else ret tt.

Definition value_of {S O A} (r : A * S * list O) : A := fst (fst r).
Definition store_of {S O A} (r : A * S * list O) : S := snd (fst r).
Definition log_of {S O A} (r : A * S * list O) : list O := snd r.

Definition Canvas (A : Type) : Type := Eff Fonts (CtxId * Call) A.

(** A call on context [c]. *)
Definition call (c : CtxId) (cl : Call) : Canvas unit := emit (c, cl).

Section Drawing.

Variable P : Platform.

(** [ctx.font = v] *)
Definition set_font (c : CtxId) (v : jsstring) : Canvas unit :=
  fun fs => (tt, set_font_of c v fs, [(c, SetFont v)]).

(** [ctx.measureText(t).width] *)
Definition measureText_width (c : CtxId) (t : jsstring) : Canvas Q :=
  fun fs => (text_width P (fs c) t, fs, [(c, MeasureText t)]).

(** [document.createElement("canvas").getContext("2d")] *)
Definition createElement_canvas_getContext : Canvas (option CtxId) :=
  fun fs =>
    if context2d P TmpCtx
    then (Some TmpCtx, set_font_of TmpCtx default_font fs, [])
    else (None, fs, []).

Definition humanDevicePixelRatio : Q :=
  let dpr := num_or (devicePixelRatio P) 1 in
  Math_min 2 (Math_max 1 dpr).

(** The css font of the template [`${fontSize}px "${fontName}"`]. *)
Definition font_css (fontSize : Z) (fontName : jsstring) : jsstring :=
  JsString.of_Z fontSize ++ lit "px " ++ quote ++ fontName ++ quote.

(** *** drawChecker *)

(** The number of passes of [for (let v = 0; v < bound; v += size)]. *)
Definition loop_passes (bound size : Q) : nat :=
  Z.to_nat (Qceiling (bound / size)).

Fixpoint drawChecker_row (fuel : nat) (ctx : CtxId) (x y w size : Q)
  : Canvas unit :=
  match fuel with
  | O => ret tt
  | S fuel' =>
      if Qlt_bool x w then
        let on := Qeq_bool (js_rem (x / size + y / size) 2) 0 in
        call ctx (SetFillStyle (if on then lit "#eee" else lit "#fff")) ;;
        call ctx (FillRect x y size size) ;;
        drawChecker_row fuel' ctx (x + size) y w size
      else ret tt
  end.

Fixpoint drawChecker_rows (fuel : nat) (ctx : CtxId) (y w h size : Q)
  : Canvas unit :=
  match fuel with
  | O => ret tt
  | S fuel' =>
      if Qlt_bool y h then
        drawChecker_row (loop_passes w size) ctx 0 y w size ;;
        drawChecker_rows fuel' ctx (y + size) w h size
      else ret tt
  end.

Definition drawChecker (ctx : CtxId) (w h size : Q) : Canvas unit :=
  drawChecker_rows (loop_passes h size) ctx 0 w h size.

(** *** drawString *)

Fixpoint drawString_chars (ctx : CtxId) (chs : list jsstring) (cx y : Q)
    (_letterSpacing : Z) (_stroke : bool) : Canvas unit :=
  match chs with
  | [] => ret tt
  | ch :: rest =>
      when _stroke (call ctx (StrokeText ch cx y)) ;;
      call ctx (FillText ch cx y) ;;
      m_width <- measureText_width ctx ch ;;
      drawString_chars ctx rest
        (cx + (num_or m_width 0 + inject_Z _letterSpacing)) y
        _letterSpacing _stroke
  end.

Definition drawString (fontSize : Z) (ctx : CtxId) (fontName content : jsstring)
    (x y : Q) (color : jsstring) (_letterSpacing : Z) (_stroke : bool)
    (_strokeWidth : Z) : Canvas unit :=
  call ctx (SetFillStyle color) ;;
  call ctx (SetStrokeStyle color) ;;
  call ctx (SetLineWidth (inject_Z _strokeWidth)) ;;
  set_font ctx (font_css fontSize fontName) ;;
  call ctx (SetTextBaseline (lit "alphabetic")) ;;
  call ctx (SetFontKerning (lit "normal")) ;;
  if Z.eqb _letterSpacing 0 then
    when _stroke (call ctx (StrokeText content x y)) ;;
    call ctx (FillText content x y)
  else
    drawString_chars ctx (chars content) x y _letterSpacing _stroke.

(** *** measureString *)

Fixpoint measureString_chars (ctx : CtxId) (chs : list jsstring) (w : Q)
    (_letterSpacing : Z) : Canvas Q :=
  match chs with
  | [] => ret w
  | ch :: rest =>
      ch_width <- measureText_width ctx ch ;;
      measureString_chars ctx rest (w + (ch_width + inject_Z _letterSpacing))
        _letterSpacing
  end.

Definition measureString (fontSize : Z) (ctx : CtxId)
    (fontName content : jsstring) (_letterSpacing : Z) : Canvas Q :=
  set_font ctx (font_css fontSize fontName) ;;
  m_width <- measureText_width ctx content ;;
  if Z.eqb _letterSpacing 0 then ret m_width
  else measureString_chars ctx (chars content) 0 _letterSpacing.

End Drawing.

(** ** The component's data *)

Inductive OverlayMode := RedCyan | Difference.
Inductive GridPreset := BasicLatin | Caps | Lower | Digits | Punct | Custom.
Inductive SlotLabel := LabelA | LabelB.

(** [oid] is the identity of the object: the number of its allocation.
    The other fields are never written after the object is built. *)
Record LoadedFont := {
  oid : nat;
  name : jsstring;
  displayName : jsstring;
  face : FontFace
}.

Record Msg := { msg_id : Q; msg : jsstring }.

(** The values held by [useState]. *)
Record State := {
  fontA : option LoadedFont;
  fontB : option LoadedFont;
  text : jsstring;
  fontSize : Z;
  letterSpacing : Z;
  dx : Q;
  dy : Q;
  overlayMode : OverlayMode;
  showChecker : bool;
  stroke : bool;
  strokeWidth : Z;
  gridOpen : bool;
  isDragging : bool;
  gridCharsPreset : GridPreset;
  customChars : jsstring;
  messages : list Msg
}.

Definition initial_state : State := {|
  fontA := None;
  fontB := None;
  text := lit "Hamburgefonstiv 0123456789 ABCD abcd";
  fontSize := 120;
  letterSpacing := 0;
  dx := 0;
  dy := 0;
  overlayMode := RedCyan;
  showChecker := true;
  stroke := false;
  strokeWidth := 1;
  gridOpen := false;
  isDragging := false;
  gridCharsPreset := BasicLatin;
  customChars := [];
  messages := []
|}.

(** What lives outside the React state: the [dragCounter] ref, the
    registry [document.fonts], and how far the clock, the random generator
    and the allocator have been used. *)
Record Heap := {
  dragCounter : Z;
  document_fonts : list FontFace;
  date_calls : nat;
  random_calls : nat;
  next_oid : nat
}.

Definition initial_heap : Heap := {|
  dragCounter := 0;
  document_fonts := [];
  date_calls := 0;
  random_calls := 0;
  next_oid := 0
|}.

(** The calls of the state setters. [PushMessage] is the call
    [setMessages(arr => ...)] made by [pushMessage]; [ToggleGridOpen] is
    [setGridOpen(v => !v)]. *)
Inductive Update :=
| SetFontA (v : option LoadedFont)
| SetFontB (v : option LoadedFont)
| SetText (v : jsstring)
| SetFontSize (v : Z)
| SetLetterSpacing (v : Z)
| SetDx (v : Q)
| SetDy (v : Q)
| SetOverlayMode (v : OverlayMode)
| SetShowChecker (v : bool)
| SetStroke (v : bool)
| SetStrokeWidth (v : Z)
| ToggleGridOpen
| SetIsDragging (v : bool)
| SetGridCharsPreset (v : GridPreset)
| SetCustomChars (v : jsstring)
| PushMessage (m : jsstring).

Definition Handler (A : Type) : Type := Eff Heap Update A.

Definition with_fontA (v : option LoadedFont) (s : State) : State :=
  {| fontA := v; fontB := fontB s; text := text s; fontSize := fontSize s;
     letterSpacing := letterSpacing s; dx := dx s; dy := dy s;
     overlayMode := overlayMode s; showChecker := showChecker s;
     stroke := stroke s; strokeWidth := strokeWidth s; gridOpen := gridOpen s;
     isDragging := isDragging s; gridCharsPreset := gridCharsPreset s;
     customChars := customChars s; messages := messages s |}.

Definition with_fontB (v : option LoadedFont) (s : State) : State :=
  {| fontA := fontA s; fontB := v; text := text s; fontSize := fontSize s;
     letterSpacing := letterSpacing s; dx := dx s; dy := dy s;
     overlayMode := overlayMode s; showChecker := showChecker s;
     stroke := stroke s; strokeWidth := strokeWidth s; gridOpen := gridOpen s;
     isDragging := isDragging s; gridCharsPreset := gridCharsPreset s;
     customChars := customChars s; messages := messages s |}.

Definition with_isDragging (v : bool) (s : State) : State :=
  {| fontA := fontA s; fontB := fontB s; text := text s; fontSize := fontSize s;
     letterSpacing := letterSpacing s; dx := dx s; dy := dy s;
     overlayMode := overlayMode s; showChecker := showChecker s;
     stroke := stroke s; strokeWidth := strokeWidth s; gridOpen := gridOpen s;
     isDragging := v; gridCharsPreset := gridCharsPreset s;
     customChars := customChars s; messages := messages s |}.

Definition with_messages (v : list Msg) (s : State) : State :=
  {| fontA := fontA s; fontB := fontB s; text := text s; fontSize := fontSize s;
     letterSpacing := letterSpacing s; dx := dx s; dy := dy s;
     overlayMode := overlayMode s; showChecker := showChecker s;
     stroke := stroke s; strokeWidth := strokeWidth s; gridOpen := gridOpen s;
     isDragging := isDragging s; gridCharsPreset := gridCharsPreset s;
     customChars := customChars s; messages := v |}.

(** The setters of the rendering parameters. *)
Definition with_parameter (u : Update) (s : State) : State :=
  {| fontA := fontA s; fontB := fontB s;
     text := match u with SetText v => v | _ => text s end;
     fontSize := match u with SetFontSize v => v | _ => fontSize s end;
     letterSpacing :=
       match u with SetLetterSpacing v => v | _ => letterSpacing s end;
     dx := match u with SetDx v => v | _ => dx s end;
     dy := match u with SetDy v => v | _ => dy s end;
     overlayMode := match u with SetOverlayMode v => v | _ => overlayMode s end;
     showChecker := match u with SetShowChecker v => v | _ => showChecker s end;
     stroke := match u with SetStroke v => v | _ => stroke s end;
     strokeWidth := match u with SetStrokeWidth v => v | _ => strokeWidth s end;
     gridOpen := match u with ToggleGridOpen => negb (gridOpen s) | _ => gridOpen s end;
     isDragging := isDragging s;
     gridCharsPreset :=
       match u with SetGridCharsPreset v => v | _ => gridCharsPreset s end;
     customChars := match u with SetCustomChars v => v | _ => customChars s end;
     messages := messages s |}.

(** ** pushMessage *)

(** The updater [arr => [{ id, msg }, ...arr].slice(0, 5)]. *)
Definition pushMessage_updater (id : Q) (m : jsstring) (arr : list Msg)
  : list Msg :=
  firstn 5 ({| msg_id := id; msg := m |} :: arr).

Definition pushMessage (m : jsstring) : Handler unit := emit (PushMessage m).

Section Component.

Variable P : Platform.

(** ** Applying the queued updates *)

(** [Date.now() + Math.random()], evaluated when the updater runs. *)
Definition fresh_msg_id (h : Heap) : Q * Heap :=
  (inject_Z (now P (date_calls h)) + random P (random_calls h),
   {| dragCounter := dragCounter h; document_fonts := document_fonts h;
      date_calls := S (date_calls h); random_calls := S (random_calls h);
      next_oid := next_oid h |}).

Definition apply_update (u : Update) (sh : State * Heap) : State * Heap :=
  let (s, h) := sh in
  match u with
  | SetFontA v => (with_fontA v s, h)
  | SetFontB v => (with_fontB v s, h)
  | SetIsDragging v => (with_isDragging v s, h)
  | PushMessage m =>
      let (id, h') := fresh_msg_id h in
      (with_messages (pushMessage_updater id m (messages s)) s, h')
  | _ => (with_parameter u s, h)
  end.

Definition apply_updates (us : list Update) (sh : State * Heap)
  : State * Heap :=
  fold_left (fun acc u => apply_update u acc) us sh.

(** ** loadFontFromFile *)

Definition label_text (label : SlotLabel) : jsstring :=
  match label with LabelA => lit "A" | LabelB => lit "B" end.

(** [`${label}_${file.name.replace(/\W+/g, "_")}_${Date.now()}`] *)
Definition uniqueName_of (label : SlotLabel) (file_name : jsstring) (t : Z)
  : jsstring :=
  label_text label ++ lit "_" ++ replace_nonword_runs false file_name
    ++ lit "_" ++ JsString.of_Z t.

Definition Date_now : Handler Z :=
  fun h =>
    (now P (date_calls h),
     {| dragCounter := dragCounter h; document_fonts := document_fonts h;
        date_calls := S (date_calls h); random_calls := random_calls h;
        next_oid := next_oid h |}, []).

Definition document_fonts_add (f : FontFace) : Handler unit :=
  fun h =>
    (tt,
     {| dragCounter := dragCounter h; document_fonts := document_fonts h ++ [f];
        date_calls := date_calls h; random_calls := random_calls h;
        next_oid := next_oid h |}, []).

(** The allocation of an object literal. *)
Definition new_object : Handler nat :=
  fun h =>
    (next_oid h,
     {| dragCounter := dragCounter h; document_fonts := document_fonts h;
        date_calls := date_calls h; random_calls := random_calls h;
        next_oid := S (next_oid h) |}, []).

Definition load_failure_message (file : File) (errMsg : jsstring) : jsstring :=
  lit "Не удалось загрузить шрифт " ++ file_name file ++ lit ": " ++ errMsg.

Definition loadFontFromFile (file : File) (label : SlotLabel)
  : Handler (option LoadedFont) :=
  match arrayBuffer P file with
  | Throw errMsg =>
      pushMessage (load_failure_message file errMsg) ;;
      ret None
  | Ok ab =>
      t <- Date_now ;;
      let uniqueName := uniqueName_of label (file_name file) t in
      let face := {| family := uniqueName; source := ab |} in
      match face_load P face with
      | Throw errMsg =>
          pushMessage (load_failure_message file errMsg) ;;
          ret None
      | Ok tt =>
          let loaded := face in
          document_fonts_add loaded ;;
          o <- new_object ;;
          ret (Some {| oid := o; name := uniqueName;
                       displayName := file_name file; face := loaded |})
      end
  end.

(** ** Drag and drop *)

Definition set_dragCounter (v : Z) : Handler unit :=
  fun h =>
    (tt,
     {| dragCounter := v; document_fonts := document_fonts h;
        date_calls := date_calls h; random_calls := random_calls h;
        next_oid := next_oid h |}, []).

Definition get_dragCounter : Handler Z :=
  fun h => (dragCounter h, h, []).

(** [/\.(ttf|otf|woff2?|TTF|OTF|WOFF2?)$/.test(name)] *)
Definition is_font_file_name (n : jsstring) : bool :=
  ends_with n (lit ".ttf") || ends_with n (lit ".otf")
  || ends_with n (lit ".woff") || ends_with n (lit ".woff2")
  || ends_with n (lit ".TTF") || ends_with n (lit ".OTF")
  || ends_with n (lit ".WOFF") || ends_with n (lit ".WOFF2").

Definition msg_not_fonts : jsstring :=
  lit "Файлы не распознаны как шрифты (.ttf/.otf/.woff/.woff2)".
Definition msg_slots_taken : jsstring :=
  lit "Оба слота заняты. Сначала очистите один из шрифтов.".

(** [s] is the state captured by the closure of the handler. *)
Definition onDrop (s : State) (files : list File) : Handler unit :=
  set_dragCounter 0 ;;
  emit (SetIsDragging false) ;;
  let fontFiles := filter (fun f => is_font_file_name (file_name f)) files in
  match fontFiles with
  | [] => pushMessage msg_not_fonts
  | file0 :: _ =>
      match fontA s with
      | None =>
          a <- loadFontFromFile file0 LabelA ;;
          match a with Some _ => emit (SetFontA a) | None => ret tt end ;;
          match nth_error fontFiles 1 with
          | Some file1 =>
              b <- loadFontFromFile file1 LabelB ;;
              match b with Some _ => emit (SetFontB b) | None => ret tt end
          | None => ret tt
          end
      | Some _ =>
          match fontB s with
          | None =>
              b <- loadFontFromFile file0 LabelB ;;
              match b with Some _ => emit (SetFontB b) | None => ret tt end
          | Some _ => pushMessage msg_slots_taken
          end
      end
  end.

Definition onDragEnter : Handler unit :=
  n <- get_dragCounter ;;
  set_dragCounter (n + 1) ;;
  emit (SetIsDragging true).

Definition onDragLeave : Handler unit :=
  n <- get_dragCounter ;;
  set_dragCounter (n - 1) ;;
  n' <- get_dragCounter ;;
  if (n' <=? 0)%Z then emit (SetIsDragging false) else ret tt.

Definition handleFilePick (files : list File) (which : SlotLabel)
  : Handler unit :=
  match files with
  | [] => ret tt
  | file :: _ =>
      loaded <- loadFontFromFile file which ;;
      match loaded with
      | None => ret tt
      | Some _ =>
          match which with
          | LabelA => emit (SetFontA loaded)
          | LabelB => emit (SetFontB loaded)
          end
      end
  end.

Definition reset (which : SlotLabel) : Handler unit :=
  match which with
  | LabelA => emit (SetFontA None)
  | LabelB => emit (SetFontB None)
  end.

(** ** drawCanvas *)

Definition pad : Q := 32.

Definition placeholder_text : jsstring :=
  lit "Загрузите два шрифта, чтобы начать сравнение.".

(** [canvas.width = v] also resets the context, and with it its font. *)
Definition set_canvas_width (c : CtxId) (v : Q) : Canvas unit :=
  fun fs => (tt, set_font_of c default_font fs, [(c, SetCanvasWidth v)]).
Definition set_canvas_height (c : CtxId) (v : Q) : Canvas unit :=
  fun fs => (tt, set_font_of c default_font fs, [(c, SetCanvasHeight v)]).

(** The sizing block that [drawCanvas] and [GlyphCell] repeat. *)
Definition size_canvas (ctx : CtxId) (w h dpr : Q) : Canvas unit :=
  set_canvas_width ctx (Math_floor (w * dpr)) ;;
  set_canvas_height ctx (Math_floor (h * dpr)) ;;
  call ctx (SetStyleWidth w) ;;
  call ctx (SetStyleHeight h) ;;
  call ctx (SetTransform dpr 0 0 dpr 0 0).

(** The two layers, in the mode chosen. *)
Definition draw_overlay (s : State) (ctx : CtxId) (a b : LoadedFont)
    (content : jsstring) (x y : Q) : Canvas unit :=
  let draw := drawString P (fontSize s) ctx in
  match overlayMode s with
  | Difference =>
      draw (name a) content x y (lit "#ffffff")
        (letterSpacing s) (stroke s) (strokeWidth s) ;;
      call ctx (SetGlobalCompositeOperation (lit "difference")) ;;
      draw (name b) content (x + dx s) (y + dy s) (lit "#ffffff")
        (letterSpacing s) (stroke s) (strokeWidth s) ;;
      call ctx (SetGlobalCompositeOperation (lit "source-over"))
  | RedCyan =>
      draw (name a) content x y (lit "rgba(255,0,0,0.85)")
        (letterSpacing s) (stroke s) (strokeWidth s) ;;
      draw (name b) content (x + dx s) (y + dy s) (lit "rgba(0,255,255,0.85)")
        (letterSpacing s) (stroke s) (strokeWidth s)
  end.

(** The width and the height computed once both widths are measured. *)
Definition surface_width (wA wB : Q) : Q :=
  Math_max 320 (Math_ceil (Math_max wA wB + pad * 2)).
Definition surface_height (fontSize : Z) : Q :=
  Math_max 120 (Math_ceil (inject_Z fontSize * (9 # 5) + pad * 2)).

Definition drawCanvas (s : State) : Canvas unit :=
  if negb (context2d P MainCtx) then ret tt else
  let ctx := MainCtx in
  let dpr := humanDevicePixelRatio P in
  let w := 800 in
  let h := Math_max 200 (inject_Z (fontSize s) * (9 # 5) + pad * 2) in
  size_canvas ctx w h dpr ;;
  call ctx (ClearRect 0 0 w h) ;;
  when (showChecker s) (drawChecker ctx w h 16) ;;
  match fontA s, fontB s with
  | Some a, Some b =>
      tmp <- createElement_canvas_getContext P ;;
      match tmp with
      | None => ret tt
      | Some tmp =>
          wA <- measureString P (fontSize s) tmp (name a) (text s)
                  (letterSpacing s) ;;
          wB <- measureString P (fontSize s) tmp (name b) (text s)
                  (letterSpacing s) ;;
          let w := surface_width wA wB in
          let h := surface_height (fontSize s) in
          size_canvas ctx w h dpr ;;
          (if showChecker s then drawChecker ctx w h 16
           else call ctx (ClearRect 0 0 w h)) ;;
          let x := pad in
          let y := h - pad - Math_round ((h - inject_Z (fontSize s)) / 4) in
          draw_overlay s ctx a b (text s) x y ;;
          call ctx (SetStrokeStyle (lit "rgba(0,0,0,0.15)")) ;;
          call ctx (SetLineWidth 1) ;;
          call ctx BeginPath ;;
          call ctx (MoveTo 8 (y + (1 # 2))) ;;
          call ctx (LineTo (w - 8) (y + (1 # 2))) ;;
          call ctx Stroke ;;
          set_font ctx (lit "14px system-ui, sans-serif") ;;
          call ctx (SetFillStyle (lit "#111")) ;;
          call ctx (FillText (lit "A: " ++ displayName a) 12 (h - 8)) ;;
          call ctx (FillText (lit "B: " ++ displayName b) (w / 2) (h - 8))
      end
  | _, _ =>
      call ctx (SetFillStyle (lit "#999")) ;;
      set_font ctx (lit "16px system-ui, sans-serif") ;;
      call ctx (FillText placeholder_text 24 40)
  end.

(** ** GlyphCell: the effect of the i-th cell, showing [ch] *)

Definition GlyphCell_effect (s : State) (i : nat) (ch : jsstring)
  : Canvas unit :=
  match fontA s, fontB s with
  | Some a, Some b =>
      if negb (context2d P (CellCtx i)) then ret tt else
      let ctx := CellCtx i in
      let w := 120 in
      let h := 120 in
      let dpr := humanDevicePixelRatio P in
      size_canvas ctx w h dpr ;;
      (if showChecker s then drawChecker ctx w h 12
       else call ctx (ClearRect 0 0 w h)) ;;
      let x := Math_floor (w / 2) in
      let y := Math_floor (h * (65 # 100)) in
      call ctx (SetTextAlign (lit "center")) ;;
      draw_overlay s ctx a b ch x y ;;
      call ctx (SetStrokeStyle (lit "rgba(0,0,0,0.15)")) ;;
      call ctx BeginPath ;;
      call ctx (MoveTo 8 (y + (1 # 2))) ;;
      call ctx (LineTo (w - 8) (y + (1 # 2))) ;;
      call ctx Stroke
  | _, _ => ret tt
  end.

(** ** The memoised values *)

Definition gridChars_factory (preset : GridPreset) (customChars : jsstring)
  : jsstring :=
  match preset with
  | Caps => lit "ABCDEFGHIJKLMNOPQRSTUVWXYZ"
  | Lower => lit "abcdefghijklmnopqrstuvwxyz"
  | Digits => lit "0123456789"
  | Punct => lit ".,;:!?()[]{}-—_"
  | Custom => customChars
  | BasicLatin =>
      lit "ABCDEFGHIJKLMNOPQRSTUVWXYZabcdefghijklmnopqrstuvwxyz0123456789"
  end.

Record Metrics := { wA : Q; wB : Q; diff : Q }.

Definition metrics_factory (s : State) : Canvas (option Metrics) :=
  match fontA s, fontB s with
  | Some a, Some b =>
      c <- createElement_canvas_getContext P ;;
      match c with
      | None => ret None
      | Some c =>
          wA <- measureString P (fontSize s) c (name a) (text s)
                  (letterSpacing s) ;;
          wB <- measureString P (fontSize s) c (name b) (text s)
                  (letterSpacing s) ;;
          ret (Some {| wA := wA; wB := wB; diff := wB - wA |})
      end
  | _, _ => ret None
  end.

(** ** Rendering *)

(** [Object.is] on the values found in dependency lists. Two font objects
    are the same object when they carry the same [oid]; as the fields of a
    font object are fixed at its allocation, the whole records are
    compared. *)
Fixpoint bytes_eqb (a b : list N) : bool :=
  match a, b with
  | [], [] => true
  | x :: a', y :: b' => N.eqb x y && bytes_eqb a' b'
  | _, _ => false
  end.

Definition FontFace_eqb (f g : FontFace) : bool :=
  JsString.eqb (family f) (family g) && bytes_eqb (source f) (source g).

Definition LoadedFont_is (f g : LoadedFont) : bool :=
  Nat.eqb (oid f) (oid g) && JsString.eqb (name f) (name g)
  && JsString.eqb (displayName f) (displayName g)
  && FontFace_eqb (face f) (face g).

Definition slot_is (f g : option LoadedFont) : bool :=
  match f, g with
  | None, None => true
  | Some f, Some g => LoadedFont_is f g
  | _, _ => false
  end.

Definition OverlayMode_eqb (a b : OverlayMode) : bool :=
  match a, b with
  | RedCyan, RedCyan | Difference, Difference => true
  | _, _ => false
  end.

Definition GridPreset_eqb (a b : GridPreset) : bool :=
  match a, b with
  | BasicLatin, BasicLatin | Caps, Caps | Lower, Lower
  | Digits, Digits | Punct, Punct | Custom, Custom => true
  | _, _ => false
  end.

(** [[fontA, fontB, text, letterSpacing, fontSize]] *)
Definition metrics_deps_same (s t : State) : bool :=
  slot_is (fontA s) (fontA t) && slot_is (fontB s) (fontB t)
  && JsString.eqb (text s) (text t)
  && Z.eqb (letterSpacing s) (letterSpacing t)
  && Z.eqb (fontSize s) (fontSize t).

(** [[fontA, fontB, text, fontSize, letterSpacing, dx, dy, overlayMode,
    showChecker, stroke, strokeWidth]] *)
Definition drawCanvas_deps_same (s t : State) : bool :=
  slot_is (fontA s) (fontA t) && slot_is (fontB s) (fontB t)
  && JsString.eqb (text s) (text t)
  && Z.eqb (fontSize s) (fontSize t)
  && Z.eqb (letterSpacing s) (letterSpacing t)
  && Qeq_bool (dx s) (dx t) && Qeq_bool (dy s) (dy t)
  && OverlayMode_eqb (overlayMode s) (overlayMode t)
  && Bool.eqb (showChecker s) (showChecker t)
  && Bool.eqb (stroke s) (stroke t)
  && Z.eqb (strokeWidth s) (strokeWidth t).

(** [[gridCharsPreset, customChars]] *)
Definition gridChars_deps_same (s t : State) : bool :=
  GridPreset_eqb (gridCharsPreset s) (gridCharsPreset t)
  && JsString.eqb (customChars s) (customChars t).

(** [useMemo(factory, deps)]: the cell keeps the state whose dependencies
    the value was computed from, and the value. *)
Definition useMemo {V} (same : State -> State -> bool)
    (factory : State -> Canvas V) (s : State) (cell : option (State * V))
  : Canvas (V * option (State * V)) :=
  match cell with
  | Some (s0, v) =>
      if same s0 s then ret (v, cell)
      else v' <- factory s ;; ret (v', Some (s, v'))
  | None => v' <- factory s ;; ret (v', Some (s, v'))
  end.

(** What the returned JSX shows of the grid. *)
Inductive GridView :=
| GridClosed
| GridNeedsFonts
| GridCells (cells : list jsstring).

Record View := {
  drop_zone_highlighted : bool;
  metrics_panel : option Metrics;
  grid_view : GridView;
  toasts : list Msg
}.

Definition render_view (s : State) (gridChars : jsstring)
    (metrics : option Metrics) : View :=
  {| drop_zone_highlighted := isDragging s;
     metrics_panel := metrics;
     grid_view :=
       if gridOpen s then
         match fontA s, fontB s with
         | Some _, Some _ => GridCells (chars gridChars)
         | _, _ => GridNeedsFonts
         end
       else GridClosed;
     toasts := messages s |}.

Definition grid_cells (v : View) : list jsstring :=
  match grid_view v with GridCells cs => cs | _ => [] end.

(** The effects of all the cells, in order. [GlyphCell] is declared in the
    body of the component, so every render mounts the cells anew and runs
    their effects. *)
Fixpoint GlyphCell_effects (s : State) (i : nat) (cells : list jsstring)
  : Canvas unit :=
  match cells with
  | [] => ret tt
  | ch :: rest => GlyphCell_effect s i ch ;; GlyphCell_effects s (S i) rest
  end.

Record Component := {
  state : State;
  heap : Heap;
  ctx_fonts : Fonts;
  gridChars_memo : option (State * jsstring);
  metrics_memo : option (State * option Metrics);
  (** the state whose dependencies the effect [drawCanvas] last ran for *)
  drawCanvas_ran : option State;
  (** the calls of the last run of [drawCanvas] *)
  surface : Log;
  (** the calls made while rendering, by the factories *)
  render_calls : Log;
  (** the calls of the cell effects of the last render *)
  cell_calls : Log;
  view : View
}.

(** One render of the component on state [s], heap [h]. *)
Definition render (c : Component) (s : State) (h : Heap) : Component :=
  let '(gc, fs1, _) :=
    useMemo gridChars_deps_same
      (fun s => ret (gridChars_factory (gridCharsPreset s) (customChars s)))
      s (gridChars_memo c) (ctx_fonts c) in
  let '(mt, fs2, rlog) :=
    useMemo metrics_deps_same metrics_factory s (metrics_memo c) fs1 in
  let v := render_view s (fst gc) (fst mt) in
  let rerun :=
    match drawCanvas_ran c with
    | Some s0 => negb (drawCanvas_deps_same s0 s)
    | None => true
    end in
  let '(_, fs3, dlog) := (if rerun then drawCanvas s else ret tt) fs2 in
  let '(_, fs4, clog) := GlyphCell_effects s 0 (grid_cells v) fs3 in
  {| state := s; heap := h; ctx_fonts := fs4;
     gridChars_memo := snd gc;
     metrics_memo := snd mt;
     drawCanvas_ran := if rerun then Some s else drawCanvas_ran c;
     surface := if rerun then dlog else surface c;
     render_calls := rlog;
     cell_calls := clog;
     view := v |}.

Definition unmounted : Component :=
  {| state := initial_state; heap := initial_heap;
     ctx_fonts := fun _ => default_font;
     gridChars_memo := None; metrics_memo := None; drawCanvas_ran := None;
     surface := []; render_calls := []; cell_calls := [];
     view := render_view initial_state [] None |}.

(** The component after its first render. *)
Definition mounted : Component := render unmounted initial_state initial_heap.

(** ** Events *)

Inductive Event :=
| Drop (files : list File)
| DragEnter
| DragLeave
| FilePick (files : list File) (which : SlotLabel)
| Reset (which : SlotLabel)
| Control (u : Update).   (* a slider, a check box, a toggle, the text area *)

(** The handler bound to the event, closed over state [s]. *)
Definition handler_of (s : State) (e : Event) : Handler unit :=
  match e with
  | Drop files => onDrop s files
  | DragEnter => onDragEnter
  | DragLeave => onDragLeave
  | FilePick files which => handleFilePick files which
  | Reset which => reset which
  | Control u => emit u
  end.

(** React applies each queued update and renders. *)
Fixpoint commit (us : list Update) (c : Component) : Component :=
  match us with
  | [] => c
  | u :: rest =>
      let (s', h') := apply_update u (state c, heap c) in
      commit rest (render c s' h')
  end.

Definition with_heap (h : Heap) (c : Component) : Component :=
  {| state := state c; heap := h; ctx_fonts := ctx_fonts c;
     gridChars_memo := gridChars_memo c; metrics_memo := metrics_memo c;
     drawCanvas_ran := drawCanvas_ran c; surface := surface c;
     render_calls := render_calls c; cell_calls := cell_calls c;
     view := view c |}.

Definition step (c : Component) (e : Event) : Component :=
  let '(_, h, us) := handler_of (state c) e (heap c) in
  commit us (with_heap h c).

Definition run (es : list Event) (c : Component) : Component :=
  fold_left step es c.

(** The effect of one event on the state and the heap alone. *)
Definition handle (e : Event) (sh : State * Heap) : State * Heap :=
  let '(_, h, us) := handler_of (fst sh) e (snd sh) in
  apply_updates us (fst sh, h).

End Component.

(** ** Sample platforms and files *)

Module Samples.

Fixpoint starts_with (s prefix : jsstring) : bool :=
  match prefix, s with
  | [], _ => true
  | p :: prefix', c :: s' => N.eqb p c && starts_with s' prefix'
  | _ :: _, [] => false
  end.

Fixpoint has_infix (s infix : jsstring) : bool :=
  starts_with s infix
  || match s with [] => false | _ :: s' => has_infix s' infix end.

(** The width of a code unit: 12 pixels in a font whose name mentions
    Bold, 10 pixels in the others. *)
Definition unit_width (font : jsstring) : Q :=
  if has_infix font (lit "Bold") then 12 else 10.

(** A font file decodes unless it is empty; the clock advances by one
    millisecond per reading. *)
Definition browser : Platform := {|
  now := fun n => (1700000000000 + Z.of_nat n)%Z;
  random := fun _ => 1 # 2;
  arrayBuffer := fun f => Ok (file_bytes f);
  face_load := fun f =>
    match source f with [] => Throw (lit "Invalid font data") | _ => Ok tt end;
  text_width := fun font t =>
    unit_width font * inject_Z (Z.of_nat (List.length t));
  devicePixelRatio := 1;
  context2d := fun _ => true
|}.

(** The same browser with code units 10.5 pixels wide in every font. *)
Definition browser_half_pixel : Platform := {|
  now := now browser;
  random := random browser;
  arrayBuffer := arrayBuffer browser;
  face_load := face_load browser;
  text_width := fun _ t => (21 # 2) * inject_Z (Z.of_nat (List.length t));
  devicePixelRatio := 1;
  context2d := fun _ => true
|}.

(** The same browser, all of whose clock readings fall in one millisecond. *)
Definition browser_same_ms : Platform := {|
  now := fun _ => 1700000000000%Z;
  random := random browser;
  arrayBuffer := arrayBuffer browser;
  face_load := face_load browser;
  text_width := text_width browser;
  devicePixelRatio := 1;
  context2d := fun _ => true
|}.

Definition regular_ttf : File :=
  {| file_name := lit "Regular.ttf"; file_bytes := [0; 1; 0; 0]%N |}.
Definition bold_woff2 : File :=
  {| file_name := lit "Bold.woff2"; file_bytes := [119; 79; 70; 50]%N |}.
Definition broken_ttf : File :=
  {| file_name := lit "Broken.ttf"; file_bytes := [] |}.
Definition notes_txt : File :=
  {| file_name := lit "notes.txt"; file_bytes := [104; 105]%N |}.

(** The fonts [browser] makes of the first two files when they are dropped
    together on the empty component. *)
Definition regular_font : LoadedFont :=
  {| oid := 0; name := lit "A_Regular_ttf_1700000000000";
     displayName := lit "Regular.ttf";
     face := {| family := lit "A_Regular_ttf_1700000000000";
                source := [0; 1; 0; 0]%N |} |}.
Definition bold_font : LoadedFont :=
  {| oid := 1; name := lit "B_Bold_woff2_1700000000001";
     displayName := lit "Bold.woff2";
     face := {| family := lit "B_Bold_woff2_1700000000001";
                source := [119; 79; 70; 50]%N |} |}.

End Samples.

(** ** Definitions used to state the properties *)

(** The sum of a list of numbers. *)
Definition Qsum (l : list Q) : Q := fold_right Qplus 0 l.

(** The width [measureString] returns for font [fontName] at the state's
    text, font size and letter spacing. *)
Definition measured_width (P : Platform) (s : State) (fontName : jsstring)
  : Q :=
  value_of (measureString P (fontSize s) TmpCtx fontName (text s)
              (letterSpacing s) (fun _ => default_font)).

(** The metrics the component shows in state [s]: none unless both slots
    hold a font and a measuring context is available. *)
Definition metrics_value (P : Platform) (s : State) : option Metrics :=
  match fontA s, fontB s with
  | Some a, Some b =>
      if context2d P TmpCtx then
        let wA := measured_width P s (name a) in
        let wB := measured_width P s (name b) in
        Some {| wA := wA; wB := wB; diff := wB - wA |}
      else None
  | _, _ => None
  end.

(** The calls that size a canvas or paint its background. *)
Definition is_background (c : Call) : bool :=
  match c with
  | SetCanvasWidth _ | SetCanvasHeight _ | SetStyleWidth _ | SetStyleHeight _
  | SetTransform _ _ _ _ _ _ | ClearRect _ _ _ _ | FillRect _ _ _ _
  | SetFillStyle _ => true
  | _ => false
  end.

Definition background_on (ctx : CtxId) (l : Log) : Prop :=
  Forall (fun e => fst e = ctx /\ is_background (snd e) = true) l.

(** The three calls that write the placeholder. *)
Definition placeholder_calls : Log :=
  [ (MainCtx, SetFillStyle (lit "#999"));
    (MainCtx, SetFont (lit "16px system-ui, sans-serif"));
    (MainCtx, FillText placeholder_text 24 40) ].

(** The memo cell of the metrics and the record of the last run of
    [drawCanvas] hold what the code computed for the state they name. *)
Definition cells_hold (P : Platform) (c : Component) : Prop :=
  (forall s0 v, metrics_memo c = Some (s0, v) -> v = metrics_value P s0)
  /\ (forall s0, drawCanvas_ran c = Some s0 ->
        exists fs, surface c = log_of (drawCanvas P s0 fs)).

(** What holds of the component after a render: the view is the one of
    its state, the memoised metrics and the surface were computed for a
    state with the same dependencies, and with a slot empty neither the
    factories nor the cells called the platform. *)
Definition settled (P : Platform) (c : Component) : Prop :=
  (exists gridChars,
     view c = render_view (state c) gridChars (metrics_value P (state c)))
  /\ (exists s0,
        metrics_memo c = Some (s0, metrics_value P s0)
        /\ metrics_deps_same s0 (state c) = true)
  /\ (exists s0 fs,
        drawCanvas_ran c = Some s0
        /\ drawCanvas_deps_same s0 (state c) = true
        /\ surface c = log_of (drawCanvas P s0 fs))
  /\ (fontA (state c) = None \/ fontB (state c) = None ->
      render_calls c = [] /\ cell_calls c = []).

(** The logical width of the canvas of context [ctx] after the calls [l]:
    the last value given to [canvas.style.width]. *)
Fixpoint style_width_after (ctx : CtxId) (l : Log) (w : option Q)
  : option Q :=
  match l with
  | [] => w
  | (c, SetStyleWidth v) :: rest =>
      style_width_after ctx rest (if CtxId_eqb c ctx then Some v else w)
  | _ :: rest => style_width_after ctx rest w
  end.

Definition logical_width (l : Log) : option Q :=
  style_width_after MainCtx l None.

Definition sets_style_width (c : Call) : bool :=
  match c with SetStyleWidth _ => true | _ => false end.

(** Drag events over the drop zone. *)
Inductive Drag := Enter | Leave.

Definition drag_event (d : Drag) : Event :=
  match d with Enter => DragEnter | Leave => DragLeave end.

(** The number of enters minus the number of leaves. *)
Fixpoint balance (ds : list Drag) : Z :=
  match ds with
  | [] => 0
  | Enter :: rest => 1 + balance rest
  | Leave :: rest => -1 + balance rest
  end.

(** The files of a drop that [onDrop] keeps. *)
Definition recognized (files : list File) : list File :=
  filter (fun f => is_font_file_name (file_name f)) files.

(** The heap a drop handler works on: the drag counter is reset first. *)
Definition heap_at_drop (h : Heap) : Heap := store_of (set_dragCounter 0 h).

(** The updates [onDrop] queues for a slot once the load returned. *)
Definition fill (set : option LoadedFont -> Update) (r : option LoadedFont)
  : list Update :=
  match r with Some _ => [set r] | None => [] end.

(** The state and the heap after a sequence of drag events. *)
Definition drags (P : Platform) (ds : list Drag) (sh : State * Heap)
  : State * Heap :=
  fold_left (fun sh e => handle P e sh) (map drag_event ds) sh.

(** Logs that leave the logical width of every canvas as it is. *)
Definition keeps_width (l : Log) : Prop :=
  Forall (fun e => sets_style_width (snd e) = false) l.

(** The decimal digits and the minus sign, as code units. *)
Definition decimal_unit (c : N) : Prop := (c = 45 \/ 48 <= c <= 57)%N.

(** ** Definitions used to state further properties *)

(** The endings [onDrop] accepts. *)
Definition font_extensions : list jsstring :=
  map lit [".ttf"; ".otf"; ".woff"; ".woff2";
           ".TTF"; ".OTF"; ".WOFF"; ".WOFF2"]%string.

(** The texts of the log, newest first. *)
Definition texts (log : list Msg) : list jsstring := map msg log.

(** The content of the slot a label names. *)
Definition slot (which : SlotLabel) (s : State) : option LoadedFont :=
  match which with LabelA => fontA s | LabelB => fontB s end.

(** The updates that leave the highlight of the drop zone alone. *)
Definition keeps_highlight (u : Update) : Prop :=
  match u with SetIsDragging _ => False | _ => True end.

(** A font object is backed by the registry: its face is in
    [document.fonts] under the name of the font, and the object was
    allocated before now. *)
Definition backed (h : Heap) (f : LoadedFont) : Prop :=
  In (face f) (document_fonts h)
  /\ family (face f) = name f
  /\ (oid f < next_oid h)%nat.

(** The fonts of the slots are backed by the registry and are two
    different objects; the registry holds one face per font ever built. *)
Definition registered (s : State) (h : Heap) : Prop :=
  (forall f, fontA s = Some f \/ fontB s = Some f -> backed h f)
  /\ (forall a b, fontA s = Some a -> fontB s = Some b -> oid a <> oid b)
  /\ List.length (document_fonts h) = next_oid h.

(** The events a user can cause: the setters of the slots are called by
    the handlers only. *)
Definition user_event (e : Event) : Prop :=
  match e with
  | Control (SetFontA _) | Control (SetFontB _) => False
  | _ => True
  end.

(** [h'] has the registry of [h], possibly with more faces at its end. *)
Definition grown (h h' : Heap) : Prop :=
  (exists added, document_fonts h' = document_fonts h ++ added)
  /\ (next_oid h <= next_oid h')%nat.

(** The value a log leaves in a settable property of context [ctx]:
    [pick] tells which calls set the property and to what. *)
Fixpoint last_set {V : Type} (pick : Call -> option V) (ctx : CtxId)
    (l : Log) (acc : option V) : option V :=
  match l with
  | [] => acc
  | (c, cl) :: rest =>
      last_set pick ctx rest
        (match pick cl with
         | Some v => if CtxId_eqb c ctx then Some v else acc
         | None => acc
         end)
  end.

Definition pick_style_width (c : Call) : option Q :=
  match c with SetStyleWidth v => Some v | _ => None end.
Definition pick_style_height (c : Call) : option Q :=
  match c with SetStyleHeight v => Some v | _ => None end.
Definition pick_composite (c : Call) : option jsstring :=
  match c with SetGlobalCompositeOperation v => Some v | _ => None end.

(** The calls [drawChecker] makes. *)
Definition is_checker_call (c : Call) : bool :=
  match c with SetFillStyle _ | FillRect _ _ _ _ => true | _ => false end.

(** The calls [measureString] makes. *)
Definition is_measure_call (c : Call) : bool :=
  match c with SetFont _ | MeasureText _ => true | _ => false end.

(** The calls [drawString] makes. *)
Definition is_text_call (c : Call) : bool :=
  match c with
  | SetFillStyle _ | SetStrokeStyle _ | SetLineWidth _ | SetFont _
  | SetTextBaseline _ | SetFontKerning _ | StrokeText _ _ _ | FillText _ _ _
  | MeasureText _ => true
  | _ => false
  end.

(** The calls that size a canvas. *)
Definition is_sizing_call (c : Call) : bool :=
  match c with
  | SetCanvasWidth _ | SetCanvasHeight _ | SetStyleWidth _ | SetStyleHeight _
  | SetTransform _ _ _ _ _ _ => true
  | _ => false
  end.

(** Every call of the log is made on [ctx] and is of the class [cls]. *)
Definition only_on (ctx : CtxId) (cls : Call -> bool) (l : Log) : Prop :=
  Forall (fun e => fst e = ctx /\ cls (snd e) = true) l.

(** The calls [drawCanvas] ends with: the base line and the two labels. *)
Definition baseline_and_labels (w h y : Q) (a b : LoadedFont) : Log :=
  [ (MainCtx, SetStrokeStyle (lit "rgba(0,0,0,0.15)"));
    (MainCtx, SetLineWidth 1);
    (MainCtx, BeginPath);
    (MainCtx, MoveTo 8 (y + (1 # 2)));
    (MainCtx, LineTo (w - 8) (y + (1 # 2)));
    (MainCtx, Stroke);
    (MainCtx, SetFont (lit "14px system-ui, sans-serif"));
    (MainCtx, SetFillStyle (lit "#111"));
    (MainCtx, FillText (lit "A: " ++ displayName a) 12 (h - 8));
    (MainCtx, FillText (lit "B: " ++ displayName b) (w / 2) (h - 8)) ].

(** The base line of the surface. *)
Definition baseline_y (fontSize : Z) : Q :=
  surface_height fontSize - pad
  - Math_round ((surface_height fontSize - inject_Z fontSize) / 4).

(** A call made on the main context, or a measuring call made on the
    scratch context. *)
Definition main_or_measuring (e : CtxId * Call) : Prop :=
  fst e = MainCtx \/ (fst e = TmpCtx /\ is_measure_call (snd e) = true).

(** The memo cell of the grid characters holds what [gridChars] computes
    for the state it names. *)
Definition grid_memo_holds (c : Component) : Prop :=
  forall s0 v, gridChars_memo c = Some (s0, v) ->
    v = gridChars_factory (gridCharsPreset s0) (customChars s0).

(** The grid the component should show in state [s]. *)
Definition grid_of (s : State) : GridView :=
  if gridOpen s then
    match fontA s, fontB s with
    | Some _, Some _ =>
        GridCells (chars (gridChars_factory (gridCharsPreset s) (customChars s)))
    | _, _ => GridNeedsFonts
    end
  else GridClosed.

(** The memo cell holds and the view shows the grid of the state. *)
Definition grid_fresh (c : Component) : Prop :=
  grid_memo_holds c /\ grid_view (view c) = grid_of (state c).

(** What two calls of [drawChecker] have in common when they paint the
    same tile or set the same colour. *)
Definition same_paint (c d : Call) : Prop :=
  match c, d with
  | SetFillStyle v, SetFillStyle v' => v = v'
  | FillRect x y w h, FillRect x' y' w' h' =>
      x == x' /\ y == y' /\ w == w' /\ h == h'
  | _, _ => False
  end.

Definition same_paints (l l' : Log) : Prop :=
  Forall2 (fun e e' => fst e = fst e' /\ same_paint (snd e) (snd e')) l l'.

(** The tile in column [i] of row [j]: its colour, then its square. *)
Definition tile (ctx : CtxId) (size : Q) (j i : nat) : Log :=
  [ (ctx, SetFillStyle (if Z.even (Z.of_nat i + Z.of_nat j)
                        then lit "#eee" else lit "#fff"));
    (ctx, FillRect (inject_Z (Z.of_nat i) * size) (inject_Z (Z.of_nat j) * size)
            size size) ].

(** The tiles of a board of [columns] by [rows], row after row. *)
Definition board (ctx : CtxId) (size : Q) (columns rows : nat) : Log :=
  flat_map (fun j => flat_map (tile ctx size j) (seq 0 columns)) (seq 0 rows).

(** The setters that touch no dependency of the effect [drawCanvas]. *)
Definition off_canvas (u : Update) : bool :=
  match u with
  | ToggleGridOpen | SetIsDragging _ | SetGridCharsPreset _
  | SetCustomChars _ | PushMessage _ => true
  | _ => false
  end.

(** The setter calls the handler of event [e] queues on component [c]. *)
Definition queued (P : Platform) (c : Component) (e : Event) : list Update :=
  log_of (handler_of P (state c) e (heap c)).

(** A call of [pushMessage] on state [s] and heap [h], then React applying
    the update the call queued. *)
Definition pushed (P : Platform) (m : jsstring) (sh : State * Heap)
  : State * Heap :=
  let '(_, h, us) := pushMessage m (snd sh) in
  apply_updates P us (fst sh, h).

(** Calls of [pushMessage] one after the other, the first of [ms] first. *)
Definition pushes (P : Platform) (ms : list jsstring) (sh : State * Heap)
  : State * Heap :=
  fold_left (fun acc m => pushed P m acc) ms sh.

(** The calls of a log that draw text. *)
Definition is_glyph_call (c : Call) : bool :=
  match c with
  | FillText _ _ _ | StrokeText _ _ _ => true
  | _ => false
  end.

Definition glyph_calls (l : Log) : Log :=
  filter (fun e => is_glyph_call (snd e)) l.

(** The positions of a pen that starts at [cx] and moves on by each of the
    [advances] in turn, one position per advance. *)
Fixpoint pen_positions (cx : Q) (advances : list Q) : list Q :=
  match advances with
  | [] => []
  | a :: rest => cx :: pen_positions (cx + a) rest
  end.

(** Each character drawn at its position on the line [y]: stroked first
    when [st] holds, then filled. *)
Definition glyphs_at (ctx : CtxId) (st : bool) (y : Q)
    (placed : list (jsstring * Q)) : Log :=
  flat_map (fun p =>
              (if st then [(ctx, StrokeText (fst p) (snd p) y)] else [])
              ++ [(ctx, FillText (fst p) (snd p) y)])
           placed.


(** * Properties *)

Lemma eqb_eq (s t : jsstring) : JsString.eqb s t = true <-> s = t.
Proof.
  revert t; induction s as [|a s IH]; intros [|b t]; simpl;
    try (split; [discriminate | discriminate]); try tauto.
  rewrite andb_true_iff, N.eqb_eq, IH.
  split; [intros [-> ->]; reflexivity | intros H; inversion H; auto].
Qed.

(** ** Running effectful code *)

Section EffLemmas.

Context {S O : Type}.

Lemma value_of_mk {A} (a : A) (s : S) (l : list O) : value_of (a, s, l) = a.
Proof. reflexivity. Qed.
Lemma store_of_mk {A} (a : A) (s : S) (l : list O) : store_of (a, s, l) = s.
Proof. reflexivity. Qed.
Lemma log_of_mk {A} (a : A) (s : S) (l : list O) : log_of (a, s, l) = l.
Proof. reflexivity. Qed.

Lemma value_of_bind {A B} (m : Eff S O A) (k : A -> Eff S O B) s :
  value_of (bind m k s) = value_of (k (value_of (m s)) (store_of (m s))).
Proof.
  unfold bind, value_of, store_of.
  destruct (m s) as [[a s1] l1]; simpl.
  destruct (k a s1) as [[b s2] l2]; reflexivity.
Qed.

Lemma store_of_bind {A B} (m : Eff S O A) (k : A -> Eff S O B) s :
  store_of (bind m k s) = store_of (k (value_of (m s)) (store_of (m s))).
Proof.
  unfold bind, value_of, store_of.
  destruct (m s) as [[a s1] l1]; simpl.
  destruct (k a s1) as [[b s2] l2]; reflexivity.
Qed.

Lemma log_of_bind {A B} (m : Eff S O A) (k : A -> Eff S O B) s :
  log_of (bind m k s)
  = log_of (m s) ++ log_of (k (value_of (m s)) (store_of (m s))).
Proof.
  unfold bind, value_of, store_of, log_of.
  destruct (m s) as [[a s1] l1]; simpl.
  destruct (k a s1) as [[b s2] l2]; reflexivity.
Qed.

End EffLemmas.

(** ** Measuring *)

Section Measuring.

Variable P : Platform.

Lemma set_font_of_same c v fs : set_font_of c v fs c = v.
Proof.
  unfold set_font_of.
  destruct c; simpl; try reflexivity.
  now rewrite Nat.eqb_refl.
Qed.

(** The loop of [measureString] adds, to the width it starts from, the
    width of each character and the letter spacing; it leaves the fonts
    as they are. *)
Lemma measureString_chars_sum ctx k fs chs : forall w,
  value_of (measureString_chars P ctx chs w k fs)
    == w + Qsum (map (fun ch => text_width P (fs ctx) ch + inject_Z k) chs)
  /\ store_of (measureString_chars P ctx chs w k fs) = fs.
Proof.
  induction chs as [|ch rest IH]; intros w; simpl.
  - split; [unfold value_of; simpl; ring | reflexivity].
  - rewrite value_of_bind, store_of_bind.
    unfold measureText_width at 1 2 3 4; simpl.
    destruct (IH (w + (text_width P (fs ctx) ch + inject_Z k))) as [Hv Hs].
    split; [rewrite Hv; ring | exact Hs].
Qed.

Lemma Qsum_spaced (width : jsstring -> Q) (k : Q) (chs : list jsstring) :
  Qsum (map (fun ch => width ch + k) chs)
  == Qsum (map width chs) + k * inject_Z (Z.of_nat (List.length chs)).
Proof.
  induction chs as [|ch rest IH].
  - simpl. ring.
  - cbn [map Qsum fold_right List.length]. fold (Qsum (map (fun ch => width ch + k) rest)).
    fold (Qsum (map width rest)). rewrite IH.
    rewrite Nat2Z.inj_succ, <- Z.add_1_r, inject_Z_plus. ring.
Qed.

(** [measureString], unfolded. *)
Lemma measureString_eval fontSize ctx fontName content k fs :
  measureString P fontSize ctx fontName content k fs
  = let font := font_css fontSize fontName in
    let fs' := set_font_of ctx font fs in
    if Z.eqb k 0
    then (text_width P font content, fs',
          [(ctx, SetFont font); (ctx, MeasureText content)])
    else
      let r := measureString_chars P ctx (chars content) 0 k fs' in
      (value_of r, store_of r,
       (ctx, SetFont font) :: (ctx, MeasureText content) :: log_of r).
Proof.
  unfold measureString, bind, set_font, measureText_width; simpl.
  rewrite set_font_of_same.
  destruct (Z.eqb k 0); [reflexivity|].
  destruct (measureString_chars P ctx (chars content) 0 k _) as [[v fs1] l].
  reflexivity.
Qed.

Lemma measureString_chars_value ctx ctx' k fs fs' chs : forall w,
  fs ctx = fs' ctx' ->
  value_of (measureString_chars P ctx chs w k fs)
  = value_of (measureString_chars P ctx' chs w k fs').
Proof.
  induction chs as [|ch rest IH]; intros w Hf; simpl; [reflexivity|].
  rewrite !value_of_bind.
  unfold measureText_width, value_of at 2 4, store_of; simpl.
  rewrite Hf. now apply IH.
Qed.

(** The value of [measureString] does not depend on the fonts the
    contexts had before the call, nor on the context used. *)
Lemma measureString_value fontSize ctx fontName content k fs :
  value_of (measureString P fontSize ctx fontName content k fs)
  = value_of (measureString P fontSize TmpCtx fontName content k
                (fun _ => default_font)).
Proof.
  rewrite !measureString_eval; cbv zeta.
  destruct (Z.eqb k 0); [reflexivity|].
  unfold value_of at 1 3; simpl.
  apply measureString_chars_value.
  now rewrite !set_font_of_same.
Qed.

(** [measureString] leaves the fonts of the other contexts alone and sets
    the one of its context. *)
Lemma measureString_store fontSize ctx fontName content k fs :
  store_of (measureString P fontSize ctx fontName content k fs)
  = set_font_of ctx (font_css fontSize fontName) fs.
Proof.
  rewrite measureString_eval; cbv zeta.
  destruct (Z.eqb k 0); [reflexivity|].
  unfold store_of at 1; simpl.
  apply (measureString_chars_sum ctx k _ (chars content) 0).
Qed.

(** C1. With a letter spacing [k > 0], [measureString] returns the sum,
    over the characters of the text, of the width of the character measured
    on its own plus [k]. The last character contributes [k] as the others
    do: the result is the sum of the single widths plus [k] times the
    number of characters. The width of the text measured as a whole, where
    kerning would show, has no part in it. *)
Theorem measureString_spaced_is_sum_of_char_widths :
  forall (fontSize : Z) (ctx : CtxId) (fontName content : jsstring)
         (k : Z) (fs : Fonts),
    (0 < k)%Z ->
    let width_of ch := text_width P (font_css fontSize fontName) ch in
    let measure :=
      value_of (measureString P fontSize ctx fontName content k fs) in
    measure == Qsum (map (fun ch => width_of ch + inject_Z k) (chars content))
    /\ measure == Qsum (map width_of (chars content))
                  + inject_Z k * inject_Z (Z.of_nat (List.length (chars content))).
Proof.
  intros fontSize ctx fontName content k fs Hk width_of measure.
  assert (Hsum : measure
            == Qsum (map (fun ch => width_of ch + inject_Z k) (chars content))).
  { unfold measure. rewrite measureString_eval; cbv zeta.
    replace (Z.eqb k 0) with false by (symmetry; apply Z.eqb_neq; lia).
    unfold value_of at 1; simpl.
    destruct (measureString_chars_sum ctx k
                (set_font_of ctx (font_css fontSize fontName) fs)
                (chars content) 0) as [Hv _].
    rewrite Hv, set_font_of_same. unfold width_of. ring. }
  split; [exact Hsum|].
  rewrite Hsum. apply Qsum_spaced.
Qed.

End Measuring.

Lemma measureString_spaced_witness :
  value_of (measureString Samples.browser 120 TmpCtx (lit "A_Regular_ttf_1")
              (lit "Hi!") 5 (fun _ => default_font)) == 45.
Proof.
  destruct (@measureString_spaced_is_sum_of_char_widths Samples.browser 120 TmpCtx
              (lit "A_Regular_ttf_1") (lit "Hi!") 5 (fun _ => default_font))
    as [H _]; [lia|].
  rewrite H. vm_compute. reflexivity.
Defined.

(** ** The message log *)

Section Messages.

Variable P : Platform.

Lemma apply_update_PushMessage (m : jsstring) (s : State) (h : Heap) :
  messages (fst (apply_update P (PushMessage m) (s, h)))
  = pushMessage_updater (fst (fresh_msg_id P h)) m (messages s).
Proof. reflexivity. Qed.

Lemma pushMessage_updater_length id m arr :
  (List.length (pushMessage_updater id m arr) <= 5)%nat.
Proof.
  unfold pushMessage_updater. rewrite length_firstn. apply Nat.le_min_l.
Qed.

Lemma pushMessage_updater_full id m arr :
  List.length arr = 5%nat ->
  exists oldest,
    nth_error arr 4 = Some oldest
    /\ arr = firstn 4 arr ++ [oldest]
    /\ pushMessage_updater id m arr
       = {| msg_id := id; msg := m |} :: firstn 4 arr.
Proof.
  destruct arr as [|a [|b [|c [|d [|e [|f r]]]]]]; simpl; try discriminate.
  intros _. exists e. repeat split.
Qed.

Lemma pushes_keep_cap (earlier : list jsstring) : forall s h,
  (List.length (messages s) <= 5)%nat ->
  (List.length
     (messages (fst (apply_updates P (map PushMessage earlier) (s, h))))
   <= 5)%nat.
Proof.
  induction earlier as [|m0 rest IH]; intros s h Hlen.
  - exact Hlen.
  - simpl. destruct (fresh_msg_id P h) as [id h'].
    apply IH. simpl. apply (pushMessage_updater_length id m0).
Qed.

Lemma pushed_eq (m : jsstring) (sh : State * Heap) :
  pushed P m sh = apply_update P (PushMessage m) sh.
Proof. destruct sh as [s h]. reflexivity. Qed.

Lemma pushes_eq (ms : list jsstring) : forall sh,
  pushes P ms sh = apply_updates P (map PushMessage ms) sh.
Proof.
  unfold pushes, apply_updates.
  induction ms as [|m ms IH]; intros sh; [reflexivity|].
  cbn [map fold_left]. rewrite pushed_eq. apply IH.
Qed.

(** C4. Starting from a log of at most 5 entries and after any calls of
    [pushMessage], one more call leaves a log of at most 5 entries whose
    entry 0 is the message just pushed; when the log held 5 entries, the
    push removes the entry at position 4, the oldest, and keeps the four
    others after the new one. *)
Theorem message_log_capped_newest_first :
  forall (s : State) (h : Heap) (earlier : list jsstring) (m : jsstring),
    (List.length (messages s) <= 5)%nat ->
    let before := pushes P earlier (s, h) in
    let after := pushed P m before in
    let log0 := messages (fst before) in
    let log1 := messages (fst after) in
    (List.length log0 <= 5)%nat
    /\ (List.length log1 <= 5)%nat
    /\ (exists id, nth_error log1 0 = Some {| msg_id := id; msg := m |})
    /\ (List.length log0 = 5%nat ->
        exists id oldest,
          nth_error log0 4 = Some oldest
          /\ log0 = firstn 4 log0 ++ [oldest]
          /\ log1 = {| msg_id := id; msg := m |} :: firstn 4 log0).
Proof.
  intros s h earlier m Hlen before after log0 log1.
  assert (H0 : (List.length log0 <= 5)%nat).
  { unfold log0, before. rewrite pushes_eq.
    apply pushes_keep_cap; exact Hlen. }
  unfold log1, after. rewrite pushed_eq.
  destruct before as [s1 h1] eqn:Hb.
  rewrite apply_update_PushMessage. simpl in log0. fold log0.
  split; [exact H0|]. split; [apply pushMessage_updater_length|].
  split.
  - exists (fst (fresh_msg_id P h1)). reflexivity.
  - intros Hfull. exists (fst (fresh_msg_id P h1)).
    destruct (pushMessage_updater_full (fst (fresh_msg_id P h1)) m log0 Hfull)
      as [oldest (Hn & Hsplit & Hpush)].
    exists oldest. repeat split; assumption.
Qed.

End Messages.

Lemma message_log_capped_witness :
  let s := with_messages
             [ {| msg_id := 5; msg := lit "e" |}; {| msg_id := 4; msg := lit "d" |};
               {| msg_id := 3; msg := lit "c" |}; {| msg_id := 2; msg := lit "b" |};
               {| msg_id := 1; msg := lit "a" |} ] initial_state in
  let after := pushed Samples.browser (lit "f") (s, initial_heap) in
  (List.length (messages (fst after)) <= 5)%nat
  /\ option_map msg (nth_error (messages (fst after)) 0) = Some (lit "f")
  /\ map msg (messages (fst after)) = map lit ["f"; "e"; "d"; "c"; "b"]%string.
Proof.
  intros s after.
  destruct (@message_log_capped_newest_first Samples.browser s initial_heap
              [] (lit "f")) as (_ & Hle & _ & _).
  - simpl. lia.
  - split; [exact Hle|]. split; vm_compute; reflexivity.
Defined.

(** ** Loading and dropping *)

Section Dropping.

Variable P : Platform.

(** [loadFontFromFile], unfolded. *)
Lemma loadFontFromFile_eval (file : File) (label : SlotLabel) (h : Heap) :
  loadFontFromFile P file label h
  = match arrayBuffer P file with
    | Throw errMsg => (None, h, [PushMessage (load_failure_message file errMsg)])
    | Ok ab =>
        let uniqueName :=
          uniqueName_of label (file_name file) (now P (date_calls h)) in
        let face := {| family := uniqueName; source := ab |} in
        let h1 := store_of (Date_now P h) in
        match face_load P face with
        | Throw errMsg =>
            (None, h1, [PushMessage (load_failure_message file errMsg)])
        | Ok _ =>
            (Some {| oid := next_oid h; name := uniqueName;
                     displayName := file_name file; face := face |},
             store_of (new_object (store_of (document_fonts_add face h1))),
             [])
        end
    end.
Proof.
  unfold loadFontFromFile.
  destruct (arrayBuffer P file) as [ab|err]; [|reflexivity].
  unfold bind at 1. unfold Date_now at 1. cbv zeta.
  destruct (face_load P _) as [[]|err]; reflexivity.
Qed.

(** A load queues nothing when it succeeds and one message when it fails. *)
Lemma loadFontFromFile_log (file : File) (label : SlotLabel) (h : Heap) :
  let r := loadFontFromFile P file label h in
  match value_of r with
  | Some lf => log_of r = [] /\ displayName lf = file_name file
  | None => exists errMsg,
      log_of r = [PushMessage (load_failure_message file errMsg)]
  end.
Proof.
  cbv zeta. rewrite loadFontFromFile_eval.
  destruct (arrayBuffer P file) as [ab|err]; simpl.
  - destruct (face_load P _) as [[]|err]; simpl; eauto.
  - eauto.
Qed.

Lemma apply_updates_app us vs sh :
  apply_updates P (us ++ vs) sh = apply_updates P vs (apply_updates P us sh).
Proof. unfold apply_updates. apply fold_left_app. Qed.

(** The slots and the log after the updates a load queues. *)
Lemma after_load_log (file : File) (label : SlotLabel) (h : Heap) s h' :
  let r := loadFontFromFile P file label h in
  let sh := apply_updates P (log_of r) (s, h') in
  fontA (fst sh) = fontA s /\ fontB (fst sh) = fontB s
  /\ (value_of r <> None -> fst sh = s /\ snd sh = h').
Proof.
  cbv zeta. pose proof (loadFontFromFile_log file label h) as H.
  cbv zeta in H.
  destruct (value_of (loadFontFromFile P file label h)) as [lf|].
  - destruct H as [-> _]. simpl. repeat split.
  - destruct H as [err ->]. simpl.
    destruct (fresh_msg_id P h') as [id h'']. simpl.
    split; [reflexivity|]. split; [reflexivity|]. intros H; now elim H.
Qed.

(** [onDrop], unfolded: the heap it leaves and the updates it queues. *)
Lemma onDrop_eval (s : State) (files : list File) (h : Heap) :
  let h0 := heap_at_drop h in
  onDrop P s files h
  = match recognized files with
    | [] => (tt, h0, [SetIsDragging false; PushMessage msg_not_fonts])
    | file0 :: rest =>
        match fontA s, fontB s with
        | None, _ =>
            let r0 := loadFontFromFile P file0 LabelA h0 in
            match rest with
            | file1 :: _ =>
                let r1 := loadFontFromFile P file1 LabelB (store_of r0) in
                (tt, store_of r1,
                 SetIsDragging false
                   :: log_of r0 ++ fill SetFontA (value_of r0)
                   ++ log_of r1 ++ fill SetFontB (value_of r1))
            | [] =>
                (tt, store_of r0,
                 SetIsDragging false
                   :: log_of r0 ++ fill SetFontA (value_of r0))
            end
        | Some _, None =>
            let r0 := loadFontFromFile P file0 LabelB h0 in
            (tt, store_of r0,
             SetIsDragging false :: log_of r0 ++ fill SetFontB (value_of r0))
        | Some _, Some _ =>
            (tt, h0, [SetIsDragging false; PushMessage msg_slots_taken])
        end
    end.
Proof.
  cbv zeta. unfold onDrop, recognized, heap_at_drop.
  unfold bind at 1. unfold set_dragCounter at 1. cbv beta iota.
  unfold bind at 1. unfold emit at 1. cbv beta iota.
  unfold store_of at 1 2 4 5; simpl fst; simpl snd.
  destruct (filter _ files) as [|file0 rest]; [reflexivity|].
  destruct (fontA s) as [a|].
  - destruct (fontB s) as [b|]; [reflexivity|].
    unfold bind, value_of, store_of, log_of.
    destruct (loadFontFromFile P file0 LabelB _) as [[[lf|] h1] l1];
      simpl; rewrite ?app_nil_r; reflexivity.
  - unfold bind, value_of, store_of, log_of.
    destruct (loadFontFromFile P file0 LabelA _) as [[[lf|] h1] l1]; simpl;
      (destruct rest as [|file1 rest']; simpl;
       [rewrite ?app_nil_r; reflexivity|]);
      destruct (loadFontFromFile P file1 LabelB h1) as [[[lf1|] h2] l2]; simpl;
      repeat rewrite <- app_assoc; simpl; rewrite ?app_nil_r; reflexivity.
Qed.

Lemma handle_Drop (files : list File) (s : State) (h : Heap) :
  handle P (Drop files) (s, h)
  = apply_updates P (log_of (onDrop P s files h))
      (s, store_of (onDrop P s files h)).
Proof.
  unfold handle, handler_of, fst, snd, log_of, store_of.
  destruct (onDrop P s files h) as [[[] h'] us]. reflexivity.
Qed.

(** The slots after the updates queued for slot A by one load. *)
Lemma after_load_A (file : File) (h : Heap) (sh : State * Heap) :
  let r := loadFontFromFile P file LabelA h in
  let sh' := apply_updates P (log_of r ++ fill SetFontA (value_of r)) sh in
  fontA (fst sh')
  = match value_of r with Some a => Some a | None => fontA (fst sh) end
  /\ fontB (fst sh') = fontB (fst sh).
Proof.
  cbv zeta. rewrite apply_updates_app. destruct sh as [s h'].
  destruct (after_load_log file LabelA h s h') as (HA & HB & _).
  destruct (apply_updates P (log_of (loadFontFromFile P file LabelA h)) (s, h'))
    as [s1 h1]. simpl in HA, HB.
  destruct (value_of (loadFontFromFile P file LabelA h)) as [a|]; simpl; auto.
Qed.

(** The slots after the updates queued for slot B by one load. *)
Lemma after_load_B (file : File) (h : Heap) (sh : State * Heap) :
  let r := loadFontFromFile P file LabelB h in
  let sh' := apply_updates P (log_of r ++ fill SetFontB (value_of r)) sh in
  fontB (fst sh')
  = match value_of r with Some b => Some b | None => fontB (fst sh) end
  /\ fontA (fst sh') = fontA (fst sh).
Proof.
  cbv zeta. rewrite apply_updates_app. destruct sh as [s h'].
  destruct (after_load_log file LabelB h s h') as (HA & HB & _).
  destruct (apply_updates P (log_of (loadFontFromFile P file LabelB h)) (s, h'))
    as [s1 h1]. simpl in HA, HB.
  destruct (value_of (loadFontFromFile P file LabelB h)) as [b|]; simpl; auto.
Qed.

(** The slots after a drop, whatever the loads return: a slot takes the
    font a load returned for it and keeps its content otherwise. *)
Lemma slots_after_drop (s : State) (h : Heap) (files : list File) :
  let h0 := heap_at_drop h in
  let s' := fst (handle P (Drop files) (s, h)) in
  match recognized files with
  | [] => fontA s' = fontA s /\ fontB s' = fontB s
  | file0 :: rest =>
      match fontA s, fontB s with
      | None, _ =>
          let r0 := loadFontFromFile P file0 LabelA h0 in
          fontA s' = value_of r0
          /\ fontB s'
             = match rest with
               | file1 :: _ =>
                   match value_of (loadFontFromFile P file1 LabelB (store_of r0))
                   with Some b => Some b | None => fontB s end
               | [] => fontB s
               end
      | Some _, None =>
          fontA s' = fontA s
          /\ fontB s' = value_of (loadFontFromFile P file0 LabelB h0)
      | Some _, Some _ => fontA s' = fontA s /\ fontB s' = fontB s
      end
  end.
Proof.
  cbv zeta. rewrite handle_Drop.
  pose proof (onDrop_eval s files h) as E. cbv zeta in E. rewrite E. clear E.
  destruct (recognized files) as [|file0 rest].
  - rewrite log_of_mk, store_of_mk. simpl.
    destruct (fresh_msg_id P (heap_at_drop h)); simpl; auto.
  - destruct (fontA s) as [a|] eqn:EA.
    + destruct (fontB s) as [b|] eqn:EB.
      * rewrite log_of_mk, store_of_mk. simpl.
        destruct (fresh_msg_id P (heap_at_drop h)); simpl; auto.
      * rewrite log_of_mk, store_of_mk.
        change (apply_updates P (SetIsDragging false :: ?us) (s, ?hh))
          with (apply_updates P us (with_isDragging false s, hh)).
        destruct (after_load_B file0 (heap_at_drop h)
                    (with_isDragging false s,
                     store_of (loadFontFromFile P file0 LabelB (heap_at_drop h))))
          as [HB HA].
        cbn [fst with_isDragging fontA fontB] in HA, HB.
        rewrite HA, HB, EB, EA.
        split; [reflexivity|].
        now destruct (value_of (loadFontFromFile P file0 LabelB (heap_at_drop h))).
    + set (r0 := loadFontFromFile P file0 LabelA (heap_at_drop h)).
      destruct rest as [|file1 rest'].
      * rewrite log_of_mk, store_of_mk.
        change (apply_updates P (SetIsDragging false :: ?us) (s, ?hh))
          with (apply_updates P us (with_isDragging false s, hh)).
        destruct (after_load_A file0 (heap_at_drop h)
                    (with_isDragging false s, store_of r0)) as [HA HB].
        fold r0 in HA, HB.
        cbn [fst with_isDragging fontA fontB] in HA, HB.
        rewrite HA, HB, EA.
        split; [now destruct (value_of r0) | reflexivity].
      * set (r1 := loadFontFromFile P file1 LabelB (store_of r0)).
        rewrite log_of_mk, store_of_mk.
        change (apply_updates P (SetIsDragging false :: ?us) (s, ?hh))
          with (apply_updates P us (with_isDragging false s, hh)).
        rewrite app_assoc, apply_updates_app.
        destruct (after_load_A file0 (heap_at_drop h)
                    (with_isDragging false s, store_of r1)) as [HA HB].
        fold r0 in HA, HB.
        cbn [fst with_isDragging fontA fontB] in HA, HB.
        destruct (after_load_B file1 (store_of r0)
                    (apply_updates P (log_of r0 ++ fill SetFontA (value_of r0))
                       (with_isDragging false s, store_of r1))) as [HB' HA'].
        fold r1 in HA', HB'.
        rewrite HA', HB', HA, HB, EA.
        split; [now destruct (value_of r0) | reflexivity].
Qed.

(** The log after a drop that loads nothing: one message is pushed. *)
Lemma messages_after_rejected_drop (s : State) (h : Heap) (files : list File) :
  let s' := fst (handle P (Drop files) (s, h)) in
  let id := fst (fresh_msg_id P (heap_at_drop h)) in
  (recognized files = [] ->
   messages s' = pushMessage_updater id msg_not_fonts (messages s))
  /\ (recognized files <> [] -> fontA s <> None -> fontB s <> None ->
      messages s' = pushMessage_updater id msg_slots_taken (messages s)).
Proof.
  cbv zeta. rewrite handle_Drop.
  pose proof (onDrop_eval s files h) as E. cbv zeta in E. rewrite E. clear E.
  split.
  - intros ->. rewrite log_of_mk, store_of_mk. reflexivity.
  - intros Hne HA HB. destruct (recognized files); [now elim Hne|].
    destruct (fontA s); [|now elim HA]. destruct (fontB s); [|now elim HB].
    rewrite log_of_mk, store_of_mk. reflexivity.
Qed.

Lemma filter_idem {A} (p : A -> bool) (l : list A) :
  filter p (filter p l) = filter p l.
Proof.
  induction l as [|x l IH]; simpl; [reflexivity|].
  destruct (p x) eqn:E; simpl; [rewrite E, IH|]; auto.
Qed.

(** C3, amended. A drop with at least one recognized file: when slot A is
    empty, the first recognized file fills slot A if its load succeeds, and
    a second recognized file fills slot B if its load succeeds; when slot A
    is occupied and slot B empty, the first recognized file fills slot B if
    its load succeeds; when both slots are occupied, no slot changes and one
    message is pushed on the log. *)
Theorem drop_fills_free_slot_when_load_succeeds :
  forall (s : State) (h : Heap) (files : list File) (file0 : File)
         (rest : list File),
    recognized files = file0 :: rest ->
    let h0 := heap_at_drop h in
    let s' := fst (handle P (Drop files) (s, h)) in
    (fontA s = None ->
     let first := loadFontFromFile P file0 LabelA h0 in
     (forall a, value_of first = Some a ->
        fontA s' = Some a /\ displayName a = file_name file0)
     /\ (forall file1 b,
           nth_error rest 0 = Some file1 ->
           value_of (loadFontFromFile P file1 LabelB (store_of first)) = Some b ->
           fontB s' = Some b /\ displayName b = file_name file1))
    /\ (fontA s <> None -> fontB s = None ->
        forall b, value_of (loadFontFromFile P file0 LabelB h0) = Some b ->
          fontA s' = fontA s /\ fontB s' = Some b
          /\ displayName b = file_name file0)
    /\ (fontA s <> None -> fontB s <> None ->
        fontA s' = fontA s /\ fontB s' = fontB s
        /\ exists id,
             messages s' = pushMessage_updater id msg_slots_taken (messages s)).
Proof.
  intros s h files file0 rest Hrec h0 s'.
  pose proof (slots_after_drop s h files) as H. cbv zeta in H.
  rewrite Hrec in H. fold h0 s' in H.
  split; [|split].
  - intros HA first. rewrite HA in H. fold first in H. destruct H as [H1 H2].
    split.
    + intros a Ha. split; [congruence|].
      pose proof (loadFontFromFile_log file0 LabelA h0) as L. cbv zeta in L.
      fold first in L. rewrite Ha in L. tauto.
    + intros file1 b Hnth Hb. destruct rest as [|f1 rest']; [discriminate|].
      simpl in Hnth. injection Hnth as ->. rewrite Hb in H2.
      split; [exact H2|].
      pose proof (loadFontFromFile_log file1 LabelB (store_of first)) as L.
      cbv zeta in L. rewrite Hb in L. tauto.
  - intros HA HB b Hb. destruct (fontA s) as [a|] eqn:EA; [|now elim HA].
    rewrite HB in H. destruct H as [H1 H2].
    split; [exact H1|]. split; [congruence|].
    pose proof (loadFontFromFile_log file0 LabelB h0) as L. cbv zeta in L.
    rewrite Hb in L. tauto.
  - intros HA HB. destruct (fontA s) as [a|] eqn:EA; [|now elim HA].
    destruct (fontB s) as [b|] eqn:EB; [|now elim HB].
    destruct H as [H1 H2]. split; [exact H1|]. split; [exact H2|].
    exists (fst (fresh_msg_id P (heap_at_drop h))).
    destruct (messages_after_rejected_drop s h files) as [_ Hm].
    cbv zeta in Hm. rewrite EA, EB, Hrec in Hm.
    apply Hm; discriminate.
Qed.

(** C10. A drop with two recognized files on an empty slot A: when the load
    of the first file fails, the second file is loaded all the same, and
    when that load succeeds its font fills slot B while slot A stays
    empty. *)
Theorem second_file_fills_B_when_first_fails :
  forall (s : State) (h : Heap) (files : list File) (file0 file1 : File)
         (rest : list File) (b : LoadedFont),
    recognized files = file0 :: file1 :: rest ->
    fontA s = None ->
    let first := loadFontFromFile P file0 LabelA (heap_at_drop h) in
    value_of first = None ->
    value_of (loadFontFromFile P file1 LabelB (store_of first)) = Some b ->
    let s' := fst (handle P (Drop files) (s, h)) in
    fontA s' = None /\ fontB s' = Some b /\ displayName b = file_name file1.
Proof.
  intros s h files file0 file1 rest b Hrec HA first Hfail Hb s'.
  pose proof (slots_after_drop s h files) as H. cbv zeta in H.
  rewrite Hrec, HA in H. fold first s' in H. rewrite Hb, Hfail in H.
  destruct H as [H1 H2]. split; [exact H1|]. split; [exact H2|].
  pose proof (loadFontFromFile_log file1 LabelB (store_of first)) as L.
  cbv zeta in L. rewrite Hb in L. tauto.
Qed.

(** C8, amended. Only the files whose names end in a recognized extension
    take part in a drop: the drop does to the slots, the log and the heap
    what the drop of its recognized files alone does. When no file of the
    drop is recognized, the slots keep their content and one message is
    pushed on the log. *)
Theorem drop_ignores_unrecognized_files :
  forall (s : State) (h : Heap) (files : list File),
    handle P (Drop files) (s, h) = handle P (Drop (recognized files)) (s, h)
    /\ (recognized files = [] ->
        let s' := fst (handle P (Drop files) (s, h)) in
        fontA s' = fontA s /\ fontB s' = fontB s
        /\ exists id,
             messages s' = pushMessage_updater id msg_not_fonts (messages s)).
Proof.
  intros s h files. split.
  - rewrite !handle_Drop.
    assert (E : onDrop P s files h = onDrop P s (recognized files) h).
    { unfold onDrop, recognized. now rewrite filter_idem. }
    now rewrite E.
  - intros Hrec s'.
    pose proof (slots_after_drop s h files) as H. cbv zeta in H.
    rewrite Hrec in H. fold s' in H. destruct H as [H1 H2].
    split; [exact H1|]. split; [exact H2|].
    exists (fst (fresh_msg_id P (heap_at_drop h))).
    destruct (messages_after_rejected_drop s h files) as [Hm _].
    exact (Hm Hrec).
Qed.

End Dropping.

Lemma drop_fills_free_slot_witness :
  let s' := fst (handle Samples.browser
                   (Drop [Samples.regular_ttf; Samples.notes_txt;
                          Samples.bold_woff2])
                   (initial_state, initial_heap)) in
  option_map displayName (fontA s') = Some (lit "Regular.ttf")
  /\ option_map displayName (fontB s') = Some (lit "Bold.woff2").
Proof.
  intros s'.
  destruct (@drop_fills_free_slot_when_load_succeeds Samples.browser
              initial_state initial_heap
              [Samples.regular_ttf; Samples.notes_txt; Samples.bold_woff2]
              Samples.regular_ttf [Samples.bold_woff2] eq_refl)
    as (Hempty & _ & _).
  destruct (Hempty eq_refl) as [HfillA HfillB].
  destruct (HfillA _ eq_refl) as [HA _].
  destruct (HfillB Samples.bold_woff2 _ eq_refl eq_refl) as [HB _].
  fold s' in HA, HB. rewrite HA, HB. split; reflexivity.
Defined.

(** C3 as stated fails: a drop carrying a recognized font file, slot A
    being empty, after which slot A is still empty, because the file does
    not decode. *)
Lemma drop_of_undecodable_font_leaves_A_empty :
  let files := [Samples.broken_ttf] in
  let s' := fst (handle Samples.browser (Drop files)
                   (initial_state, initial_heap)) in
  recognized files = [Samples.broken_ttf]
  /\ fontA initial_state = None
  /\ fontA s' = None
  /\ ~ (exists a, fontA s' = Some a
                  /\ displayName a = file_name Samples.broken_ttf).
Proof.
  cbv zeta. split; [reflexivity|]. split; [reflexivity|].
  assert (E : fontA (fst (handle Samples.browser (Drop [Samples.broken_ttf])
                            (initial_state, initial_heap))) = None)
    by (vm_compute; reflexivity).
  split; [exact E|]. intros (a & Ha & _). rewrite E in Ha. discriminate.
Qed.

Lemma second_file_fills_B_witness :
  let s' := fst (handle Samples.browser
                   (Drop [Samples.broken_ttf; Samples.bold_woff2])
                   (initial_state, initial_heap)) in
  fontA s' = None
  /\ option_map displayName (fontB s') = Some (lit "Bold.woff2").
Proof.
  intros s'.
  destruct (@second_file_fills_B_when_first_fails Samples.browser
              initial_state initial_heap
              [Samples.broken_ttf; Samples.bold_woff2]
              Samples.broken_ttf Samples.bold_woff2 [] _
              eq_refl eq_refl eq_refl eq_refl) as (HA & HB & _).
  fold s' in HA, HB. rewrite HA, HB. split; reflexivity.
Defined.

Lemma drop_ignores_unrecognized_witness :
  let s' := fst (handle Samples.browser (Drop [Samples.notes_txt])
                   (initial_state, initial_heap)) in
  fontA s' = None /\ fontB s' = None
  /\ map msg (messages s') = [msg_not_fonts].
Proof.
  intros s'.
  destruct (@drop_ignores_unrecognized_files Samples.browser
              initial_state initial_heap [Samples.notes_txt]) as [_ H].
  destruct (H eq_refl) as (HA & HB & id & Hm).
  fold s' in HA, HB, Hm. rewrite HA, HB, Hm. repeat split.
Defined.

(** C8 as stated fails: a file without a recognized extension dropped
    together with a font file is skipped, and no message is pushed. *)
Lemma unrecognized_file_skipped_without_message :
  let files := [Samples.regular_ttf; Samples.notes_txt] in
  let s' := fst (handle Samples.browser (Drop files)
                   (initial_state, initial_heap)) in
  In Samples.notes_txt files
  /\ is_font_file_name (file_name Samples.notes_txt) = false
  /\ messages s' = messages initial_state
  /\ ~ (exists m, In m (messages s')).
Proof.
  cbv zeta. split; [right; left; reflexivity|].
  split; [vm_compute; reflexivity|].
  assert (E : messages (fst (handle Samples.browser
                               (Drop [Samples.regular_ttf; Samples.notes_txt])
                               (initial_state, initial_heap))) = [])
    by (vm_compute; reflexivity).
  split; [exact E|]. intros (m & Hm). rewrite E in Hm. exact Hm.
Qed.

(** ** The component: state, heap and view along a run *)

Section Running.

Variable P : Platform.

Lemma render_state_heap (c : Component) (s : State) (h : Heap) :
  state (render P c s h) = s /\ heap (render P c s h) = h.
Proof.
  unfold render.
  destruct (useMemo gridChars_deps_same _ s (gridChars_memo c) (ctx_fonts c))
    as [[gc fs1] l0].
  destruct (useMemo metrics_deps_same (metrics_factory P) s (metrics_memo c) fs1)
    as [[mt fs2] rlog].
  destruct ((if match drawCanvas_ran c with
                | Some s0 => negb (drawCanvas_deps_same s0 s)
                | None => true
                end then drawCanvas P s else ret tt) fs2) as [[u fs3] dlog].
  destruct (GlyphCell_effects P s 0 _ fs3) as [[u' fs4] clog].
  split; reflexivity.
Qed.

Lemma commit_state_heap (us : list Update) : forall c,
  (state (commit P us c), heap (commit P us c))
  = apply_updates P us (state c, heap c).
Proof.
  induction us as [|u rest IH]; intros c; [reflexivity|].
  cbn [commit]. unfold apply_updates. cbn [fold_left].
  fold (apply_updates P rest (apply_update P u (state c, heap c))).
  destruct (apply_update P u (state c, heap c)) as [s' h'] eqn:E.
  rewrite IH. destruct (render_state_heap c s' h') as [-> ->].
  reflexivity.
Qed.

Lemma step_state_heap (c : Component) (e : Event) :
  (state (step P c e), heap (step P c e)) = handle P e (state c, heap c).
Proof.
  unfold step, handle, fst, snd.
  destruct (handler_of P (state c) e (heap c)) as [[u h] us].
  rewrite commit_state_heap. reflexivity.
Qed.

(** The state and the heap of the component follow the handlers. *)
Lemma run_state_heap (es : list Event) : forall c,
  (state (run P es c), heap (run P es c))
  = fold_left (fun sh e => handle P e sh) es (state c, heap c).
Proof.
  induction es as [|e rest IH]; intros c; [reflexivity|].
  unfold run in *. cbn [fold_left]. rewrite IH, step_state_heap.
  reflexivity.
Qed.

End Running.

(** ** Drawing without two fonts *)

Section Placeholder.

Variable P : Platform.

Lemma background_on_app ctx l1 l2 :
  background_on ctx l1 -> background_on ctx l2 -> background_on ctx (l1 ++ l2).
Proof. unfold background_on. rewrite Forall_app. auto. Qed.

Lemma drawChecker_row_background ctx y w size fuel : forall x fs,
  background_on ctx (log_of (drawChecker_row fuel ctx x y w size fs)).
Proof.
  induction fuel as [|fuel IH]; intros x fs; simpl.
  - constructor.
  - destruct (Qlt_bool x w); [|constructor].
    rewrite !log_of_bind.
    repeat apply background_on_app; try apply IH;
      repeat constructor.
Qed.

Lemma drawChecker_rows_background ctx w h size fuel : forall y fs,
  background_on ctx (log_of (drawChecker_rows fuel ctx y w h size fs)).
Proof.
  induction fuel as [|fuel IH]; intros y fs; simpl.
  - constructor.
  - destruct (Qlt_bool y h); [|constructor].
    rewrite !log_of_bind.
    apply background_on_app; [apply drawChecker_row_background | apply IH].
Qed.

Lemma drawChecker_background ctx w h size fs :
  background_on ctx (log_of (drawChecker ctx w h size fs)).
Proof. apply drawChecker_rows_background. Qed.

Lemma size_canvas_background ctx w h dpr fs :
  background_on ctx (log_of (size_canvas ctx w h dpr fs)).
Proof. repeat constructor. Qed.

(** With a slot empty, [drawCanvas] sizes the canvas, paints the
    background and writes the placeholder; it does nothing else. *)
Lemma drawCanvas_placeholder (s : State) (fs : Fonts) :
  fontA s = None \/ fontB s = None ->
  exists bg,
    background_on MainCtx bg
    /\ log_of (drawCanvas P s fs)
       = if context2d P MainCtx then bg ++ placeholder_calls else [].
Proof.
  intros Hslot. unfold drawCanvas.
  destruct (context2d P MainCtx); cbn [negb];
    [|exists []; split; [constructor|reflexivity]].
  cbv zeta.
  set (h := Math_max 200 (inject_Z (fontSize s) * (9 # 5) + pad * 2)).
  rewrite log_of_bind. rewrite log_of_bind. rewrite log_of_bind.
  set (fs1 := store_of (size_canvas MainCtx 800 h (humanDevicePixelRatio P) fs)).
  set (l1 := log_of (size_canvas MainCtx 800 h (humanDevicePixelRatio P) fs)).
  set (l2 := log_of (call MainCtx (ClearRect 0 0 800 h) fs1)).
  set (fs2 := store_of (call MainCtx (ClearRect 0 0 800 h) fs1)).
  set (l3 := log_of (when (showChecker s) (drawChecker MainCtx 800 h 16) fs2)).
  exists (l1 ++ l2 ++ l3). split.
  - apply background_on_app; [apply size_canvas_background|].
    apply background_on_app; [repeat constructor|].
    unfold l3, when. destruct (showChecker s);
      [apply drawChecker_background | constructor].
  - rewrite <- !app_assoc. do 3 f_equal.
    destruct Hslot as [H|H]; rewrite H; [reflexivity|].
    destruct (fontA s); reflexivity.
Qed.

(** With a slot empty, the metrics are not computed: nothing is measured. *)
Lemma metrics_factory_empty_slot (s : State) (fs : Fonts) :
  fontA s = None \/ fontB s = None ->
  metrics_factory P s fs = (None, fs, []).
Proof.
  intros [H|H]; unfold metrics_factory; rewrite H; [reflexivity|].
  destruct (fontA s); reflexivity.
Qed.

(** With a slot empty, the effect of a cell draws nothing. *)
Lemma GlyphCell_effect_empty_slot (s : State) (i : nat) (ch : jsstring) fs :
  fontA s = None \/ fontB s = None ->
  GlyphCell_effect P s i ch fs = (tt, fs, []).
Proof.
  intros [H|H]; unfold GlyphCell_effect; rewrite H; [reflexivity|].
  destruct (fontA s); reflexivity.
Qed.

(** With a slot empty, the view has no cell. *)
Lemma grid_cells_empty_slot (s : State) (gridChars : jsstring) mt :
  fontA s = None \/ fontB s = None ->
  grid_cells (render_view s gridChars mt) = [].
Proof.
  intros [H|H]; unfold grid_cells, render_view; simpl; rewrite H;
    destruct (gridOpen s); try reflexivity.
  destruct (fontA s); reflexivity.
Qed.

End Placeholder.

(** ** Dependencies *)

Lemma eqb_refl (s : jsstring) : JsString.eqb s s = true.
Proof. now apply eqb_eq. Qed.

Lemma bytes_eqb_eq (a b : list N) : bytes_eqb a b = true <-> a = b.
Proof. exact (eqb_eq a b). Qed.

Lemma LoadedFont_is_eq (f g : LoadedFont) :
  LoadedFont_is f g = true <-> f = g.
Proof.
  unfold LoadedFont_is, FontFace_eqb.
  rewrite !andb_true_iff, Nat.eqb_eq, !eqb_eq, ?bytes_eqb_eq.
  destruct f as [o n d [fam src]], g as [o' n' d' [fam' src']]; simpl.
  split.
  - intros [[[-> ->] ->] [-> ->]]. reflexivity.
  - intros H; inversion H; auto.
Qed.

Lemma slot_is_eq (f g : option LoadedFont) : slot_is f g = true <-> f = g.
Proof.
  destruct f as [f|], g as [g|]; simpl; try (split; congruence).
  rewrite LoadedFont_is_eq. split; congruence.
Qed.

Lemma metrics_deps_same_eq (s t : State) :
  metrics_deps_same s t = true <->
  fontA s = fontA t /\ fontB s = fontB t /\ text s = text t
  /\ letterSpacing s = letterSpacing t /\ fontSize s = fontSize t.
Proof.
  unfold metrics_deps_same.
  rewrite !andb_true_iff, !slot_is_eq, eqb_eq, !Z.eqb_eq. tauto.
Qed.

Lemma drawCanvas_deps_same_slots (s t : State) :
  drawCanvas_deps_same s t = true ->
  fontA s = fontA t /\ fontB s = fontB t.
Proof.
  unfold drawCanvas_deps_same. rewrite !andb_true_iff, !slot_is_eq. tauto.
Qed.

Lemma drawCanvas_deps_same_refl (s : State) : drawCanvas_deps_same s s = true.
Proof.
  unfold drawCanvas_deps_same.
  rewrite !andb_true_iff, !slot_is_eq, eqb_eq, !Z.eqb_eq, !Qeq_bool_iff.
  repeat split; try reflexivity;
    try (destruct (overlayMode s); reflexivity);
    try (destruct (showChecker s); reflexivity);
    try (destruct (stroke s); reflexivity).
Qed.

Section Settling.

Variable P : Platform.

Lemma metrics_factory_value (s : State) (fs : Fonts) :
  value_of (metrics_factory P s fs) = metrics_value P s.
Proof.
  unfold metrics_factory, metrics_value.
  destruct (fontA s) as [a|]; [|reflexivity].
  destruct (fontB s) as [b|]; [|reflexivity].
  rewrite value_of_bind. unfold createElement_canvas_getContext at 1 2.
  destruct (context2d P TmpCtx); [|reflexivity].
  rewrite value_of_mk, store_of_mk.
  rewrite value_of_bind, value_of_bind. unfold ret, value_of at 1. simpl.
  rewrite (measureString_value P (fontSize s) TmpCtx (name a) (text s)
             (letterSpacing s) (set_font_of TmpCtx default_font fs)).
  rewrite (measureString_value P (fontSize s) TmpCtx (name b) (text s)
             (letterSpacing s) (store_of _)).
  reflexivity.
Qed.

Lemma metrics_value_same_deps (s t : State) :
  metrics_deps_same s t = true -> metrics_value P s = metrics_value P t.
Proof.
  rewrite metrics_deps_same_eq. intros (HA & HB & Ht & Hl & Hf).
  unfold metrics_value, measured_width. now rewrite HA, HB, Ht, Hl, Hf.
Qed.

(** What [useMemo] returns for the metrics. *)
Lemma useMemo_metrics (s : State) (cell : option (State * option Metrics)) fs :
  (forall s0 v, cell = Some (s0, v) -> v = metrics_value P s0) ->
  let r := useMemo metrics_deps_same (metrics_factory P) s cell fs in
  fst (value_of r) = metrics_value P s
  /\ (exists s0, snd (value_of r) = Some (s0, metrics_value P s0)
                 /\ metrics_deps_same s0 s = true)
  /\ (fontA s = None \/ fontB s = None -> log_of r = []).
Proof.
  intros Hcell r.
  assert (Hrefl : metrics_deps_same s s = true)
    by (apply metrics_deps_same_eq; repeat split).
  assert (Hmiss :
    let r := bind (metrics_factory P s) (fun v' => ret (v', Some (s, v'))) fs in
    fst (value_of r) = metrics_value P s
    /\ (exists s0, snd (value_of r) = Some (s0, metrics_value P s0)
                   /\ metrics_deps_same s0 s = true)
    /\ (fontA s = None \/ fontB s = None -> log_of r = [])).
  { cbv zeta. rewrite value_of_bind, log_of_bind. unfold ret at 1 2 3.
    rewrite value_of_mk, log_of_mk, app_nil_r, metrics_factory_value.
    split; [reflexivity|]. split; [exists s; auto|].
    intros Hslot. now rewrite metrics_factory_empty_slot. }
  unfold r, useMemo. destruct cell as [[s0 v]|]; [|exact Hmiss].
  destruct (metrics_deps_same s0 s) eqn:E; [|exact Hmiss].
  unfold ret. rewrite value_of_mk, log_of_mk. simpl.
  rewrite (Hcell s0 v eq_refl).
  split; [now apply metrics_value_same_deps|].
  split; [exists s0; auto | reflexivity].
Qed.

Lemma GlyphCell_effects_nil (s : State) (i : nat) fs :
  GlyphCell_effects P s i [] fs = (tt, fs, []).
Proof. reflexivity. Qed.

(** A render settles the component. *)
Lemma render_settled (c : Component) (s : State) (h : Heap) :
  cells_hold P c -> settled P (render P c s h).
Proof.
  intros [Hmemo Hsurf]. unfold render.
  destruct (useMemo gridChars_deps_same _ s (gridChars_memo c) (ctx_fonts c))
    as [[gc fs1] l0].
  pose proof (@useMemo_metrics s (metrics_memo c) fs1 Hmemo) as Hm.
  cbv zeta in Hm.
  destruct (useMemo metrics_deps_same (metrics_factory P) s (metrics_memo c) fs1)
    as [[mt fs2] rlog].
  rewrite value_of_mk, log_of_mk in Hm. destruct Hm as (Hv & Hc & Hl).
  set (rerun := match drawCanvas_ran c with
                | Some s0 => negb (drawCanvas_deps_same s0 s)
                | None => true
                end).
  assert (Hd : (if rerun then drawCanvas P s else ret tt) fs2
               = ((if rerun then drawCanvas P s else ret tt) fs2)) by reflexivity.
  destruct ((if rerun then drawCanvas P s else ret tt) fs2)
    as [[u fs3] dlog] eqn:Ed. clear Hd.
  set (v := render_view s (fst gc) (fst mt)).
  destruct (GlyphCell_effects P s 0 (grid_cells v) fs3) as [[u' fs4] clog] eqn:Ec.
  unfold settled. cbn [state view metrics_memo drawCanvas_ran surface
                       render_calls cell_calls].
  split; [exists (fst gc); unfold v; now rewrite Hv|].
  split; [exact Hc|].
  split.
  - destruct rerun eqn:Er.
    + exists s, fs2. split; [reflexivity|].
      split; [apply drawCanvas_deps_same_refl|].
      now rewrite Ed.
    + unfold rerun in Er. destruct (drawCanvas_ran c) as [s0|] eqn:E0;
        [|discriminate].
      destruct (Hsurf s0 eq_refl) as [fs0 Hs0].
      exists s0, fs0. split; [reflexivity|].
      split; [now apply negb_false_iff in Er | exact Hs0].
  - intros Hslot. split; [now apply Hl|].
    unfold v in Ec. rewrite grid_cells_empty_slot in Ec by exact Hslot.
    rewrite GlyphCell_effects_nil in Ec. now inversion Ec.
Qed.

Lemma settled_cells_hold (c : Component) : settled P c -> cells_hold P c.
Proof.
  intros (_ & (s0 & Hm & _) & (s1 & fs & Hr & _ & Hs) & _). split.
  - intros s0' v E. rewrite Hm in E. now inversion E.
  - intros s0' E. rewrite Hr in E. inversion E; subst. now exists fs.
Qed.

Lemma mounted_settled : settled P (mounted P).
Proof.
  apply render_settled. split; [intros s0 v E | intros s0 E]; discriminate.
Qed.

Lemma commit_settled (us : list Update) : forall c,
  settled P c -> settled P (commit P us c).
Proof.
  induction us as [|u rest IH]; intros c Hc; [exact Hc|].
  cbn [commit]. destruct (apply_update P u (state c, heap c)) as [s' h'].
  apply IH, render_settled, settled_cells_hold, Hc.
Qed.

Lemma step_settled (c : Component) (e : Event) :
  settled P c -> settled P (step P c e).
Proof.
  intros Hc. unfold step.
  destruct (handler_of P (state c) e (heap c)) as [[u h] us].
  apply commit_settled. exact Hc.
Qed.

(** The component is settled after every run of events. *)
Lemma run_settled (es : list Event) : forall c,
  settled P c -> settled P (run P es c).
Proof.
  induction es as [|e rest IH]; intros c Hc; [exact Hc|].
  unfold run in *. cbn [fold_left]. apply IH, step_settled, Hc.
Qed.

End Settling.

(** ** The metrics shown *)

(** C2. After any run of events, the metrics the component shows are those
    of its current text, letter spacing, font size and fonts: the two
    widths are what [measureString] returns for them and [diff] is the
    second width minus the first, with nothing rounded. With both fonts
    loaded and a measuring context at hand the metrics are shown. *)
Theorem metrics_diff_is_widthB_minus_widthA :
  forall (P : Platform) (es : list Event) (a b : LoadedFont),
    let c := run P es (mounted P) in
    fontA (state c) = Some a ->
    fontB (state c) = Some b ->
    (forall m, metrics_panel (view c) = Some m ->
       wA m = measured_width P (state c) (name a)
       /\ wB m = measured_width P (state c) (name b)
       /\ diff m = wB m - wA m)
    /\ (context2d P TmpCtx = true ->
        exists m, metrics_panel (view c) = Some m).
Proof.
  intros P es a b c HA HB.
  destruct (run_settled es (mounted_settled P)) as ((gc & Hview) & _).
  fold c in Hview. rewrite Hview. cbn [metrics_panel render_view].
  unfold metrics_value. rewrite HA, HB.
  destruct (context2d P TmpCtx).
  - split; [|eauto]. intros m E. inversion E; subst m. simpl. auto.
  - split; [intros m E|intros E]; discriminate.
Qed.

Lemma metrics_diff_witness :
  let c := run Samples.browser
             [Drop [Samples.regular_ttf; Samples.bold_woff2];
              Control (SetText (lit "Hi"));
              Control (SetLetterSpacing 3)]
             (mounted Samples.browser) in
  exists m, metrics_panel (view c) = Some m
            /\ wA m == 26 /\ wB m == 30 /\ diff m == 4.
Proof.
  intros c.
  assert (HA : fontA (state c) = Some Samples.regular_font)
    by (vm_compute; reflexivity).
  assert (HB : fontB (state c) = Some Samples.bold_font)
    by (vm_compute; reflexivity).
  destruct (@metrics_diff_is_widthB_minus_widthA Samples.browser
              [Drop [Samples.regular_ttf; Samples.bold_woff2];
               Control (SetText (lit "Hi"));
               Control (SetLetterSpacing 3)]
              Samples.regular_font Samples.bold_font HA HB) as [Hm Hex].
  destruct (Hex eq_refl) as [m Em]. exists m. split; [exact Em|].
  destruct (Hm m Em) as (H1 & H2 & H3).
  rewrite H3, H2, H1. vm_compute. repeat split.
Defined.

(** ** Without two fonts *)

(** C5. After any run of events, when slot A or slot B is empty: the last
    run of [drawCanvas] made only sizing and background calls on the main
    context, followed by the three calls that write the placeholder; the
    metrics are absent and computing them called nothing; the view has no
    grid cell and no cell effect called anything. No text is measured, no
    glyph is drawn and no composite operation is set. *)
Theorem placeholder_only_without_both_fonts :
  forall (P : Platform) (es : list Event),
    let c := run P es (mounted P) in
    fontA (state c) = None \/ fontB (state c) = None ->
    (exists bg,
       background_on MainCtx bg
       /\ surface c
          = if context2d P MainCtx then bg ++ placeholder_calls else [])
    /\ metrics_panel (view c) = None
    /\ render_calls c = []
    /\ grid_cells (view c) = []
    /\ cell_calls c = [].
Proof.
  intros P es c Hslot.
  destruct (run_settled es (mounted_settled P))
    as ((gc & Hview) & _ & (s0 & fs & _ & Hdeps & Hsurf) & Hcalls).
  fold c in Hview, Hdeps, Hsurf, Hcalls.
  destruct (Hcalls Hslot) as [Hr Hc].
  split; [|split; [|split; [exact Hr|split; [|exact Hc]]]].
  - rewrite Hsurf. apply drawCanvas_placeholder.
    destruct (drawCanvas_deps_same_slots _ _ Hdeps) as [-> ->]. exact Hslot.
  - rewrite Hview. cbn [metrics_panel render_view]. unfold metrics_value.
    destruct Hslot as [H|H]; rewrite H; [reflexivity|].
    destruct (fontA (state c)); reflexivity.
  - rewrite Hview. now apply grid_cells_empty_slot.
Qed.

Lemma placeholder_only_witness :
  let c := run Samples.browser
             [Drop [Samples.regular_ttf];
              Control ToggleGridOpen;
              Control (SetGridCharsPreset Digits)]
             (mounted Samples.browser) in
  fontB (state c) = None
  /\ grid_cells (view c) = []
  /\ metrics_panel (view c) = None
  /\ In (MainCtx, FillText placeholder_text 24 40) (surface c).
Proof.
  intros c.
  assert (HB : fontB (state c) = None) by (vm_compute; reflexivity).
  destruct (@placeholder_only_without_both_fonts Samples.browser
              [Drop [Samples.regular_ttf];
               Control ToggleGridOpen;
               Control (SetGridCharsPreset Digits)] (or_intror HB))
    as ((bg & _ & Hs) & Hm & _ & Hg & _).
  fold c in Hs, Hm, Hg.
  split; [exact HB|]. split; [exact Hg|]. split; [exact Hm|].
  rewrite Hs. simpl. apply in_or_app. right. simpl. auto.
Defined.

(** ** The drag counter and the highlight *)

Section Dragging.

Variable P : Platform.

Lemma handle_drag (d : Drag) (s : State) (h : Heap) :
  let sh := handle P (drag_event d) (s, h) in
  match d with
  | Enter =>
      dragCounter (snd sh) = (dragCounter h + 1)%Z
      /\ isDragging (fst sh) = true
  | Leave =>
      dragCounter (snd sh) = (dragCounter h - 1)%Z
      /\ isDragging (fst sh)
         = if (dragCounter h - 1 <=? 0)%Z then false else isDragging s
  end.
Proof.
  destruct d; cbv zeta.
  - split; reflexivity.
  - unfold handle, drag_event, handler_of, onDragLeave, bind, get_dragCounter,
      set_dragCounter, fst, snd. cbn [dragCounter].
    destruct (dragCounter h - 1 <=? 0)%Z; split; reflexivity.
Qed.

Lemma drags_snoc (ds : list Drag) (d : Drag) sh :
  drags P (ds ++ [d]) sh = handle P (drag_event d) (drags P ds sh).
Proof. unfold drags. rewrite map_app, fold_left_app. reflexivity. Qed.

Lemma balance_snoc (ds : list Drag) (d : Drag) :
  balance (ds ++ [d])
  = (balance ds + match d with Enter => 1 | Leave => -1 end)%Z.
Proof.
  induction ds as [|x ds IH]; [destruct d; reflexivity|].
  destruct x; cbn [app balance]; rewrite IH; lia.
Qed.

(** The counter is the balance of the events; it being positive makes the
    highlight active; the highlight being active makes it positive as long
    as the balance never went below zero. *)
Lemma drags_from_start (ds : list Drag) :
  let sh := drags P ds (initial_state, initial_heap) in
  dragCounter (snd sh) = balance ds
  /\ ((0 < balance ds)%Z -> isDragging (fst sh) = true)
  /\ ((forall n, (0 <= balance (firstn n ds))%Z) ->
      isDragging (fst sh) = true -> (0 < balance ds)%Z).
Proof.
  induction ds as [|d ds IH] using rev_ind; cbv zeta.
  - split; [reflexivity|]. split; [intros H; inversion H|].
    intros _ H. discriminate.
  - cbv zeta in IH. destruct IH as (Hc & Hpos & Hneg).
    rewrite drags_snoc, balance_snoc.
    destruct (drags P ds (initial_state, initial_heap)) as [s h].
    pose proof (handle_drag d s h) as Hd. cbv zeta in Hd.
    cbn [fst snd] in Hc, Hpos, Hneg.
    assert (Hpre : (forall n, (0 <= balance (firstn n (ds ++ [d])))%Z) ->
                   (0 <= balance ds)%Z
                   /\ forall n, (0 <= balance (firstn n ds))%Z).
    { intros H. split.
      - specialize (H (List.length ds)).
        rewrite firstn_app, Nat.sub_diag, firstn_all in H.
        cbn [firstn] in H. now rewrite app_nil_r in H.
      - intros n. destruct (Nat.le_gt_cases n (List.length ds)) as [Hn|Hn].
        + specialize (H n). rewrite firstn_app in H.
          replace (n - List.length ds)%nat with 0%nat in H by lia.
          cbn [firstn] in H. now rewrite app_nil_r in H.
        + rewrite firstn_all2 by lia.
          specialize (H (List.length ds)).
          rewrite firstn_app, Nat.sub_diag, firstn_all in H.
          cbn [firstn] in H. now rewrite app_nil_r in H. }
    destruct d; destruct Hd as [Hd1 Hd2]; rewrite Hd1, Hd2, Hc.
    + split; [reflexivity|]. split; [reflexivity|].
      intros Hall _. apply Hpre in Hall. lia.
    + split; [reflexivity|].
      destruct (balance ds - 1 <=? 0)%Z eqn:E.
      * apply Z.leb_le in E. split; [lia|]. intros _ H; discriminate.
      * apply Z.leb_gt in E. split; [intros _; apply Hpos; lia|].
        intros _ _. lia.
Qed.

Lemma drags_enters (n : nat) : forall s h,
  let sh := drags P (repeat Enter n) (s, h) in
  dragCounter (snd sh) = (dragCounter h + Z.of_nat n)%Z.
Proof.
  induction n as [|n IH]; intros s h; cbv zeta.
  - simpl. lia.
  - cbn [repeat]. unfold drags in *. cbn [map fold_left].
    destruct (handle P (drag_event Enter) (s, h)) as [s1 h1] eqn:E.
    pose proof (handle_drag Enter s h) as Hd. cbv zeta in Hd.
    rewrite E in Hd. cbn [fst snd] in Hd. destruct Hd as [Hd _].
    cbv zeta in IH. rewrite IH, Hd. lia.
Qed.

Lemma drags_leaves (n : nat) : forall s h,
  dragCounter h = Z.of_nat n -> (0 < n)%nat ->
  isDragging (fst (drags P (repeat Leave n) (s, h))) = false.
Proof.
  induction n as [|n IH]; intros s h Hc Hn; [lia|].
  cbn [repeat]. unfold drags in *. cbn [map fold_left].
  destruct (handle P (drag_event Leave) (s, h)) as [s1 h1] eqn:E.
  pose proof (handle_drag Leave s h) as Hd. cbv zeta in Hd.
  rewrite E in Hd. cbn [fst snd] in Hd. destruct Hd as [Hd1 Hd2].
  destruct n as [|n'].
  - cbn [repeat map fold_left fst]. rewrite Hd2.
    replace (dragCounter h - 1 <=? 0)%Z with true; [reflexivity|].
    symmetry. apply Z.leb_le. lia.
  - apply IH; lia.
Qed.

End Dragging.

(** C7, amended. After any sequence of drag enter and drag leave events on
    the mounted component the counter is the number of enters minus the
    number of leaves, and a positive counter means an active highlight.
    The highlight is active exactly when the counter is positive provided
    no leave event arrived without an enter event before it to match. In
    particular N enters followed by N leaves leave the highlight
    inactive. *)
Theorem highlight_follows_drag_counter :
  forall (P : Platform) (ds : list Drag),
    let c := run P (map drag_event ds) (mounted P) in
    let counter := dragCounter (heap c) in
    let highlighted := drop_zone_highlighted (view c) in
    counter = balance ds
    /\ ((0 < counter)%Z -> highlighted = true)
    /\ ((forall n, (0 <= balance (firstn n ds))%Z) ->
        (highlighted = true <-> (0 < counter)%Z))
    /\ (forall n, ds = repeat Enter n ++ repeat Leave n ->
        highlighted = false).
Proof.
  intros P ds c counter highlighted.
  destruct (run_settled (map drag_event ds) (mounted_settled P))
    as ((gc & Hview) & _).
  fold c in Hview.
  assert (Hhl : highlighted = isDragging (state c))
    by (unfold highlighted; rewrite Hview; reflexivity).
  pose proof (run_state_heap P (map drag_event ds) (mounted P)) as Hrun.
  fold c in Hrun.
  assert (Hstart : (state (mounted P), heap (mounted P))
                   = (initial_state, initial_heap)).
  { unfold mounted.
    destruct (render_state_heap P unmounted initial_state initial_heap)
      as [-> ->]. reflexivity. }
  rewrite Hstart in Hrun. fold (drags P ds (initial_state, initial_heap)) in Hrun.
  pose proof (drags_from_start P ds) as H. cbv zeta in H.
  rewrite <- Hrun in H. cbn [fst snd] in H. fold counter in H.
  destruct H as (Hc & Hpos & Hneg). rewrite Hhl.
  split; [exact Hc|]. split; [rewrite Hc; exact Hpos|].
  split.
  - intros Hall. rewrite Hc. split; [apply Hneg, Hall | exact Hpos].
  - intros n ->. replace (isDragging (state c))
      with (isDragging (fst (state c, heap c))) by reflexivity.
    rewrite Hrun. unfold drags. rewrite map_app, fold_left_app.
    fold (drags P (repeat Enter n) (initial_state, initial_heap)).
    destruct n as [|n]; [reflexivity|].
    pose proof (drags_enters P (S n) initial_state initial_heap) as He.
    cbv zeta in He.
    destruct (drags P (repeat Enter (S n)) (initial_state, initial_heap))
      as [s1 h1].
    cbn [snd] in He.
    fold (drags P (repeat Leave (S n)) (s1, h1)).
    apply drags_leaves; [rewrite He; reflexivity | lia].
Qed.

Lemma highlight_follows_drag_counter_witness :
  let c := run Samples.browser
             (map drag_event [Enter; Enter; Leave])
             (mounted Samples.browser) in
  dragCounter (heap c) = 1%Z /\ drop_zone_highlighted (view c) = true.
Proof.
  intros c.
  destruct (@highlight_follows_drag_counter Samples.browser
              [Enter; Enter; Leave]) as (Hc & _ & Hiff & _).
  fold c in Hc, Hiff. split; [exact Hc|].
  apply Hiff; [|rewrite Hc; reflexivity].
  intros [|[|[|[|n]]]]; vm_compute; discriminate.
Defined.

(** C7 as stated fails: after a leave followed by an enter the highlight is
    active while the counter is 0. *)
Lemma highlight_active_with_counter_zero :
  let c := run Samples.browser (map drag_event [Leave; Enter])
             (mounted Samples.browser) in
  drop_zone_highlighted (view c) = true
  /\ dragCounter (heap c) = 0%Z
  /\ ~ (drop_zone_highlighted (view c) = true <-> (0 < dragCounter (heap c))%Z).
Proof.
  cbv zeta.
  assert (E1 : drop_zone_highlighted
                 (view (run Samples.browser (map drag_event [Leave; Enter])
                          (mounted Samples.browser))) = true)
    by (vm_compute; reflexivity).
  assert (E2 : dragCounter
                 (heap (run Samples.browser (map drag_event [Leave; Enter])
                          (mounted Samples.browser))) = 0%Z)
    by (vm_compute; reflexivity).
  split; [exact E1|]. split; [exact E2|].
  rewrite E1, E2. intros [H _]. specialize (H eq_refl). lia.
Qed.

(** ** The width of the surface *)

Section SurfaceWidth.

Variable P : Platform.

Lemma keeps_width_app l1 l2 :
  keeps_width l1 -> keeps_width l2 -> keeps_width (l1 ++ l2).
Proof. unfold keeps_width. rewrite Forall_app. auto. Qed.

Lemma style_width_after_app ctx l1 : forall l2 w,
  style_width_after ctx (l1 ++ l2) w
  = style_width_after ctx l2 (style_width_after ctx l1 w).
Proof.
  induction l1 as [|[c cl] l1 IH]; intros l2 w; [reflexivity|].
  destruct cl; cbn [app style_width_after]; apply IH.
Qed.

Lemma style_width_after_keeps ctx l : forall w,
  keeps_width l -> style_width_after ctx l w = w.
Proof.
  induction l as [|[c cl] l IH]; intros w H; [reflexivity|].
  inversion H as [|e l' Hcl Hl]; subst.
  destruct cl; cbn [style_width_after]; try apply IH; try exact Hl.
  discriminate.
Qed.

Lemma style_width_after_size_canvas ctx w h dpr fs acc :
  style_width_after ctx (log_of (size_canvas ctx w h dpr fs)) acc = Some w.
Proof.
  unfold size_canvas, bind, set_canvas_width, set_canvas_height, call, emit,
    log_of. simpl.
  destruct ctx; simpl; try reflexivity. now rewrite Nat.eqb_refl.
Qed.

Lemma drawChecker_row_keeps_width ctx y w size fuel : forall x fs,
  keeps_width (log_of (drawChecker_row fuel ctx x y w size fs)).
Proof.
  induction fuel as [|fuel IH]; intros x fs; simpl; [constructor|].
  destruct (Qlt_bool x w); [|constructor].
  rewrite !log_of_bind.
  repeat apply keeps_width_app; try apply IH; repeat constructor.
Qed.

Lemma drawChecker_keeps_width ctx w h size fs :
  keeps_width (log_of (drawChecker ctx w h size fs)).
Proof.
  unfold drawChecker. generalize (loop_passes h size) as fuel.
  generalize 0 as y. intros y fuel. revert y fs.
  induction fuel as [|fuel IH]; intros y fs; simpl; [constructor|].
  destruct (Qlt_bool y h); [|constructor].
  rewrite !log_of_bind.
  apply keeps_width_app; [apply drawChecker_row_keeps_width | apply IH].
Qed.

Lemma measureString_chars_keeps_width ctx k chs : forall w fs,
  keeps_width (log_of (measureString_chars P ctx chs w k fs)).
Proof.
  induction chs as [|ch rest IH]; intros w fs; simpl; [constructor|].
  rewrite log_of_bind.
  apply keeps_width_app; [repeat constructor | apply IH].
Qed.

Lemma measureString_keeps_width fontSize ctx fontName content k fs :
  keeps_width (log_of (measureString P fontSize ctx fontName content k fs)).
Proof.
  rewrite measureString_eval; cbv zeta.
  destruct (Z.eqb k 0); rewrite log_of_mk; [repeat constructor|].
  constructor; [reflexivity|]. constructor; [reflexivity|].
  apply measureString_chars_keeps_width.
Qed.

Lemma drawString_chars_keeps_width ctx y k st chs : forall cx fs,
  keeps_width (log_of (drawString_chars P ctx chs cx y k st fs)).
Proof.
  induction chs as [|ch rest IH]; intros cx fs; simpl; [constructor|].
  rewrite !log_of_bind.
  repeat apply keeps_width_app; try apply IH;
    try (destruct st; repeat constructor); repeat constructor.
Qed.

Lemma drawString_keeps_width fontSize ctx fontName content x y color k st sw fs :
  keeps_width
    (log_of (drawString P fontSize ctx fontName content x y color k st sw fs)).
Proof.
  unfold drawString. rewrite !log_of_bind.
  repeat (apply keeps_width_app; [repeat constructor|]).
  destruct (Z.eqb k 0).
  - rewrite log_of_bind.
    apply keeps_width_app; [destruct st|]; repeat constructor.
  - apply drawString_chars_keeps_width.
Qed.

Lemma draw_overlay_keeps_width s ctx a b content x y fs :
  keeps_width (log_of (draw_overlay P s ctx a b content x y fs)).
Proof.
  unfold draw_overlay. destruct (overlayMode s); rewrite !log_of_bind;
    repeat (apply keeps_width_app;
            try apply drawString_keeps_width; try (repeat constructor)).
Qed.

(** With both fonts and a context, [drawCanvas] measures the text in the
    two fonts and gives the canvas the width computed from the two
    measures; nothing after that changes it. *)
Lemma drawCanvas_logical_width (s : State) (a b : LoadedFont) (fs : Fonts) :
  fontA s = Some a -> fontB s = Some b ->
  context2d P MainCtx = true -> context2d P TmpCtx = true ->
  logical_width (log_of (drawCanvas P s fs))
  = Some (surface_width (measured_width P s (name a))
                        (measured_width P s (name b))).
Proof.
  intros HA HB Hctx Htmp. unfold drawCanvas, logical_width.
  rewrite Hctx, HA, HB. cbn [negb]. cbv zeta.
  rewrite 4 log_of_bind. rewrite !style_width_after_app.
  set (fs2 := store_of (when (showChecker s) _ _)).
  unfold createElement_canvas_getContext. rewrite Htmp.
  rewrite value_of_mk, store_of_mk, log_of_mk. cbn [style_width_after].
  generalize (set_font_of TmpCtx default_font fs2) as fs3.
  match goal with
  | |- forall _, style_width_after _ _ ?acc = _ => generalize acc
  end.
  intros acc fs3.
  rewrite 3 log_of_bind. rewrite !style_width_after_app.
  rewrite style_width_after_keeps.
  - rewrite style_width_after_size_canvas.
    rewrite (measureString_value P (fontSize s) TmpCtx (name a) (text s)
               (letterSpacing s) fs3).
    rewrite (measureString_value P (fontSize s) TmpCtx (name b) (text s)
               (letterSpacing s) (store_of _)).
    reflexivity.
  - rewrite !log_of_bind.
    apply keeps_width_app;
      [destruct (showChecker s);
         [apply drawChecker_keeps_width | repeat constructor]|].
    apply keeps_width_app; [apply draw_overlay_keeps_width|].
    repeat (apply keeps_width_app; [repeat constructor|]).
    repeat constructor.
Qed.

End SurfaceWidth.

Lemma drawCanvas_deps_same_measure (s t : State) :
  drawCanvas_deps_same s t = true ->
  fontA s = fontA t /\ fontB s = fontB t /\ text s = text t
  /\ fontSize s = fontSize t /\ letterSpacing s = letterSpacing t.
Proof.
  unfold drawCanvas_deps_same.
  rewrite !andb_true_iff, !slot_is_eq, eqb_eq, !Z.eqb_eq. tauto.
Qed.

(** C6, amended. After any run of events, with both fonts loaded, the
    logical width of the main surface is
    [max(320, ceil(max(widthA, widthB) + 2 * 32))], the two widths being
    those [measureString] returns for the current text, font size and
    letter spacing: the sum of the claim rounded up to a whole pixel and
    never less than 320. It is [max(widthA, widthB) + 2 * 32] itself
    whenever that sum is a whole number not below 320. *)
Theorem surface_width_is_padded_max_rounded_up :
  forall (P : Platform) (es : list Event) (a b : LoadedFont),
    let c := run P es (mounted P) in
    fontA (state c) = Some a ->
    fontB (state c) = Some b ->
    context2d P MainCtx = true ->
    context2d P TmpCtx = true ->
    let widthA := measured_width P (state c) (name a) in
    let widthB := measured_width P (state c) (name b) in
    exists w,
      logical_width (surface c) = Some w
      /\ w = Math_max 320 (Math_ceil (Math_max widthA widthB + 32 * 2))
      /\ 320 <= w
      /\ Math_max widthA widthB + 32 * 2 <= w
      /\ (forall n : Z,
            Math_max widthA widthB + 32 * 2 == inject_Z n ->
            (320 <= n)%Z ->
            w == Math_max widthA widthB + 32 * 2).
Proof.
  intros P es a b c HA HB Hctx Htmp widthA widthB.
  destruct (run_settled es (mounted_settled P))
    as (_ & _ & (s0 & fs & _ & Hdeps & Hsurf) & _).
  fold c in Hdeps, Hsurf.
  destruct (drawCanvas_deps_same_measure _ _ Hdeps)
    as (EA & EB & Et & Ef & El).
  exists (Math_max 320 (Math_ceil (Math_max widthA widthB + 32 * 2))).
  split; [|split; [reflexivity|]].
  - rewrite Hsurf.
    rewrite (@drawCanvas_logical_width P s0 a b fs) by congruence.
    unfold widthA, widthB, measured_width. rewrite Et, Ef, El. reflexivity.
  - set (m := Math_max widthA widthB + 32 * 2).
    split; [apply Q.le_max_l|]. split.
    + apply Qle_trans with (Math_ceil m);
        [apply Qle_ceiling | apply Q.le_max_r].
    + intros n Hn H320. fold m in Hn.
      assert (Hc : Qceiling m = n) by (rewrite Hn; apply Qceiling_Z).
      unfold Math_max at 1, Math_ceil. rewrite Hc, Hn.
      apply Q.max_r. change 320 with (inject_Z 320).
      rewrite <- Zle_Qle. exact H320.
Qed.

Lemma surface_width_witness :
  let c := run Samples.browser
             [Drop [Samples.regular_ttf; Samples.bold_woff2]]
             (mounted Samples.browser) in
  exists w, logical_width (surface c) = Some w /\ w == 496.
Proof.
  intros c.
  assert (HA : fontA (state c) = Some Samples.regular_font)
    by (vm_compute; reflexivity).
  assert (HB : fontB (state c) = Some Samples.bold_font)
    by (vm_compute; reflexivity).
  destruct (@surface_width_is_padded_max_rounded_up Samples.browser
              [Drop [Samples.regular_ttf; Samples.bold_woff2]]
              Samples.regular_font Samples.bold_font HA HB eq_refl eq_refl)
    as (w & Hw & Hval & _).
  exists w. split; [exact Hw|]. rewrite Hval. vm_compute. reflexivity.
Defined.

(** C6 as stated fails twice over. With the text [Hi] the widths are 20
    and 24 and the logical width is 320, not 24 + 64. With code units of
    10.5 pixels and a text of 31 code units the widths are 325.5 and the
    logical width is 390, not 325.5 + 64. *)
Lemma surface_width_is_not_padded_max :
  (let c := run Samples.browser
              [Drop [Samples.regular_ttf; Samples.bold_woff2];
               Control (SetText (lit "Hi"))]
              (mounted Samples.browser) in
   let s := state c in
   fontA s = Some Samples.regular_font
   /\ fontB s = Some Samples.bold_font
   /\ measured_width Samples.browser s (name Samples.regular_font) == 20
   /\ measured_width Samples.browser s (name Samples.bold_font) == 24
   /\ logical_width (surface c) = Some 320
   /\ ~ 320 == Math_max 20 24 + 2 * 32)
  /\
  (let c := run Samples.browser_half_pixel
              [Drop [Samples.regular_ttf; Samples.bold_woff2];
               Control (SetText (lit "Hamburgefonstiv 0123456789 ABCD"))]
              (mounted Samples.browser_half_pixel) in
   let s := state c in
   fontA s = Some Samples.regular_font
   /\ fontB s = Some Samples.bold_font
   /\ measured_width Samples.browser_half_pixel s
        (name Samples.regular_font) == 651 # 2
   /\ measured_width Samples.browser_half_pixel s
        (name Samples.bold_font) == 651 # 2
   /\ logical_width (surface c) = Some 390
   /\ ~ 390 == Math_max (651 # 2) (651 # 2) + 2 * 32).
Proof.
  split; cbv zeta.
  - split; [vm_compute; reflexivity|]. split; [vm_compute; reflexivity|].
    split; [vm_compute; reflexivity|]. split; [vm_compute; reflexivity|].
    split; [vm_compute; reflexivity|]. vm_compute. discriminate.
  - split; [vm_compute; reflexivity|]. split; [vm_compute; reflexivity|].
    split; [vm_compute; reflexivity|]. split; [vm_compute; reflexivity|].
    split; [vm_compute; reflexivity|]. vm_compute. discriminate.
Qed.

(** ** The loops of drawChecker run to their end

    The loops of [drawChecker] are modelled with a number of passes computed
    from their bounds. With a positive [size] that number is enough: no
    larger number of passes would make a further call. *)

Section CheckerLoops.

Lemma Qlt_bool_false (a b : Q) : b <= a -> Qlt_bool a b = false.
Proof.
  intros H. unfold Qlt_bool. apply negb_false_iff. now apply Qle_bool_iff.
Qed.

Lemma Qlt_bool_true (a b : Q) : Qlt_bool a b = true -> a < b.
Proof.
  unfold Qlt_bool. rewrite negb_true_iff. intros H.
  apply Qnot_le_lt. intros Hle. apply Qle_bool_iff in Hle. congruence.
Qed.

Lemma loop_passes_cover (bound size : Q) :
  0 < size -> bound <= inject_Z (Z.of_nat (loop_passes bound size)) * size.
Proof.
  intros Hs. unfold loop_passes.
  assert (H1 : bound / size <= inject_Z (Qceiling (bound / size)))
    by apply Qle_ceiling.
  assert (H2 : inject_Z (Qceiling (bound / size))
               <= inject_Z (Z.of_nat (Z.to_nat (Qceiling (bound / size))))).
  { rewrite <- Zle_Qle. lia. }
  assert (E : bound / size * size == bound).
  { field. intros E. rewrite E in Hs. now apply Qlt_irrefl in Hs. }
  rewrite <- E at 1.
  apply Qmult_le_compat_r; [|now apply Qlt_le_weak].
  now apply Qle_trans with (inject_Z (Qceiling (bound / size))).
Qed.

Lemma inject_Z_succ (n : nat) :
  inject_Z (Z.of_nat (S n)) == inject_Z (Z.of_nat n) + 1.
Proof. rewrite Nat2Z.inj_succ, <- Z.add_1_r, inject_Z_plus. reflexivity. Qed.

Lemma drawChecker_row_passes ctx y w size (extra : nat) :
  0 < size ->
  forall fuel x,
    w - x <= inject_Z (Z.of_nat fuel) * size ->
    drawChecker_row (fuel + extra) ctx x y w size
    = drawChecker_row fuel ctx x y w size.
Proof.
  intros Hs. induction fuel as [|fuel IH]; intros x Hx.
  - assert (Hle : w <= x)
      by (change (inject_Z (Z.of_nat 0)) with 0 in Hx; lra).
    destruct extra as [|extra]; [reflexivity|].
    cbn [Nat.add drawChecker_row]. now rewrite Qlt_bool_false.
  - cbn [Nat.add drawChecker_row].
    destruct (Qlt_bool x w); [|reflexivity].
    rewrite IH; [reflexivity|].
    rewrite inject_Z_succ in Hx. lra.
Qed.

Lemma drawChecker_rows_passes ctx w h size (extra : nat) :
  0 < size ->
  forall fuel y,
    h - y <= inject_Z (Z.of_nat fuel) * size ->
    drawChecker_rows (fuel + extra) ctx y w h size
    = drawChecker_rows fuel ctx y w h size.
Proof.
  intros Hs. induction fuel as [|fuel IH]; intros y Hy.
  - assert (Hle : h <= y)
      by (change (inject_Z (Z.of_nat 0)) with 0 in Hy; lra).
    destruct extra as [|extra]; [reflexivity|].
    cbn [Nat.add drawChecker_rows]. now rewrite Qlt_bool_false.
  - cbn [Nat.add drawChecker_rows].
    destruct (Qlt_bool y h); [|reflexivity].
    rewrite IH; [reflexivity|].
    rewrite inject_Z_succ in Hy. lra.
Qed.

(** Every loop of [drawChecker] ends because its condition fails. *)
Lemma drawChecker_passes_enough ctx w h size (extra : nat) :
  0 < size ->
  drawChecker_rows (loop_passes h size + extra) ctx 0 w h size
  = drawChecker ctx w h size
  /\ forall y,
       drawChecker_row (loop_passes w size + extra) ctx 0 y w size
       = drawChecker_row (loop_passes w size) ctx 0 y w size.
Proof.
  intros Hs. split.
  - apply drawChecker_rows_passes; [exact Hs|].
    pose proof (loop_passes_cover h Hs). lra.
  - intros y. apply drawChecker_row_passes; [exact Hs|].
    pose proof (loop_passes_cover w Hs). lra.
Qed.

End CheckerLoops.

(** ** The names of the fonts *)

Section Names.

Lemma utf8_points_ascii (bs : list N) :
  Forall (fun b => (b < 128)%N) bs -> utf8_points bs = bs.
Proof.
  induction 1 as [|b bs Hb _ IH]; [reflexivity|].
  cbn [utf8_points]. apply N.ltb_lt in Hb. now rewrite Hb, IH.
Qed.

Lemma flat_map_utf16_ascii (ps : list N) :
  Forall (fun b => (b < 128)%N) ps -> flat_map utf16_of_point ps = ps.
Proof.
  induction 1 as [|b bs Hb _ IH]; [reflexivity|].
  cbn [flat_map]. rewrite IH. unfold utf16_of_point.
  replace (b <? 65536)%N with true; [reflexivity|].
  symmetry. apply N.ltb_lt. lia.
Qed.

Lemma string_of_uint_units (d : Decimal.uint) :
  Forall decimal_unit
    (map N_of_ascii (list_ascii_of_string (NilEmpty.string_of_uint d))).
Proof.
  induction d; cbn [NilEmpty.string_of_uint list_ascii_of_string map];
    constructor; try assumption; right; cbv; split; discriminate.
Qed.

Lemma string_of_int_units (z : Z) :
  Forall decimal_unit
    (map N_of_ascii
       (list_ascii_of_string (NilZero.string_of_int (Z.to_int z)))).
Proof.
  assert (H : forall d, Forall decimal_unit
            (map N_of_ascii (list_ascii_of_string (NilZero.string_of_uint d)))).
  { intros d. destruct d; try apply string_of_uint_units.
    cbn. constructor; [right; cbv; split; discriminate | constructor]. }
  destruct (Z.to_int z) as [d|d]; cbn [NilZero.string_of_int].
  - apply H.
  - cbn [list_ascii_of_string map]. constructor; [left; reflexivity|apply H].
Qed.

Lemma decimal_units_ascii (l : list N) :
  Forall decimal_unit l -> Forall (fun b => (b < 128)%N) l.
Proof.
  apply Forall_impl. intros c [->|[_ H]]; [reflexivity|lia].
Qed.

(** [String(t)] consists of digits and at most a sign. *)
Lemma of_Z_units (t : Z) :
  JsString.of_Z t
  = map N_of_ascii (list_ascii_of_string (NilZero.string_of_int (Z.to_int t)))
  /\ Forall decimal_unit (JsString.of_Z t).
Proof.
  pose proof (string_of_int_units t) as H.
  assert (E : JsString.of_Z t
              = map N_of_ascii
                  (list_ascii_of_string (NilZero.string_of_int (Z.to_int t)))).
  { unfold JsString.of_Z, lit.
    rewrite utf8_points_ascii, flat_map_utf16_ascii;
      auto using decimal_units_ascii. }
  split; [exact E | now rewrite E].
Qed.

Lemma to_int_not_nil (t : Z) :
  Z.to_int t <> Decimal.Pos Decimal.Nil /\ Z.to_int t <> Decimal.Neg Decimal.Nil.
Proof.
  split; intros E; pose proof (DecimalZ.of_to t) as H; rewrite E in H;
    cbn in H; subst t; discriminate.
Qed.

Lemma N_of_ascii_inj (a b : ascii) : N_of_ascii a = N_of_ascii b -> a = b.
Proof.
  intros H. rewrite <- (ascii_N_embedding a), <- (ascii_N_embedding b).
  now rewrite H.
Qed.

Lemma map_N_of_ascii_inj (l l' : list ascii) :
  map N_of_ascii l = map N_of_ascii l' -> l = l'.
Proof.
  revert l'; induction l as [|a l IH]; intros [|b l'] H; try discriminate;
    [reflexivity|].
  cbn [map] in H. injection H as Hab Hl.
  f_equal; [now apply N_of_ascii_inj | now apply IH].
Qed.

(** Different integers print differently. *)
Lemma of_Z_inj (t t' : Z) : JsString.of_Z t = JsString.of_Z t' -> t = t'.
Proof.
  intros H.
  rewrite (proj1 (of_Z_units t)), (proj1 (of_Z_units t')) in H.
  apply map_N_of_ascii_inj in H.
  assert (E : NilZero.string_of_int (Z.to_int t)
              = NilZero.string_of_int (Z.to_int t')).
  { rewrite <- (string_of_list_ascii_of_string (NilZero.string_of_int _)).
    rewrite H. apply string_of_list_ascii_of_string. }
  apply DecimalZ.to_int_inj.
  destruct (to_int_not_nil t) as [H1 H2], (to_int_not_nil t') as [H1' H2'].
  pose proof (NilZero.isi _ H1 H2) as I.
  pose proof (NilZero.isi _ H1' H2') as I'.
  rewrite E in I. rewrite I in I'. now injection I'.
Qed.

(** A text is cut in one way only at its last underscore. *)
Lemma cut_at_last_underscore (r r' d d' : jsstring) :
  ~ In 95%N d -> ~ In 95%N d' ->
  r ++ 95%N :: d = r' ++ 95%N :: d' -> r = r' /\ d = d'.
Proof.
  revert r'. induction r as [|c r IH]; intros [|c' r'] Hd Hd' E.
  - now injection E.
  - cbn [app] in E. injection E as <- E. elim Hd. rewrite E.
    apply in_or_app. right. now left.
  - cbn [app] in E. injection E as -> E. elim Hd'. rewrite <- E.
    apply in_or_app. right. now left.
  - cbn [app] in E. injection E as -> E.
    destruct (IH r' Hd Hd' E) as [-> ->]. auto.
Qed.

Lemma decimal_units_no_underscore (d : jsstring) :
  Forall decimal_unit d -> ~ In 95%N d.
Proof.
  intros H Hin. rewrite Forall_forall in H.
  destruct (H _ Hin) as [E|[E1 E2]]; [discriminate | lia].
Qed.

(** Two names are the same only when the slot, the sanitized file name and
    the millisecond are the same. *)
Lemma uniqueName_of_inj (l l' : SlotLabel) (n n' : jsstring) (t t' : Z) :
  uniqueName_of l n t = uniqueName_of l' n' t' ->
  l = l'
  /\ replace_nonword_runs false n = replace_nonword_runs false n'
  /\ t = t'.
Proof.
  unfold uniqueName_of. intros E.
  assert (El : l = l' /\
               replace_nonword_runs false n ++ lit "_" ++ JsString.of_Z t
               = replace_nonword_runs false n' ++ lit "_" ++ JsString.of_Z t').
  { destruct l, l'; cbn in E; injection E as E; try discriminate; auto. }
  destruct El as [-> E']. split; [reflexivity|].
  change (lit "_" ++ JsString.of_Z t) with (95%N :: JsString.of_Z t) in E'.
  change (lit "_" ++ JsString.of_Z t') with (95%N :: JsString.of_Z t') in E'.
  apply cut_at_last_underscore in E';
    try (apply decimal_units_no_underscore, of_Z_units).
  destruct E' as [Hn Ht]. split; [exact Hn | now apply of_Z_inj].
Qed.

End Names.

(** C9 fails on the code: two loads of one file into slot A, made while the
    clock shows the same millisecond, both succeed and build two distinct
    font objects that carry the same name; the registry then holds two
    faces of that one family. *)
Lemma same_millisecond_loads_share_their_name :
  let P := Samples.browser_same_ms in
  let first := loadFontFromFile P Samples.regular_ttf LabelA initial_heap in
  let second :=
    loadFontFromFile P Samples.regular_ttf LabelA (store_of first) in
  exists f1 f2,
    value_of first = Some f1
    /\ value_of second = Some f2
    /\ oid f1 <> oid f2
    /\ name f1 = name f2
    /\ map family (document_fonts (store_of second)) = [name f1; name f2].
Proof.
  cbv zeta. eexists. eexists.
  split; [vm_compute; reflexivity|]. split; [vm_compute; reflexivity|].
  split; [vm_compute; discriminate|]. split; vm_compute; reflexivity.
Qed.

(** * Further properties *)

(** ** File names *)

Lemma skipn_length_app {A} (p l : list A) :
  skipn (List.length (p ++ l) - List.length l) (p ++ l) = l.
Proof.
  rewrite length_app, Nat.add_sub.
  induction p as [|x p IH]; [reflexivity | exact IH].
Qed.

Lemma ends_with_iff (s suffix : jsstring) :
  ends_with s suffix = true <-> exists stem, s = stem ++ suffix.
Proof.
  unfold ends_with. rewrite andb_true_iff, Nat.leb_le, eqb_eq. split.
  - intros [_ H].
    set (n := (List.length s - List.length suffix)%nat) in *.
    exists (firstn n s).
    transitivity (firstn n s ++ skipn n s);
      [symmetry; apply firstn_skipn | now rewrite H].
  - intros [stem ->]. split.
    + rewrite length_app. lia.
    + apply skipn_length_app.
Qed.

(** X1. [onDrop] takes a file for a font exactly when its name is some
    text followed by one of the eight endings: the four extensions in lower
    case and in upper case. *)
Theorem is_font_file_name_iff (n : jsstring) :
  is_font_file_name n = true
  <-> exists stem ext, In ext font_extensions /\ n = stem ++ ext.
Proof.
  unfold is_font_file_name. rewrite !orb_true_iff, !ends_with_iff. split.
  - intros H.
    repeat (destruct H as [H|H]);
      destruct H as [stem ->]; exists stem; eexists;
      (split; [|reflexivity]); unfold font_extensions; cbn [map In]; tauto.
  - intros (stem & ext & Hin & ->).
    unfold font_extensions in Hin. cbn [map In] in Hin.
    repeat (destruct Hin as [<-|Hin]); try (now elim Hin);
      try tauto; eauto 10.
Qed.

(** ** Font names *)

Lemma replace_nonword_runs_word (s : jsstring) : forall in_run,
  Forall (fun c => is_word c = true) (replace_nonword_runs in_run s).
Proof.
  induction s as [|c s IH]; intros in_run; cbn [replace_nonword_runs];
    [constructor|].
  destruct (is_word c) eqn:E; [constructor; auto|].
  destruct in_run; [apply IH|]. constructor; [reflexivity | apply IH].
Qed.

Lemma string_of_uint_digits (d : Decimal.uint) :
  Forall (fun c => is_word c = true)
    (map N_of_ascii (list_ascii_of_string (NilEmpty.string_of_uint d))).
Proof.
  induction d; cbn [NilEmpty.string_of_uint list_ascii_of_string map];
    constructor; try assumption; reflexivity.
Qed.

Lemma of_Z_digits (t : Z) :
  (0 <= t)%Z -> Forall (fun c => is_word c = true) (JsString.of_Z t).
Proof.
  intros Ht. rewrite (proj1 (of_Z_units t)).
  destruct t as [|p|p]; [repeat constructor| |lia].
  unfold Z.to_int, NilZero.string_of_int, NilZero.string_of_uint.
  destruct (Pos.to_uint p) eqn:E; try (rewrite <- E; apply string_of_uint_digits).
  repeat constructor.
Qed.

(** X2. As long as the clock is not negative, the name [loadFontFromFile]
    gives a font is made of letters, digits and underscores only, whatever
    the file is called: it holds no quote, so the css font built around
    it by [drawString] and [measureString] is well formed. *)
Theorem uniqueName_of_word_units :
  forall (label : SlotLabel) (file_name : jsstring) (t : Z),
    (0 <= t)%Z ->
    Forall (fun c => is_word c = true) (uniqueName_of label file_name t)
    /\ ~ In 34%N (uniqueName_of label file_name t).
Proof.
  intros label n t Ht.
  assert (H : Forall (fun c => is_word c = true) (uniqueName_of label n t)).
  { unfold uniqueName_of. rewrite !Forall_app.
    split; [destruct label; repeat constructor|].
    split; [repeat constructor|].
    split; [apply replace_nonword_runs_word|].
    split; [repeat constructor | now apply of_Z_digits]. }
  split; [exact H|]. intros Hin. rewrite Forall_forall in H.
  specialize (H _ Hin). discriminate.
Qed.

Lemma uniqueName_of_word_units_witness :
  uniqueName_of LabelA (lit "My font (1).ttf") 1700000000000
  = lit "A_My_font_1_ttf_1700000000000"
  /\ ~ In 34%N (uniqueName_of LabelA (lit "My font (1).ttf") 1700000000000).
Proof.
  split; [vm_compute; reflexivity|].
  apply (@uniqueName_of_word_units LabelA (lit "My font (1).ttf")
           1700000000000). lia.
Defined.

(** ** The pixel ratio *)

(** X3. [humanDevicePixelRatio] lies between 1 and 2 whatever the window
    reports; it is the reported ratio when that lies between 1 and 2, and 1
    when the window reports none (0). *)
Theorem humanDevicePixelRatio_clamped (P : Platform) :
  1 <= humanDevicePixelRatio P <= 2
  /\ (1 <= devicePixelRatio P <= 2 ->
      humanDevicePixelRatio P == devicePixelRatio P)
  /\ (devicePixelRatio P == 0 -> humanDevicePixelRatio P == 1).
Proof.
  unfold humanDevicePixelRatio, Math_min, Math_max, num_or.
  destruct (Qeq_bool (devicePixelRatio P) 0) eqn:E;
    [apply Qeq_bool_iff in E | apply Qeq_bool_neq in E].
  - destruct (Q.max_spec 1 1) as [[H1 E1]|[H1 E1]];
      destruct (Q.min_spec 2 (Qmax 1 1)) as [[H2 E2]|[H2 E2]];
      rewrite E2; rewrite ?E1 in *;
      (split; [lra|split; [intros [? ?]; lra | intros ?; lra]]).
  - destruct (Q.max_spec 1 (devicePixelRatio P)) as [[H1 E1]|[H1 E1]];
      destruct (Q.min_spec 2 (Qmax 1 (devicePixelRatio P)))
        as [[H2 E2]|[H2 E2]];
      rewrite E2; rewrite ?E1 in *;
      (split; [lra|split; [intros [? ?]; lra | intros ?; contradiction]]).
Qed.

Lemma humanDevicePixelRatio_clamped_witness :
  humanDevicePixelRatio Samples.browser == 1.
Proof.
  destruct (humanDevicePixelRatio_clamped Samples.browser) as (_ & H & _).
  rewrite H; [reflexivity|]. split; vm_compute; discriminate.
Defined.

(** ** The message log along a run *)

Section MessageLog.

Variable P : Platform.

Lemma firstn_app_firstn {A} (n : nat) (a b : list A) : forall k,
  (k <= n)%nat -> firstn k (a ++ firstn n b) = firstn k (a ++ b).
Proof.
  induction a as [|x a IH]; intros k Hk.
  - cbn [app]. rewrite firstn_firstn. f_equal. lia.
  - destruct k as [|k]; [reflexivity|].
    cbn [app firstn]. f_equal. apply IH. lia.
Qed.

(** X4. Calling [pushMessage] for one message after the other leaves,
    newest first, the last five of the messages pushed and of those the
    log held. *)
Theorem pushes_keep_newest_five :
  forall (ms : list jsstring) (s : State) (h : Heap),
    (List.length (messages s) <= 5)%nat ->
    texts (messages (fst (pushes P ms (s, h))))
    = firstn 5 (rev ms ++ texts (messages s)).
Proof.
  intros ms s h. rewrite pushes_eq. revert s h.
  induction ms as [|m ms IH]; intros s h Hlen.
  - cbn [map rev app]. unfold apply_updates; cbn [fold_left fst].
    symmetry. apply firstn_all2. unfold texts. now rewrite length_map.
  - cbn [map]. unfold apply_updates. cbn [fold_left].
    fold (apply_updates P (map PushMessage ms)
            (apply_update P (PushMessage m) (s, h))).
    cbn [apply_update]. destruct (fresh_msg_id P h) as [id h'].
    rewrite IH.
    + cbn [messages with_messages rev]. unfold texts, pushMessage_updater.
      rewrite <- firstn_map, <- app_assoc.
      rewrite firstn_app_firstn by lia. reflexivity.
    + cbn [messages with_messages]. apply pushMessage_updater_length.
Qed.

Lemma apply_update_cap (u : Update) (s : State) (h : Heap) :
  (List.length (messages s) <= 5)%nat ->
  (List.length (messages (fst (apply_update P u (s, h)))) <= 5)%nat.
Proof.
  intros H. destruct u; cbn [apply_update fst]; try exact H.
  destruct (fresh_msg_id P h) as [id h']. cbn [fst messages with_messages].
  apply pushMessage_updater_length.
Qed.

Lemma apply_updates_cap (us : list Update) : forall s h,
  (List.length (messages s) <= 5)%nat ->
  (List.length (messages (fst (apply_updates P us (s, h)))) <= 5)%nat.
Proof.
  induction us as [|u us IH]; intros s h H; [exact H|].
  unfold apply_updates. cbn [fold_left].
  fold (apply_updates P us (apply_update P u (s, h))).
  pose proof (apply_update_cap u s h H) as H'.
  destruct (apply_update P u (s, h)) as [s1 h1]. now apply IH.
Qed.

Lemma handle_cap (e : Event) (s : State) (h : Heap) :
  (List.length (messages s) <= 5)%nat ->
  (List.length (messages (fst (handle P e (s, h)))) <= 5)%nat.
Proof.
  intros H. unfold handle. cbn [fst snd].
  destruct (handler_of P s e h) as [[u h'] us]. now apply apply_updates_cap.
Qed.

(** X5. Whatever the events, the component never shows more than five
    messages. *)
Theorem never_more_than_five_toasts :
  forall (es : list Event),
    (List.length (toasts (view (run P es (mounted P)))) <= 5)%nat.
Proof.
  intros es.
  destruct (run_settled es (mounted_settled P)) as ((gc & Hview) & _).
  rewrite Hview. cbn [toasts render_view].
  replace (state (run P es (mounted P)))
    with (fst (state (run P es (mounted P)), heap (run P es (mounted P))))
    by reflexivity.
  rewrite run_state_heap.
  assert (Hstart : (List.length (messages (state (mounted P))) <= 5)%nat).
  { unfold mounted.
    destruct (render_state_heap P unmounted initial_state initial_heap)
      as [-> _]. cbn. lia. }
  clear Hview gc.
  revert Hstart. generalize (state (mounted P)) (heap (mounted P)).
  induction es as [|e es IH]; intros s h H; [exact H|].
  cbn [fold_left]. pose proof (handle_cap e s h H) as H'.
  destruct (handle P e (s, h)) as [s1 h1]. now apply IH.
Qed.

End MessageLog.

Lemma pushes_keep_newest_five_witness :
  texts (messages (fst (pushes Samples.browser
                          (map lit ["a"; "b"; "c"; "d"; "e"; "f"; "g"]%string)
                          (initial_state, initial_heap))))
  = map lit ["g"; "f"; "e"; "d"; "c"]%string.
Proof.
  rewrite (@pushes_keep_newest_five Samples.browser
             (map lit ["a"; "b"; "c"; "d"; "e"; "f"; "g"]%string)
             initial_state initial_heap); [reflexivity | cbn; lia].
Defined.

(** ** Drops, picks and the registry *)

Section Registry.

Variable P : Platform.

(** What a load does to the heap. *)
Lemma loadFontFromFile_heap (file : File) (label : SlotLabel) (h : Heap) :
  let r := loadFontFromFile P file label h in
  dragCounter (store_of r) = dragCounter h
  /\ match value_of r with
     | Some lf =>
         document_fonts (store_of r) = document_fonts h ++ [face lf]
         /\ next_oid (store_of r) = S (next_oid h)
         /\ oid lf = next_oid h
         /\ family (face lf) = name lf
     | None =>
         document_fonts (store_of r) = document_fonts h
         /\ next_oid (store_of r) = next_oid h
     end.
Proof.
  cbv zeta. rewrite loadFontFromFile_eval.
  destruct (arrayBuffer P file) as [ab|err]; [|repeat split].
  cbv zeta. destruct (face_load P _) as [[]|err]; repeat split.
Qed.

Lemma apply_update_heap (u : Update) (s : State) (h : Heap) :
  let h' := snd (apply_update P u (s, h)) in
  dragCounter h' = dragCounter h
  /\ document_fonts h' = document_fonts h
  /\ next_oid h' = next_oid h.
Proof. destruct u; repeat split. Qed.

Lemma apply_updates_heap (us : list Update) : forall s h,
  let h' := snd (apply_updates P us (s, h)) in
  dragCounter h' = dragCounter h
  /\ document_fonts h' = document_fonts h
  /\ next_oid h' = next_oid h.
Proof.
  induction us as [|u us IH]; intros s h; [repeat split|].
  cbv zeta. unfold apply_updates. cbn [fold_left].
  fold (apply_updates P us (apply_update P u (s, h))).
  pose proof (apply_update_heap u s h) as H. cbv zeta in H.
  destruct (apply_update P u (s, h)) as [s1 h1]. cbn [snd] in H.
  destruct (IH s1 h1) as (H1 & H2 & H3). destruct H as (K1 & K2 & K3).
  repeat split; congruence.
Qed.

Lemma apply_update_highlight (u : Update) (s : State) (h : Heap) :
  keeps_highlight u ->
  isDragging (fst (apply_update P u (s, h))) = isDragging s.
Proof.
  destruct u; cbn [keeps_highlight apply_update]; intros Hk;
    try reflexivity; try (now elim Hk).
Qed.

Lemma apply_updates_highlight (us : list Update) : forall s h,
  Forall keeps_highlight us ->
  isDragging (fst (apply_updates P us (s, h))) = isDragging s.
Proof.
  induction us as [|u us IH]; intros s h H; [reflexivity|].
  inversion H as [|u' us' Hu Hus]; subst.
  unfold apply_updates. cbn [fold_left].
  fold (apply_updates P us (apply_update P u (s, h))).
  pose proof (apply_update_highlight u s h Hu) as E.
  destruct (apply_update P u (s, h)) as [s1 h1]. cbn [fst] in E.
  rewrite IH by exact Hus. exact E.
Qed.

Lemma load_updates_keep_highlight (file : File) (label : SlotLabel)
    (h : Heap) (set : option LoadedFont -> Update) :
  (forall v, keeps_highlight (set v)) ->
  Forall keeps_highlight
    (log_of (loadFontFromFile P file label h)
     ++ fill set (value_of (loadFontFromFile P file label h))).
Proof.
  intros Hset. pose proof (loadFontFromFile_log P file label h) as L.
  cbv zeta in L. apply Forall_app.
  destruct (value_of (loadFontFromFile P file label h)) as [lf|].
  - destruct L as [-> _]. split; [constructor|].
    repeat constructor. apply Hset.
  - destruct L as [err ->]. split; repeat constructor.
Qed.

(** X6. A drop ends the drag: after any drop, whatever it carries and
    whatever the loads return, the highlight is off and the counter of
    enters and leaves is back at 0. *)
Theorem drop_ends_the_drag :
  forall (s : State) (h : Heap) (files : list File),
    let sh' := handle P (Drop files) (s, h) in
    isDragging (fst sh') = false /\ dragCounter (snd sh') = 0%Z.
Proof.
  intros s h files. cbv zeta. rewrite handle_Drop.
  pose proof (onDrop_eval P s files h) as E. cbv zeta in E. rewrite E.
  clear E.
  assert (HA : forall v, keeps_highlight (SetFontA v)) by (intros; exact I).
  assert (HB : forall v, keeps_highlight (SetFontB v)) by (intros; exact I).
  assert (Hmsg : forall m, Forall keeps_highlight [PushMessage m])
    by (intros; repeat constructor).
  assert (Hgo : forall us hx,
            Forall keeps_highlight us -> dragCounter hx = 0%Z ->
            isDragging (fst (apply_updates P (SetIsDragging false :: us) (s, hx)))
            = false
            /\ dragCounter
                 (snd (apply_updates P (SetIsDragging false :: us) (s, hx)))
               = 0%Z).
  { intros us hx Hus Hhx.
    change (apply_updates P (SetIsDragging false :: us) (s, hx))
      with (apply_updates P us (with_isDragging false s, hx)).
    split; [now rewrite apply_updates_highlight|].
    destruct (apply_updates_heap us (with_isDragging false s) hx) as [-> _].
    exact Hhx. }
  destruct (recognized files) as [|file0 rest];
    [rewrite log_of_mk, store_of_mk; now apply Hgo|].
  destruct (fontA s) as [a|].
  - destruct (fontB s) as [b|]; rewrite log_of_mk, store_of_mk.
    + now apply Hgo.
    + apply Hgo; [now apply load_updates_keep_highlight|].
      now destruct (loadFontFromFile_heap file0 LabelB (heap_at_drop h))
        as [-> _].
  - destruct rest as [|file1 rest']; rewrite log_of_mk, store_of_mk.
    + apply Hgo; [now apply load_updates_keep_highlight|].
      now destruct (loadFontFromFile_heap file0 LabelA (heap_at_drop h))
        as [-> _].
    + apply Hgo.
      * rewrite app_assoc. apply Forall_app.
        split; now apply load_updates_keep_highlight.
      * destruct (loadFontFromFile_heap file1 LabelB
                    (store_of (loadFontFromFile P file0 LabelA (heap_at_drop h))))
          as [-> _].
        now destruct (loadFontFromFile_heap file0 LabelA (heap_at_drop h))
          as [-> _].
Qed.

(** X7. A drop never empties a slot and never replaces the font of slot A.
    It replaces a font held by slot B only when slot A was empty and the
    drop carried two recognized files at least. *)
Theorem drop_keeps_loaded_fonts :
  forall (s : State) (h : Heap) (files : list File),
    let s' := fst (handle P (Drop files) (s, h)) in
    (forall a, fontA s = Some a -> fontA s' = Some a)
    /\ (forall b, fontB s = Some b ->
          fontB s' = Some b
          \/ (fontA s = None
              /\ (2 <= List.length (recognized files))%nat
              /\ exists b', fontB s' = Some b')).
Proof.
  intros s h files s'.
  pose proof (slots_after_drop P s h files) as H. cbv zeta in H.
  fold s' in H.
  destruct (recognized files) as [|file0 rest].
  - destruct H as [-> ->]. auto.
  - destruct (fontA s) as [a|] eqn:EA.
    + destruct (fontB s) as [b|] eqn:EB; destruct H as [HA HB].
      * rewrite HA, HB. split; intros ? [= <-]; auto.
      * split; [intros ? [= <-]; exact HA | intros ? [=]].
    + destruct H as [HA HB]. split; [intros ? [=]|].
      intros b Eb. rewrite HB, Eb. destruct rest as [|file1 rest']; [auto|].
      destruct (value_of (loadFontFromFile P file1 LabelB _)) as [b'|];
        [|auto].
      right. split; [reflexivity|]. split; [cbn; lia | eauto].
Qed.

Lemma handle_FilePick (files : list File) (which : SlotLabel)
    (s : State) (h : Heap) :
  handle P (FilePick files which) (s, h)
  = match files with
    | [] => (s, h)
    | file :: _ =>
        let r := loadFontFromFile P file which h in
        apply_updates P
          (log_of r
           ++ fill (match which with LabelA => SetFontA | LabelB => SetFontB end)
                (value_of r))
          (s, store_of r)
    end.
Proof.
  unfold handle, handler_of, handleFilePick. cbn [fst snd].
  destruct files as [|file rest]; [reflexivity|].
  unfold bind, value_of, store_of, log_of. cbv zeta.
  destruct (loadFontFromFile P file which h) as [[[lf|] h1] l1];
    cbn [fst snd fill]; [|reflexivity].
  destruct which; reflexivity.
Qed.

(** X8. A file pick loads the first file chosen into the slot of its
    picker. When the load succeeds its font takes the slot, whether the
    slot was empty or not, and no message is pushed; when it fails the slot
    keeps its content and one message naming the file is pushed. The other
    slot is never touched, and a pick without a file changes nothing. *)
Theorem handleFilePick_outcome :
  forall (s : State) (h : Heap) (files : list File) (which : SlotLabel),
    let sh' := handle P (FilePick files which) (s, h) in
    let other := match which with LabelA => LabelB | LabelB => LabelA end in
    slot other (fst sh') = slot other s
    /\ match files with
       | [] => sh' = (s, h)
       | file :: _ =>
           match value_of (loadFontFromFile P file which h) with
           | Some lf =>
               slot which (fst sh') = Some lf
               /\ displayName lf = file_name file
               /\ messages (fst sh') = messages s
           | None =>
               slot which (fst sh') = slot which s
               /\ exists id errMsg,
                    messages (fst sh')
                    = pushMessage_updater id (load_failure_message file errMsg)
                        (messages s)
           end
       end.
Proof.
  intros s h files which. cbv zeta. rewrite handle_FilePick.
  destruct files as [|file rest]; [split; reflexivity|]. cbv zeta.
  pose proof (loadFontFromFile_log P file which h) as L. cbv zeta in L.
  destruct (value_of (loadFontFromFile P file which h)) as [lf|].
  - destruct L as [-> Hname]. cbn [app fill].
    destruct which; cbn; auto.
  - destruct L as [err ->]. cbn [app fill].
    unfold apply_updates. cbn [fold_left apply_update].
    destruct (fresh_msg_id P (store_of (loadFontFromFile P file which h)))
      as [id h'] eqn:E.
    split; [destruct which; reflexivity|].
    split; [destruct which; reflexivity|].
    exists id, err. reflexivity.
Qed.

Lemma backed_grown (h h' : Heap) (f : LoadedFont) :
  grown h h' -> backed h f -> backed h' f.
Proof.
  intros [[added E] Hn] (Hin & Hfam & Hoid). unfold backed.
  rewrite E. split; [apply in_or_app; auto|]. split; [exact Hfam | lia].
Qed.

Lemma grown_refl (h : Heap) : grown h h.
Proof. split; [exists []; now rewrite app_nil_r | lia]. Qed.

Lemma grown_trans (h1 h2 h3 : Heap) : grown h1 h2 -> grown h2 h3 -> grown h1 h3.
Proof.
  intros [[a1 E1] H1] [[a2 E2] H2]. split; [|lia].
  exists (a1 ++ a2). now rewrite E2, E1, app_assoc.
Qed.

(** What a load gives: a heap grown by at most one face, and on success a
    font backed by it whose object is new. *)
Lemma loadFontFromFile_registered (file : File) (label : SlotLabel) (h : Heap) :
  List.length (document_fonts h) = next_oid h ->
  let r := loadFontFromFile P file label h in
  grown h (store_of r)
  /\ List.length (document_fonts (store_of r)) = next_oid (store_of r)
  /\ forall lf, value_of r = Some lf ->
       backed (store_of r) lf /\ oid lf = next_oid h
       /\ next_oid (store_of r) = S (next_oid h).
Proof.
  intros Hlen. cbv zeta.
  destruct (loadFontFromFile_heap file label h) as [_ H].
  destruct (value_of (loadFontFromFile P file label h)) as [lf|].
  - destruct H as (Hd & Hn & Ho & Hf).
    split; [split; [eauto | lia]|].
    split; [rewrite Hd, Hn, length_app; cbn; lia|].
    intros lf' [= <-]. split; [|auto]. unfold backed.
    rewrite Hd, Hn, Ho. split; [apply in_or_app; right; now left|].
    split; [exact Hf | lia].
  - destruct H as (Hd & Hn).
    split; [split; [exists []; now rewrite app_nil_r | lia]|].
    split; [congruence | intros lf [=]].
Qed.

Lemma handle_heap (e : Event) (s : State) (h : Heap) :
  let h' := snd (handle P e (s, h)) in
  let hh := store_of (handler_of P s e h) in
  document_fonts h' = document_fonts hh /\ next_oid h' = next_oid hh.
Proof.
  cbv zeta. unfold handle, store_of. cbn [fst snd].
  destruct (handler_of P s e h) as [[u hh] us]. cbn [fst snd].
  destruct (apply_updates_heap us s hh) as (_ & H1 & H2). auto.
Qed.

Lemma handle_slots_parameter (u : Update) (s : State) (h : Heap) :
  user_event (Control u) ->
  fontA (fst (handle P (Control u) (s, h))) = fontA s
  /\ fontB (fst (handle P (Control u) (s, h))) = fontB s.
Proof.
  destruct u; cbn [user_event]; intros H; try (now elim H);
    unfold handle; cbn; try (split; reflexivity).
Qed.

(** The invariant passes from one state and heap to the next when the
    heap has grown and each slot holds its former font or a font built
    since, the two fonts built since being different objects. *)
Lemma registered_next (s s' : State) (h h' : Heap) :
  registered s h ->
  grown h h' ->
  List.length (document_fonts h') = next_oid h' ->
  (forall f, fontA s' = Some f ->
     fontA s = Some f \/ (backed h' f /\ (next_oid h <= oid f)%nat)) ->
  (forall f, fontB s' = Some f ->
     fontB s = Some f \/ (backed h' f /\ (next_oid h <= oid f)%nat)) ->
  (forall a b, fontA s' = Some a -> fontB s' = Some b ->
     (next_oid h <= oid a)%nat -> (next_oid h <= oid b)%nat ->
     oid a <> oid b) ->
  registered s' h'.
Proof.
  intros (Hb & Hd & Hl) Hg Hl' HA HB Hnew.
  assert (Hold : forall f, fontA s = Some f \/ fontB s = Some f ->
                 backed h' f /\ (oid f < next_oid h)%nat).
  { intros f Hf. split; [apply (backed_grown Hg), Hb, Hf|].
    now destruct (Hb f Hf) as (_ & _ & Ho). }
  split; [|split; [|exact Hl']].
  - intros f [Hf|Hf]; [destruct (HA f Hf) as [Ho|[Hn _]]
                      | destruct (HB f Hf) as [Ho|[Hn _]]];
      try exact Hn; apply Hold; auto.
  - intros a b Ha Hb'.
    destruct (HA a Ha) as [Hoa|[_ Hna]], (HB b Hb') as [Hob|[_ Hnb]].
    + now apply Hd.
    + destruct (Hold a (or_introl Hoa)) as [_ Ho]. lia.
    + destruct (Hold b (or_intror Hob)) as [_ Ho]. lia.
    + now apply Hnew.
Qed.

Lemma heap_at_drop_fields (h : Heap) :
  document_fonts (heap_at_drop h) = document_fonts h
  /\ next_oid (heap_at_drop h) = next_oid h.
Proof. split; reflexivity. Qed.

Lemma handle_Drop_registered (files : list File) (s : State) (h : Heap) :
  registered s h ->
  registered (fst (handle P (Drop files) (s, h)))
             (snd (handle P (Drop files) (s, h))).
Proof.
  intros Hreg. pose proof Hreg as (_ & _ & Hl).
  pose proof (slots_after_drop P s h files) as Hs. cbv zeta in Hs.
  pose proof (handle_heap (Drop files) s h) as Hh. cbv zeta in Hh.
  cbn [handler_of] in Hh.
  pose proof (onDrop_eval P s files h) as E. cbv zeta in E.
  rewrite E in Hh. clear E.
  set (s' := fst (handle P (Drop files) (s, h))) in *.
  set (h' := snd (handle P (Drop files) (s, h))) in *.
  destruct (heap_at_drop_fields h) as [Hd0 Hn0].
  assert (Hl0 : List.length (document_fonts (heap_at_drop h))
                = next_oid (heap_at_drop h)) by congruence.
  assert (Hsame : forall hh,
            document_fonts h' = document_fonts hh /\ next_oid h' = next_oid hh ->
            grown h hh ->
            List.length (document_fonts hh) = next_oid hh ->
            grown h h' /\ List.length (document_fonts h') = next_oid h').
  { intros hh [E1 E2] [[added Ea] Hn] Hlh.
    split; [split; [exists added; congruence | lia] | congruence]. }
  assert (Hback : forall hh f,
            document_fonts h' = document_fonts hh /\ next_oid h' = next_oid hh ->
            backed hh f -> backed h' f).
  { intros hh f [E1 E2] (B1 & B2 & B3). unfold backed.
    rewrite E1, E2. auto. }
  assert (Hg0 : grown h (heap_at_drop h)).
  { split; [exists []; now rewrite app_nil_r, Hd0 | lia]. }
  destruct (recognized files) as [|file0 rest].
  - rewrite store_of_mk in Hh. destruct Hs as [HA HB].
    destruct (Hsame _ Hh Hg0 Hl0) as [Hg Hl'].
    apply (@registered_next s s' h h' Hreg Hg Hl'); rewrite ?HA, ?HB; auto.
    intros a b Ha Hb Hna _. destruct Hreg as (Hbk & _ & _).
    destruct (Hbk a (or_introl Ha)) as (_ & _ & Ho). lia.
  - destruct (fontA s) as [a0|] eqn:EA.
    + destruct (fontB s) as [b0|] eqn:EB; rewrite store_of_mk in Hh;
        destruct Hs as [HA HB].
      * destruct (Hsame _ Hh Hg0 Hl0) as [Hg Hl'].
        apply (@registered_next s s' h h' Hreg Hg Hl'); rewrite ?HA, ?HB, ?EA, ?EB; auto.
        intros a b [= <-] _ Hna _. destruct Hreg as (Hbk & _ & _).
        destruct (Hbk a0 (or_introl EA)) as (_ & _ & Ho). lia.
      * destruct (@loadFontFromFile_registered file0 LabelB _ Hl0)
          as (Hg1 & Hl1 & Hnew).
        destruct (Hsame _ Hh (grown_trans Hg0 Hg1) Hl1) as [Hg Hl'].
        apply (@registered_next s s' h h' Hreg Hg Hl'); rewrite ?HA, ?HB, ?EA, ?EB; auto.
        -- intros f Hf. right. destruct (Hnew f Hf) as (Hb & Ho & _).
           split; [now apply (Hback _ _ Hh) | lia].
        -- intros a b [= <-] _ Hna _. destruct Hreg as (Hbk & _ & _).
           destruct (Hbk a0 (or_introl EA)) as (_ & _ & Ho). lia.
    + destruct (@loadFontFromFile_registered file0 LabelA _ Hl0)
        as (Hg1 & Hl1 & Hnew1).
      set (r0 := loadFontFromFile P file0 LabelA (heap_at_drop h)) in *.
      destruct rest as [|file1 rest']; rewrite store_of_mk in Hh;
        destruct Hs as [HA HB].
      * destruct (Hsame _ Hh (grown_trans Hg0 Hg1) Hl1) as [Hg Hl'].
        apply (@registered_next s s' h h' Hreg Hg Hl'); rewrite ?HA, ?HB, ?EA; auto.
        -- intros f Hf. right. destruct (Hnew1 f Hf) as (Hb & Ho & _).
           split; [now apply (Hback _ _ Hh) | lia].
        -- intros a b Ha Hb _ Hnb. destruct Hreg as (Hbk & _ & _).
           destruct (Hbk b (or_intror Hb)) as (_ & _ & Ho). lia.
      * destruct (@loadFontFromFile_registered file1 LabelB _ Hl1)
          as (Hg2 & Hl2 & Hnew2).
        set (r1 := loadFontFromFile P file1 LabelB (store_of r0)) in *.
        destruct (Hsame _ Hh (grown_trans Hg0 (grown_trans Hg1 Hg2)) Hl2)
          as [Hg Hl'].
        apply (@registered_next s s' h h' Hreg Hg Hl'); rewrite ?HA, ?HB, ?EA.
        -- intros f Hf. right. destruct (Hnew1 f Hf) as (Hb & Ho & _).
           split; [|lia]. apply (Hback _ _ Hh), (backed_grown Hg2), Hb.
        -- intros f Hf. destruct (value_of r1) as [b1|] eqn:E1; [|auto].
           injection Hf as <-. right.
           destruct (Hnew2 b1 eq_refl) as (Hb & Ho & _).
           split; [now apply (Hback _ _ Hh)|].
           destruct Hg1 as [_ Hn1]. lia.
        -- intros a b Ha Hb _ Hnb.
           destruct (Hnew1 a Ha) as (_ & Hoa & Hna).
           destruct (value_of r1) as [b1|] eqn:E1.
           ++ injection Hb as <-. destruct (Hnew2 b1 eq_refl) as (_ & Ho & _).
              lia.
           ++ destruct Hreg as (Hbk & _ & _).
              destruct (Hbk b (or_intror Hb)) as (_ & _ & Ho). lia.
Qed.

Lemma handle_FilePick_registered (files : list File) (which : SlotLabel)
    (s : State) (h : Heap) :
  registered s h ->
  registered (fst (handle P (FilePick files which) (s, h)))
             (snd (handle P (FilePick files which) (s, h))).
Proof.
  intros Hreg. pose proof Hreg as (Hbk & _ & Hl).
  pose proof (handle_heap (FilePick files which) s h) as Hh. cbv zeta in Hh.
  rewrite handle_FilePick in *.
  destruct files as [|file rest]; [exact Hreg|]. cbv zeta in *.
  cbn [handler_of handleFilePick] in Hh.
  rewrite store_of_bind in Hh.
  destruct (@loadFontFromFile_registered file which h Hl) as (Hg1 & Hl1 & Hnew).
  set (r := loadFontFromFile P file which h) in *.
  assert (Hh' : document_fonts
                  (snd (apply_updates P
                          (log_of r ++
                           fill match which with
                                | LabelA => SetFontA
                                | LabelB => SetFontB
                                end (value_of r)) (s, store_of r)))
                = document_fonts (store_of r)
                /\ next_oid
                     (snd (apply_updates P
                             (log_of r ++
                              fill match which with
                                   | LabelA => SetFontA
                                   | LabelB => SetFontB
                                   end (value_of r)) (s, store_of r)))
                   = next_oid (store_of r)).
  { destruct (apply_updates_heap
                (log_of r ++ fill match which with
                                  | LabelA => SetFontA
                                  | LabelB => SetFontB
                                  end (value_of r)) s (store_of r))
      as (_ & H1 & H2). auto. }
  clear Hh. destruct Hh' as [E1 E2].
  set (sh' := apply_updates P _ (s, store_of r)) in *.
  assert (Hg : grown h (snd sh')).
  { destruct Hg1 as [[added Ea] Hn]. split; [exists added; congruence | lia]. }
  assert (Hl' : List.length (document_fonts (snd sh')) = next_oid (snd sh'))
    by congruence.
  assert (Hnew' : forall f, value_of r = Some f ->
                  backed (snd sh') f /\ (next_oid h <= oid f)%nat).
  { intros f Hf. destruct (Hnew f Hf) as ((B1 & B2 & B3) & Ho & _).
    split; [unfold backed; rewrite E1, E2; auto | lia]. }
  destruct which.
  - destruct (after_load_A P file h (s, store_of r)) as [HA HB].
    fold r in HA, HB. cbn [fst] in HA, HB. fold sh' in HA, HB.
    apply (@registered_next s (fst sh') h (snd sh') Hreg Hg Hl');
      rewrite ?HA, ?HB; auto.
    + intros f Hf. destruct (value_of r) as [lf|] eqn:Er; [|auto].
      injection Hf as <-. right. now apply Hnew'.
    + intros a b _ Hb _ Hnb. destruct (Hbk b (or_intror Hb)) as (_ & _ & Ho).
      lia.
  - destruct (after_load_B P file h (s, store_of r)) as [HB HA].
    fold r in HA, HB. cbn [fst] in HA, HB. fold sh' in HA, HB.
    apply (@registered_next s (fst sh') h (snd sh') Hreg Hg Hl');
      rewrite ?HA, ?HB; auto.
    + intros f Hf. destruct (value_of r) as [lf|] eqn:Er; [|auto].
      injection Hf as <-. right. now apply Hnew'.
    + intros a b Ha _ Hna _. destruct (Hbk a (or_introl Ha)) as (_ & _ & Ho).
      lia.
Qed.

Lemma handle_other_registered (e : Event) (s : State) (h : Heap) :
  user_event e ->
  match e with Drop _ | FilePick _ _ => False | _ => True end ->
  registered s h ->
  registered (fst (handle P e (s, h))) (snd (handle P e (s, h))).
Proof.
  intros Hu He Hreg. pose proof Hreg as (Hbk & Hd & Hl).
  pose proof (handle_heap e s h) as Hh. cbv zeta in Hh.
  assert (Hslots :
    (fontA (fst (handle P e (s, h))) = fontA s
     \/ fontA (fst (handle P e (s, h))) = None)
    /\ (fontB (fst (handle P e (s, h))) = fontB s
        \/ fontB (fst (handle P e (s, h))) = None)
    /\ document_fonts (store_of (handler_of P s e h)) = document_fonts h
    /\ next_oid (store_of (handler_of P s e h)) = next_oid h).
  { destruct e as [files| | |files which|which|u]; try (now elim He).
    - repeat split; auto.
    - unfold handle, handler_of, onDragLeave, bind, get_dragCounter,
        set_dragCounter, store_of. cbn [fst snd dragCounter].
      destruct (dragCounter h - 1 <=? 0)%Z; repeat split; auto.
    - destruct which; repeat split; auto.
    - destruct (handle_slots_parameter u s h Hu) as [-> ->].
      repeat split; auto. }
  destruct Hslots as (HA & HB & E1 & E2). destruct Hh as [K1 K2].
  rewrite E1 in K1. rewrite E2 in K2.
  set (s' := fst (handle P e (s, h))) in *.
  set (h' := snd (handle P e (s, h))) in *.
  assert (Hg : grown h h').
  { split; [exists []; now rewrite app_nil_r | lia]. }
  apply (@registered_next s s' h h' Hreg Hg); [congruence| | |].
  - intros f Hf. destruct HA as [HA|HA]; rewrite HA in Hf;
      [auto | discriminate].
  - intros f Hf. destruct HB as [HB|HB]; rewrite HB in Hf;
      [auto | discriminate].
  - intros a b Ha _ Hna _. destruct HA as [HA|HA]; rewrite HA in Ha;
      [|discriminate].
    destruct (Hbk a (or_introl Ha)) as (_ & _ & Ho). lia.
Qed.

Lemma handle_registered (e : Event) (s : State) (h : Heap) :
  user_event e -> registered s h ->
  registered (fst (handle P e (s, h))) (snd (handle P e (s, h))).
Proof.
  intros Hu Hreg. destruct e as [files| | |files which|which|u].
  - now apply handle_Drop_registered.
  - now apply handle_other_registered.
  - now apply handle_other_registered.
  - now apply handle_FilePick_registered.
  - now apply handle_other_registered.
  - now apply handle_other_registered.
Qed.

(** X9. Along any run of user events, a font held by a slot has its face
    in [document.fonts] under the font's own name, the two slots never hold
    the same font object, and the registry holds exactly one face per font
    ever built. *)
Theorem slots_hold_registered_fonts :
  forall (es : list Event),
    Forall user_event es ->
    let c := run P es (mounted P) in
    registered (state c) (heap c).
Proof.
  intros es Hes c.
  assert (E : (state c, heap c)
              = fold_left (fun sh e => handle P e sh) es
                  (initial_state, initial_heap)).
  { unfold c. rewrite run_state_heap. unfold mounted.
    destruct (render_state_heap P unmounted initial_state initial_heap)
      as [-> ->]. reflexivity. }
  assert (H0 : registered initial_state initial_heap).
  { split; [intros f [H|H]; discriminate|].
    split; [intros a b H; discriminate | reflexivity]. }
  replace (state c) with (fst (state c, heap c)) by reflexivity.
  replace (heap c) with (snd (state c, heap c)) at 2 by reflexivity.
  rewrite E. clear E c. revert H0.
  generalize initial_state initial_heap.
  induction Hes as [|e es He Hes IH]; intros s h H0; [exact H0|].
  cbn [fold_left]. pose proof (@handle_registered e s h He H0) as H1.
  destruct (handle P e (s, h)) as [s1 h1]. now apply IH.
Qed.

Lemma loadFontFromFile_grown (file : File) (label : SlotLabel) (h : Heap) :
  grown h (store_of (loadFontFromFile P file label h)).
Proof.
  destruct (loadFontFromFile_heap file label h) as [_ H].
  destruct (value_of (loadFontFromFile P file label h)) as [lf|].
  - destruct H as (Hd & Hn & _). split; [eauto | lia].
  - destruct H as (Hd & Hn). split; [exists []; now rewrite app_nil_r | lia].
Qed.

Lemma handler_grown (e : Event) (s : State) (h : Heap) :
  grown h (store_of (handler_of P s e h)).
Proof.
  destruct e as [files| | |files which|which|u]; cbn [handler_of].
  - pose proof (onDrop_eval P s files h) as E. cbv zeta in E. rewrite E.
    assert (Hg0 : grown h (heap_at_drop h))
      by (split; [exists []; cbn; now rewrite app_nil_r | cbn; lia]).
    destruct (recognized files) as [|file0 rest];
      [now rewrite store_of_mk|].
    destruct (fontA s); [destruct (fontB s)|destruct rest];
      rewrite store_of_mk; auto;
      repeat (eapply grown_trans; [|apply loadFontFromFile_grown]); auto.
  - split; [exists []; cbn; now rewrite app_nil_r | cbn; lia].
  - unfold onDragLeave, bind, get_dragCounter, set_dragCounter, store_of.
    cbn [fst snd dragCounter].
    destruct (dragCounter h - 1 <=? 0)%Z;
      (split; [exists []; cbn; now rewrite app_nil_r | cbn; lia]).
  - unfold handleFilePick. destruct files as [|file rest]; [apply grown_refl|].
    rewrite store_of_bind.
    destruct (value_of (loadFontFromFile P file which h)) as [lf|];
      [destruct which|]; apply loadFontFromFile_grown.
  - destruct which; apply grown_refl.
  - apply grown_refl.
Qed.

(** X10. No event takes a face out of [document.fonts]: after any run of
    events, resets and replacements included, the registry is the former
    registry with the faces loaded since at its end. *)
Theorem registry_only_grows :
  forall (es : list Event) (c : Component),
    exists added,
      document_fonts (heap (run P es c)) = document_fonts (heap c) ++ added.
Proof.
  intros es c.
  replace (heap (run P es c))
    with (snd (state (run P es c), heap (run P es c))) by reflexivity.
  rewrite run_state_heap.
  generalize (state c) (heap c). clear c.
  induction es as [|e es IH]; intros s h;
    [exists []; symmetry; apply app_nil_r|].
  cbn [fold_left].
  pose proof (handle_heap e s h) as Hh. cbv zeta in Hh.
  destruct (handler_grown e s h) as [[added1 E1] _].
  destruct (handle P e (s, h)) as [s1 h1]. cbn [snd] in Hh.
  destruct (IH s1 h1) as [added2 E2]. destruct Hh as [K _].
  exists (added1 ++ added2). rewrite E2, K, E1. now rewrite app_assoc.
Qed.

End Registry.

Lemma drop_keeps_loaded_fonts_witness :
  let s := with_fontA (Some Samples.regular_font) initial_state in
  fontA (fst (handle Samples.browser (Drop [Samples.bold_woff2])
                (s, initial_heap)))
  = Some Samples.regular_font.
Proof.
  intros s.
  apply (@drop_keeps_loaded_fonts Samples.browser s initial_heap
           [Samples.bold_woff2]).
  reflexivity.
Defined.

Lemma slots_hold_registered_fonts_witness :
  let c := run Samples.browser
             [Drop [Samples.regular_ttf; Samples.bold_woff2];
              Reset LabelA;
              FilePick [Samples.bold_woff2] LabelA]
             (mounted Samples.browser) in
  registered (state c) (heap c).
Proof.
  apply (@slots_hold_registered_fonts Samples.browser
           [Drop [Samples.regular_ttf; Samples.bold_woff2];
            Reset LabelA;
            FilePick [Samples.bold_woff2] LabelA]).
  repeat constructor.
Defined.

(** ** Drawing and measuring with a letter spacing *)

Section Spacing.

Variable P : Platform.

Lemma Qsum_app (l1 l2 : list Q) : Qsum (l1 ++ l2) == Qsum l1 + Qsum l2.
Proof.
  induction l1 as [|q l1 IH].
  - change (Qsum ([] ++ l2)) with (Qsum l2). change (Qsum []) with 0. ring.
  - change (Qsum ((q :: l1) ++ l2)) with (q + Qsum (l1 ++ l2)).
    change (Qsum (q :: l1)) with (q + Qsum l1). rewrite IH. ring.
Qed.

Lemma drawString_chars_eval ctx ch rest cx y k st fs :
  drawString_chars P ctx (ch :: rest) cx y k st fs
  = let r := drawString_chars P ctx rest
               (cx + (num_or (text_width P (fs ctx) ch) 0 + inject_Z k)) y
               k st fs in
    (tt, store_of r,
     (if st then [(ctx, StrokeText ch cx y)] else [])
     ++ (ctx, FillText ch cx y) :: (ctx, MeasureText ch) :: log_of r).
Proof.
  cbn [drawString_chars]. unfold bind, when, call, emit, measureText_width, ret.
  destruct st; cbn [app];
    destruct (drawString_chars P ctx rest _ y k _ fs) as [[[] fs'] l];
    reflexivity.
Qed.

Lemma drawString_chars_glyphs ctx y k st fs : forall chs cx,
  glyph_calls (log_of (drawString_chars P ctx chs cx y k st fs))
  = glyphs_at ctx st y
      (combine chs
         (pen_positions cx
            (map (fun c => num_or (text_width P (fs ctx) c) 0 + inject_Z k)
                 chs))).
Proof.
  induction chs as [|ch rest IH]; intros cx; [reflexivity|].
  rewrite drawString_chars_eval. cbv zeta. rewrite log_of_mk.
  cbn [map pen_positions combine glyphs_at flat_map fst snd].
  unfold glyph_calls in *. rewrite filter_app.
  cbn [filter snd is_glyph_call]. rewrite IH.
  destruct st; reflexivity.
Qed.

(** X11. With a letter spacing, [drawString] never draws the text as a
    whole: its text calls are, in the order of the text, one [fillText]
    per character, preceded by a [strokeText] of the same character at the
    same place when the stroke is on. All are on the line [y]; the first
    character is at [x] and each next one is further by the width measured
    for the character before (0 when none is reported) plus the
    spacing. *)
Theorem drawString_places_glyphs_one_by_one :
  forall (fontSize : Z) (ctx : CtxId) (fontName content : jsstring) (x y : Q)
         (color : jsstring) (k : Z) (st : bool) (sw : Z) (fs : Fonts),
    k <> 0%Z ->
    let advance c :=
      num_or (text_width P (font_css fontSize fontName) c) 0 + inject_Z k in
    glyph_calls
      (log_of (drawString P fontSize ctx fontName content x y color k st sw fs))
    = glyphs_at ctx st y
        (combine (chars content)
                 (pen_positions x (map advance (chars content)))).
Proof.
  intros fontSize ctx fontName content x y color k st sw fs Hk advance.
  unfold drawString. apply Z.eqb_neq in Hk. rewrite Hk.
  rewrite 6 log_of_bind.
  set (fs' := store_of (call ctx (SetFontKerning _) _)).
  assert (Hf : fs' ctx = font_css fontSize fontName).
  { unfold fs'. cbn. apply set_font_of_same. }
  unfold glyph_calls. rewrite !filter_app.
  fold (glyph_calls (log_of (drawString_chars P ctx (chars content) x y k st fs'))).
  rewrite drawString_chars_glyphs, Hf. reflexivity.
Qed.

Lemma chars_app (s t : jsstring) :
  Forall (fun c => is_high_surrogate c = false) s ->
  chars (s ++ t) = chars s ++ chars t.
Proof.
  induction 1 as [|c r Hc Hr IH]; [reflexivity|].
  cbn [app]. cbn [chars]. rewrite Hc. cbn [andb].
  destruct r as [|d r'].
  - cbn [app]. destruct t; reflexivity.
  - cbn [app] in *. rewrite IH. reflexivity.
Qed.

Lemma measureString_spaced_value fontSize ctx fontName content k fs :
  k <> 0%Z ->
  value_of (measureString P fontSize ctx fontName content k fs)
  == Qsum (map (fun c => text_width P (font_css fontSize fontName) c
                         + inject_Z k) (chars content)).
Proof.
  intros Hk. rewrite measureString_eval. cbv zeta.
  apply Z.eqb_neq in Hk. rewrite Hk. rewrite value_of_mk.
  destruct (measureString_chars_sum P ctx k
              (set_font_of ctx (font_css fontSize fontName) fs)
              (chars content) 0) as [Hv _].
  rewrite Hv, set_font_of_same. ring.
Qed.

Lemma Qsum_nonneg (l : list Q) : Forall (fun q => 0 <= q) l -> 0 <= Qsum l.
Proof.
  induction 1 as [|q l Hq Hl IH].
  - change (Qsum []) with 0. apply Qle_refl.
  - change (Qsum (q :: l)) with (q + Qsum l).
    setoid_replace 0 with (0 + 0) by ring. now apply Qplus_le_compat.
Qed.

(** X12. With a positive letter spacing and a font whose characters have
    no negative width, a text never measures less than its beginning:
    the width of [s] followed by [t] is at least the width of [s], as long
    as the cut does not fall inside a surrogate pair. *)
Theorem measureString_spaced_grows :
  forall (fontSize : Z) (ctx : CtxId) (fontName s t : jsstring) (k : Z)
         (fs : Fonts),
    (0 < k)%Z ->
    (forall c, 0 <= text_width P (font_css fontSize fontName) c) ->
    Forall (fun c => is_high_surrogate c = false) s ->
    value_of (measureString P fontSize ctx fontName s k fs)
    <= value_of (measureString P fontSize ctx fontName (s ++ t) k fs).
Proof.
  intros fontSize ctx fontName s t k fs Hk Hw Hs.
  rewrite !measureString_spaced_value by lia.
  rewrite chars_app by exact Hs. rewrite map_app, Qsum_app.
  assert (H : 0 <= Qsum (map (fun c => text_width P (font_css fontSize fontName) c
                                       + inject_Z k) (chars t))).
  { apply Qsum_nonneg, Forall_forall. intros q Hq.
    apply in_map_iff in Hq. destruct Hq as (c & <- & _).
    assert (Hk' : 0 <= inject_Z k).
    { change 0 with (inject_Z 0). rewrite <- Zle_Qle. lia. }
    pose proof (Hw c). lra. }
  lra.
Qed.

End Spacing.

(** ** When the text is measured again *)

Section Remeasure.

Variable P : Platform.





End Remeasure.

Lemma drawString_places_glyphs_witness :
  glyph_calls
    (log_of (drawString Samples.browser 120 MainCtx (lit "A_Regular_ttf_1")
               (lit "Hi!") 32 100 (lit "#ffffff") 5 true 1
               (fun _ => default_font)))
  = [ (MainCtx, StrokeText (lit "H") 32 100);
      (MainCtx, FillText (lit "H") 32 100);
      (MainCtx, StrokeText (lit "i") 47 100);
      (MainCtx, FillText (lit "i") 47 100);
      (MainCtx, StrokeText (lit "!") 62 100);
      (MainCtx, FillText (lit "!") 62 100) ].
Proof.
  rewrite (@drawString_places_glyphs_one_by_one Samples.browser 120 MainCtx
             (lit "A_Regular_ttf_1") (lit "Hi!") 32 100 (lit "#ffffff") 5
             true 1 (fun _ => default_font)); [|lia].
  vm_compute. reflexivity.
Defined.

Lemma measureString_spaced_grows_witness :
  value_of (measureString Samples.browser 120 TmpCtx (lit "A_Regular_ttf_1")
              (lit "Hi") 5 (fun _ => default_font))
  <= value_of (measureString Samples.browser 120 TmpCtx (lit "A_Regular_ttf_1")
                 (lit "Hi" ++ lit "!") 5 (fun _ => default_font)).
Proof.
  apply (@measureString_spaced_grows Samples.browser 120 TmpCtx
           (lit "A_Regular_ttf_1") (lit "Hi") (lit "!") 5
           (fun _ => default_font)).
  - lia.
  - intros c. cbn [text_width Samples.browser].
    apply Qmult_le_0_compat; [vm_compute; discriminate|].
    change 0 with (inject_Z 0). rewrite <- Zle_Qle. lia.
  - repeat constructor.
Defined.


(** ** The calls of the drawing code *)

Section Calls.

Variable P : Platform.

Lemma last_set_app {V} (pick : Call -> option V) ctx l1 : forall l2 acc,
  last_set pick ctx (l1 ++ l2) acc
  = last_set pick ctx l2 (last_set pick ctx l1 acc).
Proof.
  induction l1 as [|[c cl] l1 IH]; intros l2 acc; [reflexivity|].
  cbn [app last_set]. apply IH.
Qed.

Lemma last_set_keeps {V} (pick : Call -> option V) ctx l : forall acc,
  Forall (fun e => pick (snd e) = None) l -> last_set pick ctx l acc = acc.
Proof.
  induction l as [|[c cl] l IH]; intros acc H; [reflexivity|].
  inversion H as [|e l' Hcl Hl]; subst. cbn [last_set].
  cbn [snd] in Hcl. rewrite Hcl. now apply IH.
Qed.

Lemma only_on_app ctx cls l1 l2 :
  only_on ctx cls l1 -> only_on ctx cls l2 -> only_on ctx cls (l1 ++ l2).
Proof. unfold only_on. rewrite Forall_app. auto. Qed.

Lemma only_on_weaken ctx (cls cls' : Call -> bool) l :
  (forall c, cls c = true -> cls' c = true) ->
  only_on ctx cls l -> only_on ctx cls' l.
Proof.
  intros H. apply Forall_impl. intros e [H1 H2]. split; auto.
Qed.

Lemma only_on_no_pick {V} (pick : Call -> option V) ctx cls l :
  (forall c, cls c = true -> pick c = None) ->
  only_on ctx cls l -> Forall (fun e => pick (snd e) = None) l.
Proof. intros H. apply Forall_impl. intros e [_ H2]. auto. Qed.

Lemma drawChecker_row_calls ctx y w size fuel : forall x fs,
  only_on ctx is_checker_call (log_of (drawChecker_row fuel ctx x y w size fs)).
Proof.
  induction fuel as [|fuel IH]; intros x fs; cbn [drawChecker_row];
    [constructor|].
  destruct (Qlt_bool x w); [|constructor].
  rewrite !log_of_bind.
  repeat apply only_on_app; try apply IH; repeat constructor.
Qed.

Lemma drawChecker_calls ctx w h size fs :
  only_on ctx is_checker_call (log_of (drawChecker ctx w h size fs)).
Proof.
  unfold drawChecker. generalize (loop_passes h size) as fuel.
  generalize 0 as y. intros y fuel. revert y fs.
  induction fuel as [|fuel IH]; intros y fs; cbn [drawChecker_rows];
    [constructor|].
  destruct (Qlt_bool y h); [|constructor].
  rewrite !log_of_bind.
  apply only_on_app; [apply drawChecker_row_calls | apply IH].
Qed.

Lemma measureString_chars_calls ctx k chs : forall w fs,
  only_on ctx is_measure_call (log_of (measureString_chars P ctx chs w k fs)).
Proof.
  induction chs as [|ch rest IH]; intros w fs; cbn [measureString_chars];
    [constructor|].
  rewrite log_of_bind.
  apply only_on_app; [repeat constructor | apply IH].
Qed.

Lemma measureString_calls fontSize ctx fontName content k fs :
  only_on ctx is_measure_call
    (log_of (measureString P fontSize ctx fontName content k fs)).
Proof.
  rewrite measureString_eval; cbv zeta.
  destruct (Z.eqb k 0); rewrite log_of_mk; [repeat constructor|].
  constructor; [split; reflexivity|]. constructor; [split; reflexivity|].
  apply measureString_chars_calls.
Qed.

Lemma drawString_chars_calls ctx y k st chs : forall cx fs,
  only_on ctx is_text_call (log_of (drawString_chars P ctx chs cx y k st fs)).
Proof.
  induction chs as [|ch rest IH]; intros cx fs; [constructor|].
  rewrite drawString_chars_eval. cbv zeta. rewrite log_of_mk.
  apply only_on_app; [destruct st; repeat constructor|].
  constructor; [split; reflexivity|]. constructor; [split; reflexivity|].
  apply IH.
Qed.

Lemma drawString_calls fontSize ctx fontName content x y color k st sw fs :
  only_on ctx is_text_call
    (log_of (drawString P fontSize ctx fontName content x y color k st sw fs)).
Proof.
  unfold drawString. rewrite 6 log_of_bind.
  repeat (apply only_on_app; [repeat constructor|]).
  destruct (Z.eqb k 0).
  - rewrite log_of_bind.
    apply only_on_app; [destruct st|]; repeat constructor.
  - apply drawString_chars_calls.
Qed.

Lemma draw_overlay_calls s ctx a b content x y fs :
  only_on ctx (fun c => is_text_call c
                        || match pick_composite c with
                           | Some _ => true | None => false end)
    (log_of (draw_overlay P s ctx a b content x y fs)).
Proof.
  assert (Hw : forall l, only_on ctx is_text_call l ->
               only_on ctx (fun c => is_text_call c
                        || match pick_composite c with
                           | Some _ => true | None => false end) l).
  { intros l. apply only_on_weaken. intros c ->. reflexivity. }
  unfold draw_overlay. destruct (overlayMode s).
  - rewrite log_of_bind. apply only_on_app; apply Hw, drawString_calls.
  - rewrite 3 log_of_bind.
    apply only_on_app; [apply Hw, drawString_calls|].
    apply only_on_app; [repeat constructor|].
    apply only_on_app; [apply Hw, drawString_calls | repeat constructor].
Qed.

(** The calls of [drawCanvas] when both fonts are loaded and the contexts
    are there, part by part. *)
Lemma drawCanvas_log_both (s : State) (a b : LoadedFont) (fs : Fonts) :
  fontA s = Some a -> fontB s = Some b ->
  context2d P MainCtx = true -> context2d P TmpCtx = true ->
  let dpr := humanDevicePixelRatio P in
  let h0 := Math_max 200 (inject_Z (fontSize s) * (9 # 5) + pad * 2) in
  let w := surface_width (measured_width P s (name a))
                         (measured_width P s (name b)) in
  let h := surface_height (fontSize s) in
  exists fs1 fs2 fs3 fs4 fs5 fs6,
    log_of (drawCanvas P s fs)
    = log_of (size_canvas MainCtx 800 h0 dpr fs)
      ++ (MainCtx, ClearRect 0 0 800 h0)
      :: log_of (when (showChecker s) (drawChecker MainCtx 800 h0 16) fs1)
      ++ log_of (measureString P (fontSize s) TmpCtx (name a) (text s)
                   (letterSpacing s) fs2)
      ++ log_of (measureString P (fontSize s) TmpCtx (name b) (text s)
                   (letterSpacing s) fs3)
      ++ log_of (size_canvas MainCtx w h dpr fs4)
      ++ log_of ((if showChecker s then drawChecker MainCtx w h 16
                  else call MainCtx (ClearRect 0 0 w h)) fs5)
      ++ log_of (draw_overlay P s MainCtx a b (text s) pad
                   (baseline_y (fontSize s)) fs6)
      ++ baseline_and_labels w h (baseline_y (fontSize s)) a b.
Proof.
  intros HA HB Hctx Htmp. cbv zeta. unfold drawCanvas.
  rewrite Hctx, HA, HB. cbn [negb]. cbv zeta.
  rewrite 4 log_of_bind.
  unfold createElement_canvas_getContext. rewrite Htmp.
  rewrite value_of_mk, store_of_mk, log_of_mk. cbn [app].
  rewrite 14 log_of_bind.
  rewrite (measureString_value P (fontSize s) TmpCtx (name a) (text s)
             (letterSpacing s) _).
  rewrite (measureString_value P (fontSize s) TmpCtx (name b) (text s)
             (letterSpacing s) (store_of _)).
  fold (measured_width P s (name a)). fold (measured_width P s (name b)).
  do 6 eexists.
  unfold baseline_and_labels, baseline_y.
  cbn [log_of call emit set_font snd app]. reflexivity.
Qed.

Lemma only_on_main (cls : Call -> bool) (l : Log) :
  only_on MainCtx cls l -> Forall main_or_measuring l.
Proof. apply Forall_impl. intros e [H _]. now left. Qed.

Lemma only_on_tmp (l : Log) :
  only_on TmpCtx is_measure_call l -> Forall main_or_measuring l.
Proof. apply Forall_impl. intros e [H1 H2]. right. auto. Qed.

Lemma size_canvas_calls ctx w h dpr fs :
  only_on ctx is_sizing_call (log_of (size_canvas ctx w h dpr fs)).
Proof. repeat constructor. Qed.

Lemma background_calls ctx (b : bool) w h size fs :
  only_on ctx (fun c => is_checker_call c
                        || match c with ClearRect _ _ _ _ => true
                                      | _ => false end)
    (log_of ((if b then drawChecker ctx w h size
              else call ctx (ClearRect 0 0 w h)) fs)).
Proof.
  destruct b; [|repeat constructor].
  eapply only_on_weaken; [|apply drawChecker_calls]. now intros c ->.
Qed.

(** The calls of [drawCanvas] when the scratch context is missing. *)
Lemma drawCanvas_log_no_tmp (s : State) (a b : LoadedFont) (fs : Fonts) :
  fontA s = Some a -> fontB s = Some b ->
  context2d P MainCtx = true -> context2d P TmpCtx = false ->
  let h0 := Math_max 200 (inject_Z (fontSize s) * (9 # 5) + pad * 2) in
  exists fs1,
    log_of (drawCanvas P s fs)
    = log_of (size_canvas MainCtx 800 h0 (humanDevicePixelRatio P) fs)
      ++ (MainCtx, ClearRect 0 0 800 h0)
      :: log_of (when (showChecker s) (drawChecker MainCtx 800 h0 16) fs1).
Proof.
  intros HA HB Hctx Htmp. cbv zeta. unfold drawCanvas.
  rewrite Hctx, HA, HB. cbn [negb]. cbv zeta.
  rewrite 4 log_of_bind.
  unfold createElement_canvas_getContext. rewrite Htmp.
  rewrite value_of_mk, store_of_mk, log_of_mk. cbn [app].
  eexists. cbn [log_of call emit ret snd app]. now rewrite app_nil_r.
Qed.

Lemma when_checker_calls ctx (b : bool) w h size fs :
  only_on ctx is_checker_call
    (log_of (when b (drawChecker ctx w h size) fs)).
Proof. destruct b; [apply drawChecker_calls | constructor]. Qed.

(** X15. [drawCanvas] draws on the main canvas only: every call it makes
    goes to the main context, except for the calls that set the font of
    the scratch context and measure text with it. Nothing is ever drawn on
    the scratch canvas, and no cell canvas is touched. *)
Theorem drawCanvas_draws_on_main_only :
  forall (s : State) (fs : Fonts),
    Forall main_or_measuring (log_of (drawCanvas P s fs)).
Proof.
  intros s fs.
  destruct (context2d P MainCtx) eqn:Hctx;
    [|unfold drawCanvas; rewrite Hctx; constructor].
  destruct (fontA s) as [a|] eqn:HA;
    [destruct (fontB s) as [b|] eqn:HB|].
  - destruct (context2d P TmpCtx) eqn:Htmp.
    + destruct (drawCanvas_log_both s fs HA HB Hctx Htmp)
        as (fs1 & fs2 & fs3 & fs4 & fs5 & fs6 & ->). cbv zeta.
      apply Forall_app; split;
        [apply (only_on_main (cls := is_sizing_call)), size_canvas_calls|].
      constructor; [now left|].
      apply Forall_app; split;
        [apply (only_on_main (cls := is_checker_call)), when_checker_calls|].
      apply Forall_app; split; [apply only_on_tmp, measureString_calls|].
      apply Forall_app; split; [apply only_on_tmp, measureString_calls|].
      apply Forall_app; split;
        [apply (only_on_main (cls := is_sizing_call)), size_canvas_calls|].
      apply Forall_app; split; [eapply only_on_main, background_calls|].
      apply Forall_app; split; [eapply only_on_main, draw_overlay_calls|].
      repeat constructor.
    + destruct (drawCanvas_log_no_tmp s fs HA HB Hctx Htmp) as (fs1 & ->).
      apply Forall_app. split;
        [apply (only_on_main (cls := is_sizing_call)), size_canvas_calls|].
      constructor; [now left|].
      apply (only_on_main (cls := is_checker_call)), when_checker_calls.
  - destruct (drawCanvas_placeholder P s fs (or_intror HB)) as (bg & Hbg & ->).
    rewrite Hctx. apply Forall_app. split; [|repeat constructor].
    revert Hbg. apply Forall_impl. intros e [H _]. now left.
  - destruct (drawCanvas_placeholder P s fs (or_introl HA)) as (bg & Hbg & ->).
    rewrite Hctx. apply Forall_app. split; [|repeat constructor].
    revert Hbg. apply Forall_impl. intros e [H _]. now left.
Qed.

Lemma draw_overlay_composite s ctx a b content x y fs acc :
  last_set pick_composite ctx
    (log_of (draw_overlay P s ctx a b content x y fs)) acc
  = match overlayMode s with
    | Difference => Some (lit "source-over")
    | RedCyan => acc
    end.
Proof.
  assert (Hk : forall l acc', only_on ctx is_text_call l ->
               last_set pick_composite ctx l acc' = acc').
  { intros l acc' H. apply last_set_keeps.
    eapply only_on_no_pick; [|exact H]. intros c; destruct c; easy. }
  unfold draw_overlay. destruct (overlayMode s).
  - rewrite log_of_bind, last_set_app.
    rewrite !Hk by apply drawString_calls. reflexivity.
  - rewrite 3 log_of_bind, !last_set_app.
    rewrite (Hk _ acc) by apply drawString_calls.
    cbn [log_of call emit snd last_set pick_composite].
    rewrite Hk by apply drawString_calls.
    destruct ctx; cbn [CtxId_eqb]; rewrite ?Nat.eqb_refl; reflexivity.
Qed.

(** X16. [drawCanvas] never leaves the main context in the difference
    mode: the composite operation it sets last, if it sets one at all, is
    [source-over]. It does set one exactly when it draws two fonts in the
    difference mode. *)
Theorem drawCanvas_restores_composite :
  forall (s : State) (fs : Fonts),
    let last := last_set pick_composite MainCtx (log_of (drawCanvas P s fs))
                  None in
    (forall v, last = Some v -> v = lit "source-over")
    /\ (forall a b, fontA s = Some a -> fontB s = Some b ->
        context2d P MainCtx = true -> context2d P TmpCtx = true ->
        last = match overlayMode s with
               | Difference => Some (lit "source-over")
               | RedCyan => None
               end).
Proof.
  intros s fs.
  assert (Hk : forall cls l1 l2 acc,
            (forall c, cls c = true -> pick_composite c = None) ->
            (exists ctx, only_on ctx cls l1) ->
            last_set pick_composite MainCtx (l1 ++ l2) acc
            = last_set pick_composite MainCtx l2 acc).
  { intros cls l1 l2 acc Hc [ctx H]. rewrite last_set_app. f_equal.
    apply last_set_keeps. eapply only_on_no_pick; eauto. }
  assert (Hboth : forall a b, fontA s = Some a -> fontB s = Some b ->
            context2d P MainCtx = true -> context2d P TmpCtx = true ->
            last_set pick_composite MainCtx (log_of (drawCanvas P s fs)) None
            = match overlayMode s with
              | Difference => Some (lit "source-over")
              | RedCyan => None
              end).
  { intros a b HA HB Hctx Htmp.
    destruct (drawCanvas_log_both s fs HA HB Hctx Htmp)
      as (fs1 & fs2 & fs3 & fs4 & fs5 & fs6 & ->). cbv zeta.
    rewrite (Hk is_sizing_call) by
      (try (intros c; destruct c; easy); eexists; apply size_canvas_calls).
    cbn [last_set pick_composite].
    rewrite (Hk is_checker_call) by
      (try (intros c; destruct c; easy); eexists; apply when_checker_calls).
    rewrite (Hk is_measure_call) by
      (try (intros c; destruct c; easy); eexists; apply measureString_calls).
    rewrite (Hk is_measure_call) by
      (try (intros c; destruct c; easy); eexists; apply measureString_calls).
    rewrite (Hk is_sizing_call) by
      (try (intros c; destruct c; easy); eexists; apply size_canvas_calls).
    rewrite (Hk (fun c => is_checker_call c
                          || match c with ClearRect _ _ _ _ => true
                                        | _ => false end)) by
      (try (intros c; destruct c; easy); eexists; apply background_calls).
    rewrite last_set_app, draw_overlay_composite.
    destruct (overlayMode s); reflexivity. }
  cbv zeta. split; [|exact Hboth].
  intros v.
  destruct (context2d P MainCtx) eqn:Hctx;
    [|unfold drawCanvas; rewrite Hctx; discriminate].
  destruct (fontA s) as [a|] eqn:HA;
    [destruct (fontB s) as [b|] eqn:HB|].
  - destruct (context2d P TmpCtx) eqn:Htmp.
    + rewrite (Hboth a b eq_refl eq_refl eq_refl eq_refl).
      destruct (overlayMode s); [discriminate | now intros [= <-]].
    + destruct (drawCanvas_log_no_tmp s fs HA HB Hctx Htmp) as (fs1 & ->).
      rewrite (Hk is_sizing_call) by
        (try (intros c; destruct c; easy); eexists; apply size_canvas_calls).
      cbn [last_set pick_composite].
      rewrite <- (app_nil_r (log_of (when _ _ _))).
      rewrite (Hk is_checker_call) by
        (try (intros c; destruct c; easy); eexists; apply when_checker_calls).
      discriminate.
  - destruct (drawCanvas_placeholder P s fs (or_intror HB)) as (bg & Hbg & ->).
    rewrite Hctx.
    rewrite (Hk is_background) by
      (try (intros c; destruct c; easy); eexists; exact Hbg).
    discriminate.
  - destruct (drawCanvas_placeholder P s fs (or_introl HA)) as (bg & Hbg & ->).
    rewrite Hctx.
    rewrite (Hk is_background) by
      (try (intros c; destruct c; easy); eexists; exact Hbg).
    discriminate.
Qed.

Lemma last_set_peel {V} (pick : Call -> option V) ctx (cls : Call -> bool)
    l1 l2 acc :
  (forall c, cls c = true -> pick c = None) ->
  (exists ctx', only_on ctx' cls l1) ->
  last_set pick ctx (l1 ++ l2) acc = last_set pick ctx l2 acc.
Proof.
  intros Hc [ctx' H]. rewrite last_set_app. f_equal.
  apply last_set_keeps. eapply only_on_no_pick; eauto.
Qed.

Lemma CtxId_eqb_refl (c : CtxId) : CtxId_eqb c c = true.
Proof. destruct c; cbn; auto using Nat.eqb_refl. Qed.

Lemma size_canvas_sets ctx w h dpr fs l accw acch :
  last_set pick_style_width ctx (log_of (size_canvas ctx w h dpr fs) ++ l) accw
  = last_set pick_style_width ctx l (Some w)
  /\ last_set pick_style_height ctx (log_of (size_canvas ctx w h dpr fs) ++ l)
       acch
     = last_set pick_style_height ctx l (Some h).
Proof.
  unfold size_canvas, bind, set_canvas_width, set_canvas_height, call, emit,
    log_of. cbn [snd app last_set pick_style_width pick_style_height].
  rewrite CtxId_eqb_refl. split; reflexivity.
Qed.

(** X17. With both fonts loaded, the logical height [drawCanvas] gives the
    surface is [max(120, ceil(fontSize * 1.8 + 2 * 32))]: it depends on the
    font size alone, not on the text, the fonts or the letter spacing. For
    the font sizes of the slider, 16 to 260, it lies between 120 and 532. *)
Theorem surface_height_follows_font_size :
  forall (s : State) (a b : LoadedFont) (fs : Fonts),
    fontA s = Some a -> fontB s = Some b ->
    context2d P MainCtx = true -> context2d P TmpCtx = true ->
    let height :=
      Math_max 120 (Math_ceil (inject_Z (fontSize s) * (9 # 5) + 32 * 2)) in
    last_set pick_style_height MainCtx (log_of (drawCanvas P s fs)) None
    = Some height
    /\ ((16 <= fontSize s <= 260)%Z -> 120 <= height <= 532).
Proof.
  intros s a b fs HA HB Hctx Htmp height. split.
  - destruct (drawCanvas_log_both s fs HA HB Hctx Htmp)
      as (fs1 & fs2 & fs3 & fs4 & fs5 & fs6 & ->). cbv zeta.
    rewrite (proj2 (size_canvas_sets _ _ _ _ _ _ None None)).
    cbn [last_set pick_style_height].
    rewrite (@last_set_peel _ _ _ is_checker_call _ _ _) by
      (try (intros c; destruct c; easy); eexists; apply when_checker_calls).
    rewrite (@last_set_peel _ _ _ is_measure_call _ _ _) by
      (try (intros c; destruct c; easy); eexists; apply measureString_calls).
    rewrite (@last_set_peel _ _ _ is_measure_call _ _ _) by
      (try (intros c; destruct c; easy); eexists; apply measureString_calls).
    rewrite (proj2 (size_canvas_sets _ _ _ _ _ _ None _)).
    rewrite (@last_set_peel _ _ _
               (fun c => is_checker_call c
                         || match c with ClearRect _ _ _ _ => true
                                       | _ => false end) _ _ _) by
      (try (intros c; destruct c; easy); eexists; apply background_calls).
    rewrite (@last_set_peel _ _ _
               (fun c => is_text_call c
                         || match pick_composite c with
                            | Some _ => true | None => false end) _ _ _) by
      (try (intros c; destruct c; easy); eexists; apply draw_overlay_calls).
    reflexivity.
  - intros [Hlo Hhi]. unfold height, Math_max, Math_ceil.
    split; [apply Q.le_max_l|].
    apply Q.max_lub; [discriminate|].
    change 532 with (inject_Z 532). rewrite <- Zle_Qle.
    rewrite <- (Qceiling_Z 532). apply Qceiling_resp_le.
    assert (H : inject_Z (fontSize s) <= inject_Z 260)
      by (now rewrite <- Zle_Qle).
    change (inject_Z 260) with 260 in H. change (inject_Z 532) with 532.
    lra.
Qed.

(** X18. A grid cell draws on its own canvas only, and when it draws it
    gives that canvas the fixed box of 120 by 120 pixels, whatever the
    character, the fonts and the font size. *)
Theorem GlyphCell_draws_in_its_own_box :
  forall (s : State) (i : nat) (ch : jsstring) (fs : Fonts),
    let log := log_of (GlyphCell_effect P s i ch fs) in
    Forall (fun e => fst e = CellCtx i) log
    /\ (forall a b, fontA s = Some a -> fontB s = Some b ->
        context2d P (CellCtx i) = true ->
        last_set pick_style_width (CellCtx i) log None = Some 120
        /\ last_set pick_style_height (CellCtx i) log None = Some 120).
Proof.
  intros s i ch fs log.
  assert (Hon : forall cls l, only_on (CellCtx i) cls l ->
                Forall (fun e => fst e = CellCtx i) l).
  { intros cls l. apply Forall_impl. now intros e [H _]. }
  unfold log, GlyphCell_effect. clear log.
  destruct (fontA s) as [a|]; [destruct (fontB s) as [b|]|];
    try (split; [constructor | intros ? ? ?; discriminate]).
  destruct (context2d P (CellCtx i));
    [|split; [constructor | intros ? ? _ _ ?; discriminate]].
  cbn [negb]. cbv zeta. rewrite 8 log_of_bind. split.
  - apply Forall_app; split; [eapply Hon, size_canvas_calls|].
    apply Forall_app; split; [eapply Hon, background_calls|].
    apply Forall_app; split; [repeat constructor|].
    apply Forall_app; split; [eapply Hon, draw_overlay_calls|].
    repeat (apply Forall_app; split; [repeat constructor|]).
    repeat constructor.
  - intros a' b' _ _ _.
    rewrite (proj1 (size_canvas_sets _ _ _ _ _ _ None None)).
    rewrite (proj2 (size_canvas_sets _ _ _ _ _ _ None None)).
    split.
    + rewrite (@last_set_peel _ _ _
               (fun c => is_checker_call c
                         || match c with ClearRect _ _ _ _ => true
                                       | _ => false end) _ _ _) by
        (try (intros c; destruct c; easy); eexists; apply background_calls).
      cbn [log_of call emit snd app last_set pick_style_width].
      rewrite (@last_set_peel _ _ _
               (fun c => is_text_call c
                         || match pick_composite c with
                            | Some _ => true | None => false end) _ _ _) by
        (try (intros c; destruct c; easy); eexists; apply draw_overlay_calls).
      reflexivity.
    + rewrite (@last_set_peel _ _ _
               (fun c => is_checker_call c
                         || match c with ClearRect _ _ _ _ => true
                                       | _ => false end) _ _ _) by
        (try (intros c; destruct c; easy); eexists; apply background_calls).
      cbn [log_of call emit snd app last_set pick_style_height].
      rewrite (@last_set_peel _ _ _
               (fun c => is_text_call c
                         || match pick_composite c with
                            | Some _ => true | None => false end) _ _ _) by
        (try (intros c; destruct c; easy); eexists; apply draw_overlay_calls).
      reflexivity.
Qed.

End Calls.

Lemma drawCanvas_restores_composite_witness :
  let s := with_parameter (SetOverlayMode Difference)
             (with_fontB (Some Samples.bold_font)
                (with_fontA (Some Samples.regular_font) initial_state)) in
  last_set pick_composite MainCtx
    (log_of (drawCanvas Samples.browser s (fun _ => default_font))) None
  = Some (lit "source-over").
Proof.
  intros s.
  destruct (@drawCanvas_restores_composite Samples.browser s
              (fun _ => default_font)) as [_ H].
  exact (H Samples.regular_font Samples.bold_font
           eq_refl eq_refl eq_refl eq_refl).
Defined.

Lemma surface_height_follows_font_size_witness :
  let s := with_fontB (Some Samples.bold_font)
             (with_fontA (Some Samples.regular_font) initial_state) in
  let height := Math_max 120 (Math_ceil (120 * (9 # 5) + 32 * 2)) in
  last_set pick_style_height MainCtx
    (log_of (drawCanvas Samples.browser s (fun _ => default_font))) None
  = Some height
  /\ 120 <= height <= 532.
Proof.
  intros s height.
  destruct (@surface_height_follows_font_size Samples.browser s
              Samples.regular_font Samples.bold_font (fun _ => default_font)
              eq_refl eq_refl eq_refl eq_refl) as [H Hrange].
  split; [exact H | apply Hrange; cbn; lia].
Defined.

Lemma GlyphCell_draws_in_its_own_box_witness :
  let s := with_fontB (Some Samples.bold_font)
             (with_fontA (Some Samples.regular_font) initial_state) in
  let log := log_of (GlyphCell_effect Samples.browser s 3 (lit "g")
                       (fun _ => default_font)) in
  last_set pick_style_width (CellCtx 3) log None = Some 120
  /\ last_set pick_style_height (CellCtx 3) log None = Some 120.
Proof.
  intros s log.
  destruct (@GlyphCell_draws_in_its_own_box Samples.browser s 3%nat (lit "g")
              (fun _ => default_font)) as [_ H].
  exact (H Samples.regular_font Samples.bold_font eq_refl eq_refl eq_refl).
Defined.

(** ** The grid shown *)

Section Grid.

Variable P : Platform.

Lemma gridChars_deps_same_eq (s t : State) :
  gridChars_deps_same s t = true ->
  gridCharsPreset s = gridCharsPreset t /\ customChars s = customChars t.
Proof.
  unfold gridChars_deps_same. rewrite andb_true_iff, eqb_eq.
  intros [H ->]. split; [|reflexivity].
  destruct (gridCharsPreset s), (gridCharsPreset t); easy.
Qed.

Lemma gridChars_deps_same_refl (s : State) : gridChars_deps_same s s = true.
Proof.
  unfold gridChars_deps_same. rewrite andb_true_iff, eqb_eq.
  split; [destruct (gridCharsPreset s)|]; reflexivity.
Qed.

Lemma render_grid_fresh (c : Component) (s : State) (h : Heap) :
  grid_memo_holds c -> grid_fresh (render P c s h).
Proof.
  intros Hmemo. unfold render.
  assert (Hg : forall fs,
    let r := useMemo gridChars_deps_same
               (fun s0 => ret (gridChars_factory (gridCharsPreset s0)
                                 (customChars s0)))
               s (gridChars_memo c) fs in
    fst (value_of r) = gridChars_factory (gridCharsPreset s) (customChars s)
    /\ forall s0 v, snd (value_of r) = Some (s0, v) ->
         v = gridChars_factory (gridCharsPreset s0) (customChars s0)).
  { intros fs. cbv zeta. unfold useMemo.
    destruct (gridChars_memo c) as [[s0 v]|] eqn:E.
    - destruct (gridChars_deps_same s0 s) eqn:Ed.
      + unfold ret. rewrite value_of_mk. cbn [fst snd].
        destruct (gridChars_deps_same_eq _ _ Ed) as [<- <-].
        split; [now apply Hmemo|]. intros s1 v1 [= <- <-]. now apply Hmemo.
      + rewrite value_of_bind. unfold ret. rewrite !value_of_mk. cbn [fst snd].
        split; [reflexivity | now intros s1 v1 [= <- <-]].
    - rewrite value_of_bind. unfold ret. rewrite !value_of_mk. cbn [fst snd].
      split; [reflexivity | now intros s1 v1 [= <- <-]]. }
  specialize (Hg (ctx_fonts c)). cbv zeta in Hg.
  destruct (useMemo gridChars_deps_same _ s (gridChars_memo c) (ctx_fonts c))
    as [[gc fs1] l0].
  rewrite value_of_mk in Hg. destruct Hg as [Hv Hc].
  destruct (useMemo metrics_deps_same (metrics_factory P) s (metrics_memo c) fs1)
    as [[mt fs2] rlog].
  destruct ((if match drawCanvas_ran c with
                | Some s0 => negb (drawCanvas_deps_same s0 s)
                | None => true
                end then drawCanvas P s else ret tt) fs2) as [[u fs3] dlog].
  destruct (GlyphCell_effects P s 0 _ fs3) as [[u' fs4] clog].
  split.
  - unfold grid_memo_holds. cbn [gridChars_memo]. exact Hc.
  - cbn [view state grid_view render_view]. rewrite Hv. reflexivity.
Qed.

Lemma commit_grid_fresh (us : list Update) : forall c,
  grid_fresh c -> grid_fresh (commit P us c).
Proof.
  induction us as [|u rest IH]; intros c Hc; [exact Hc|].
  cbn [commit]. destruct (apply_update P u (state c, heap c)) as [s' h'].
  apply IH, render_grid_fresh, Hc.
Qed.

(** X19. After any run of events the grid the component shows is that of
    its current state: closed, or asking for fonts while a slot is empty,
    or one cell per character of the chosen set, in order and with
    repeated characters repeated. The memoised set is never stale. *)
Theorem grid_shows_current_selection :
  forall (es : list Event),
    let c := run P es (mounted P) in
    grid_view (view c) = grid_of (state c).
Proof.
  intros es c.
  assert (H : grid_fresh c); [|apply H].
  unfold c. clear c.
  assert (H0 : grid_fresh (mounted P)).
  { apply render_grid_fresh. intros s0 v E. discriminate. }
  revert H0. generalize (mounted P).
  induction es as [|e es IH]; intros c Hc; [exact Hc|].
  unfold run in *. cbn [fold_left]. apply IH.
  unfold step. destruct (handler_of P (state c) e (heap c)) as [[u h] us].
  apply commit_grid_fresh. exact Hc.
Qed.

End Grid.

(** ** The checker board *)

Section Board.

Lemma same_paints_app (l1 l1' l2 l2' : Log) :
  same_paints l1 l1' -> same_paints l2 l2' ->
  same_paints (l1 ++ l2) (l1' ++ l2').
Proof. apply Forall2_app. Qed.

(** A pass below the number of passes starts inside the bound. *)
Lemma pass_starts_inside (bound size : Q) (i : nat) :
  0 < size -> (i < loop_passes bound size)%nat ->
  inject_Z (Z.of_nat i) * size < bound.
Proof.
  intros Hs Hi. unfold loop_passes in Hi.
  assert (H1 : inject_Z (Qceiling (bound / size) - 1) < bound / size)
    by apply Qceiling_lt.
  assert (H2 : inject_Z (Z.of_nat i) <= inject_Z (Qceiling (bound / size) - 1)).
  { rewrite <- Zle_Qle. lia. }
  assert (E : bound / size * size == bound).
  { field. intros E. rewrite E in Hs. now apply Qlt_irrefl in Hs. }
  rewrite <- E.
  apply Qmult_lt_compat_r; [exact Hs|].
  now apply Qle_lt_trans with (inject_Z (Qceiling (bound / size) - 1)).
Qed.

Lemma Qlt_bool_intro (a b : Q) : a < b -> Qlt_bool a b = true.
Proof.
  intros H. unfold Qlt_bool. apply negb_true_iff.
  destruct (Qle_bool b a) eqn:E; [|reflexivity].
  apply Qle_bool_iff in E. exfalso. apply (Qlt_not_le _ _ H E).
Qed.

Lemma Qfloor_half (n : Z) : Qfloor (inject_Z n / 2) = (n / 2)%Z.
Proof.
  unfold Qfloor, Qdiv, Qmult, Qinv, inject_Z. simpl.
  rewrite Z.mul_1_r. reflexivity.
Qed.

(** The remainder by two of a whole number that is not negative. *)
Lemma js_rem_two (a : Q) (n : Z) :
  a == inject_Z n -> (0 <= n)%Z ->
  Qeq_bool (js_rem a 2) 0 = Z.even n.
Proof.
  intros Ha Hn. unfold js_rem, Qtrunc.
  assert (H0 : 0 <= a / 2).
  { rewrite Ha. apply Qle_shift_div_l; [reflexivity|].
    setoid_replace (0 * 2) with (inject_Z 0) by reflexivity.
    now rewrite <- Zle_Qle. }
  apply Qle_bool_iff in H0. rewrite H0.
  assert (Hf : Qfloor (a / 2) = (n / 2)%Z).
  { rewrite <- Qfloor_half. apply Qfloor_comp. now rewrite Ha. }
  rewrite Hf.
  assert (E : a - 2 * inject_Z (n / 2) == inject_Z (n mod 2)).
  { rewrite Ha. rewrite Z.mod_eq by lia.
    unfold Zminus. rewrite inject_Z_plus, inject_Z_opp, inject_Z_mult.
    change (inject_Z 2) with 2. ring. }
  rewrite Zmod_even in E.
  destruct (Z.even n).
  - apply Qeq_bool_iff. exact E.
  - destruct (Qeq_bool (a - 2 * inject_Z (n / 2)) 0) eqn:Eq; [|reflexivity].
    apply Qeq_bool_iff in Eq. rewrite E in Eq. discriminate Eq.
Qed.

Lemma drawChecker_row_board ctx (y w size : Q) (j : nat) :
  0 < size -> y == inject_Z (Z.of_nat j) * size ->
  forall fuel (i : nat) x fs,
    x == inject_Z (Z.of_nat i) * size ->
    (i + fuel <= loop_passes w size)%nat ->
    same_paints (log_of (drawChecker_row fuel ctx x y w size fs))
                (flat_map (tile ctx size j) (seq i fuel)).
Proof.
  intros Hs Hy. induction fuel as [|fuel IH]; intros i x fs Hx Hi.
  - constructor.
  - cbn [drawChecker_row seq flat_map].
    assert (Hin : x < w).
    { rewrite Hx. apply pass_starts_inside; [exact Hs | lia]. }
    rewrite (Qlt_bool_intro Hin). cbv zeta.
    rewrite !log_of_bind.
    assert (Hne : ~ size == 0).
    { intros E. rewrite E in Hs. now apply Qlt_irrefl in Hs. }
    assert (Hsum : x / size + y / size == inject_Z (Z.of_nat i + Z.of_nat j)).
    { rewrite Hx, Hy, inject_Z_plus. field. exact Hne. }
    rewrite (js_rem_two Hsum) by lia.
    unfold tile at 1. cbn [app].
    constructor; [split; reflexivity|].
    constructor.
    { split; [reflexivity|]. cbn [snd same_paint].
      repeat split; try reflexivity; assumption. }
    apply IH; [|lia].
    rewrite Hx, inject_Z_succ. ring.
Qed.

Lemma drawChecker_rows_board ctx (w h size : Q) :
  0 < size ->
  forall fuel (j : nat) y fs,
    y == inject_Z (Z.of_nat j) * size ->
    (j + fuel <= loop_passes h size)%nat ->
    same_paints (log_of (drawChecker_rows fuel ctx y w h size fs))
      (flat_map (fun j => flat_map (tile ctx size j)
                            (seq 0 (loop_passes w size)))
                (seq j fuel)).
Proof.
  intros Hs. induction fuel as [|fuel IH]; intros j y fs Hy Hj.
  - constructor.
  - cbn [drawChecker_rows seq flat_map].
    assert (Hin : y < h).
    { rewrite Hy. apply pass_starts_inside; [exact Hs | lia]. }
    rewrite (Qlt_bool_intro Hin).
    rewrite !log_of_bind.
    apply same_paints_app.
    + apply drawChecker_row_board; [exact Hs | exact Hy | | lia].
      change (inject_Z (Z.of_nat 0)) with 0. ring.
    + apply IH; [|lia]. rewrite Hy, inject_Z_succ. ring.
Qed.

(** X20. With a positive tile size [drawChecker] paints a board of
    ceil(w / size) columns by ceil(h / size) rows, row after row from the
    top and each row from the left: the tile in column [i] of row [j] is the
    square of side [size] at [(i * size, j * size)], grey ([#eee]) when
    [i + j] is even and white ([#fff]) otherwise. Nothing else is drawn. *)
Theorem drawChecker_paints_the_board :
  forall (ctx : CtxId) (w h size : Q) (fs : Fonts),
    0 < size ->
    same_paints (log_of (drawChecker ctx w h size fs))
      (board ctx size (Z.to_nat (Qceiling (w / size)))
                      (Z.to_nat (Qceiling (h / size)))).
Proof.
  intros ctx w h size fs Hs. unfold drawChecker, board.
  apply (@drawChecker_rows_board ctx w h size Hs (loop_passes h size) 0%nat).
  - change (inject_Z (Z.of_nat 0)) with 0. ring.
  - lia.
Qed.

End Board.

Lemma drawChecker_paints_the_board_witness :
  0 < 16
  /\ same_paints (log_of (drawChecker MainCtx 40 20 16 (fun _ => default_font)))
       (board MainCtx 16 3 2).
Proof.
  split; [reflexivity|].
  exact (@drawChecker_paints_the_board MainCtx 40 20 16 (fun _ => default_font) eq_refl).
Defined.

(** ** When the canvas is repainted *)

Section Repaint.

Variable P : Platform.

Lemma off_canvas_keeps_deps (u : Update) (s s0 : State) (h : Heap) :
  off_canvas u = true ->
  drawCanvas_deps_same s0 s = true ->
  drawCanvas_deps_same s0 (fst (apply_update P u (s, h))) = true.
Proof.
  destruct u; try discriminate; intros _ H; exact H.
Qed.

Lemma render_keeps_surface (c : Component) (s s0 : State) (h : Heap) :
  drawCanvas_ran c = Some s0 ->
  drawCanvas_deps_same s0 s = true ->
  surface (render P c s h) = surface c
  /\ drawCanvas_ran (render P c s h) = Some s0.
Proof.
  intros Hr Hd. unfold render.
  destruct (useMemo gridChars_deps_same _ s (gridChars_memo c) (ctx_fonts c))
    as [[gc fs1] l0].
  destruct (useMemo metrics_deps_same (metrics_factory P) s (metrics_memo c) fs1)
    as [[mt fs2] rlog].
  rewrite Hr, Hd. cbn [negb]. unfold ret.
  destruct (GlyphCell_effects P s 0 _ fs2) as [[u' fs4] clog].
  cbn [surface drawCanvas_ran]. split; reflexivity.
Qed.

Lemma commit_keeps_surface (us : list Update) : forall (c : Component) s0,
  Forall (fun u => off_canvas u = true) us ->
  drawCanvas_ran c = Some s0 ->
  drawCanvas_deps_same s0 (state c) = true ->
  surface (commit P us c) = surface c
  /\ drawCanvas_ran (commit P us c) = drawCanvas_ran c.
Proof.
  induction us as [|u rest IH]; intros c s0 Hus Hr Hd; [split; reflexivity|].
  inversion Hus as [|? ? Hu Hrest]; subst.
  cbn [commit].
  pose proof (@off_canvas_keeps_deps u (state c) s0 (heap c) Hu Hd) as Hd'.
  destruct (apply_update P u (state c, heap c)) as [s' h']. cbn [fst] in Hd'.
  destruct (@render_keeps_surface c s' s0 h' Hr Hd') as [Hs Hr'].
  destruct (IH (render P c s' h') s0 Hrest Hr') as [H1 H2].
  - now rewrite (proj1 (render_state_heap P c s' h')).
  - rewrite H1, H2, Hs, Hr', Hr. split; reflexivity.
Qed.

(** X21. The canvas is repainted only for its dependencies. After any run
    of events, an event whose handler calls only the setters of the drag
    highlight, of the messages and of the grid (open, preset, custom
    characters) leaves the painted surface as it was: [drawCanvas] does
    not run again. *)
Theorem canvas_kept_by_events_off_its_dependencies :
  forall (es : list Event) (e : Event),
    let c := run P es (mounted P) in
    Forall (fun u => off_canvas u = true) (queued P c e) ->
    surface (step P c e) = surface c
    /\ drawCanvas_ran (step P c e) = drawCanvas_ran c.
Proof.
  intros es e c Hq.
  assert (Hc : settled P c) by apply run_settled, mounted_settled.
  destruct Hc as (_ & _ & (s0 & fs & Hr & Hd & _) & _).
  unfold queued in Hq. unfold step.
  destruct (handler_of P (state c) e (heap c)) as [[u h] us].
  unfold log_of in Hq. cbn [snd] in Hq.
  apply (@commit_keeps_surface us (with_heap h c) s0 Hq Hr Hd).
Qed.

End Repaint.

Lemma canvas_kept_by_events_off_its_dependencies_witness :
  let c := run Samples.browser
             [Drop [Samples.regular_ttf; Samples.bold_woff2]]
             (mounted Samples.browser) in
  surface (step Samples.browser c DragEnter) = surface c
  /\ surface (step Samples.browser c (Drop [Samples.notes_txt])) = surface c.
Proof.
  intros c. split.
  - apply (@canvas_kept_by_events_off_its_dependencies Samples.browser
             [Drop [Samples.regular_ttf; Samples.bold_woff2]] DragEnter).
    repeat constructor.
  - apply (@canvas_kept_by_events_off_its_dependencies Samples.browser
             [Drop [Samples.regular_ttf; Samples.bold_woff2]]
             (Drop [Samples.notes_txt])).
    vm_compute. repeat constructor.
Defined.

